(** * Autoencoder-HybirdMovieRec: the autoencoder trainer and the text
      embedding helper, embedded from [src/model/autoencoder.py],
      [src/model/embedding.py] and [src/EmbeddingUtil.py].

    Conventions of the embedding.
    - Python exceptions are results: [None] in the pure helpers, [Raise]
      in the stateful ones, which keep the state reached at the raise.
    - Tensor and array elements are real numbers ([R]); the rounding of
      32-bit floats is outside the model.  The validation fraction is a
      rational and [val_pct * n] is its exact product.
    - numpy's and torch's generators, autograd, Adam and the NLTK and
      scikit-learn text tools are supplied capabilities: each is a record
      of operations (or a Section variable), instantiated where a
      statement is run on concrete data.
    The definitions come first; the facts about them start at
    "Facts about the splitter". *)

From Stdlib Require Import Ascii String QArith Qround Reals Lra.
From stdpp Require Import gmap strings list fin_maps pretty sorting.

(* ===================================================================== *)
(** ** numpy indexing used by the splitter *)
(* ===================================================================== *)

Module Numpy.

(** [int(x)] on a number: truncation toward zero. *)
Definition py_int (q : Q) : Z :=
  if Qle_bool 0 q then Qfloor q else Qceiling q.

(** One bound of a slice [l[start:stop]] on a sequence of length [len]:
    a negative bound counts from the end, and both are clipped. *)
Definition slice_bound (len : nat) (i : Z) : nat :=
  if (i <? 0)%Z then Z.to_nat (Z.max (i + Z.of_nat len) 0)
  else Z.to_nat (Z.min i (Z.of_nat len)).

(** [l[start:stop]]. *)
Definition py_slice {A} (l : list A) (start stop : Z) : list A :=
  let lo := slice_bound (length l) start in
  let hi := slice_bound (length l) stop in
  take (hi - lo) (drop lo l).

(** An integer index into an axis of length [len]: negative indices wrap
    once, anything else out of range is an IndexError. *)
Definition np_index (len : nat) (i : Z) : option nat :=
  if ((0 <=? i) && (i <? Z.of_nat len))%Z then Some (Z.to_nat i)
  else if ((- Z.of_nat len <=? i) && (i <? 0))%Z
       then Some (Z.to_nat (i + Z.of_nat len))
       else None.

(** [mask[idxs] = True] for an integer index array [idxs]. *)
Fixpoint mask_set (mask : list bool) (idxs : list Z) : option (list bool) :=
  match idxs with
  | [] => Some mask
  | i :: rest =>
      match np_index (length mask) i with
      | Some k => mask_set (<[k:=true]> mask) rest
      | None => None
      end
  end.

(** The rows a boolean mask keeps, in row order. *)
Fixpoint select {A} (mask : list bool) (o : list A) : list A :=
  match mask, o with
  | b :: mask', x :: o' => if b then x :: select mask' o' else select mask' o'
  | _, _ => []
  end.

(** [o[mask]]: the mask must cover the first axis exactly. *)
Definition bool_index {A} (o : list A) (mask : list bool) : option (list A) :=
  if decide (length o = length mask) then Some (select mask o) else None.

(** [~mask]. *)
Definition invert (mask : list bool) : list bool := negb <$> mask.

(** [np.flatnonzero(mask)]: the positions a mask keeps, counted from [k]. *)
Fixpoint true_positions (k : nat) (mask : list bool) : list nat :=
  match mask with
  | [] => []
  | b :: mask' =>
      if b then k :: true_positions (S k) mask' else true_positions (S k) mask'
  end.

(** [o[is]] for a list of positions (all in range). *)
Definition take_rows {A} (o : list A) (positions : list nat) : list A :=
  omap (λ i, o !! i) positions.

End Numpy.

(* ===================================================================== *)
(** ** DataSplitter: [get_cv_idxs] and [split_by_idx] *)
(* ===================================================================== *)

Module Splitter.
Import Numpy.

(** numpy's global generator, a supplied capability: its state,
    [np.random.seed] and [np.random.permutation]. *)
Record Generator := {
  rng : Type;
  np_random_seed : Z -> rng;
  np_random_permutation : rng -> nat -> list Z * rng
}.

(** What the splitter relies on: [permutation(n)] returns the numbers
    [0 .. n-1] in some order. *)
Definition permutes (G : Generator) : Prop :=
  forall (g : rng G) (n : nat),
    (np_random_permutation G g n).1 ≡ₚ Z.of_nat <$> seq 0 n.

(** [np.random.seed] accepts seeds in [0, 2**32). *)
Definition valid_seed (seed : Z) : bool :=
  ((0 <=? seed) && (seed <? 2 ^ 32))%Z.

(** [get_cv_idxs(n, cv_idx, val_pct, seed)], run on the generator state
    [g]; the result carries the state the generator is left in. *)
Definition get_cv_idxs (G : Generator) (n : nat) (cv_idx : Z) (val_pct : Q)
    (seed : Z) (g : rng G) : option (list Z * rng G) :=
  if valid_seed seed then
    let g1 := np_random_seed G seed in
    let n_val := py_int (val_pct * inject_Z (Z.of_nat n)) in
    let idx_start := (cv_idx * n_val)%Z in
    let '(idxs, g2) := np_random_permutation G g1 n in
    Some (py_slice idxs idx_start (idx_start + n_val), g2)
  else None.

(** [split_by_idx(idxs, *a)]. *)
Definition split_by_idx {A} (idxs : list Z) (a : list (list A))
    : option (list (list A * list A)) :=
  a0 ← head a;
  mask ← mask_set (replicate (length a0) false) idxs;
  mapM (λ o, v ← bool_index o mask;
             t ← bool_index o (invert mask);
             Some (v, t)) a.

(** The split of [AutoEncoder.__init__]:
    [val_idxs = get_cv_idxs(n=data.shape[0], val_pct=validation_perc)]
    then [[(val, train)] = split_by_idx(val_idxs, data)]. *)
Definition init_split {A} (G : Generator) (data : list A)
    (validation_perc : Q) (g : rng G)
    : option (list Z * list A * list A * rng G) :=
  '(val_idxs, g') ← get_cv_idxs G (length data) 0 validation_perc 0 g;
  parts ← split_by_idx val_idxs [data];
  match parts with
  | [(val, train)] => Some (val_idxs, val, train, g')
  | _ => None
  end.

(** The whole split for one matrix: the validation indices, the
    (validation, training) pair and the generator state left behind. *)
Definition split {A} (G : Generator) (data : list A) (cv_idx : Z)
    (val_pct : Q) (seed : Z) (g : rng G)
    : option (list Z * list (list A * list A) * rng G) :=
  '(idxs, g') ← get_cv_idxs G (length data) cv_idx val_pct seed g;
  parts ← split_by_idx idxs [data];
  Some (idxs, parts, g').

(** A generator to run the splitter on: a linear congruential state, and
    the permutation that rotates [0 .. n-1] by the next state. *)
Definition lcg_next (g : Z) : Z := ((g * 1103515245 + 12345) mod 2 ^ 31)%Z.

Definition lcg_permutation (g : Z) (n : nat) : list Z * Z :=
  let k := Z.to_nat (lcg_next g) `mod` (n `max` 1) in
  (Z.of_nat <$> (drop k (seq 0 n) ++ take k (seq 0 n)), lcg_next g).

Definition lcg : Generator :=
  {| rng := Z; np_random_seed := λ seed, seed;
     np_random_permutation := lcg_permutation |}.

End Splitter.

(* ===================================================================== *)
(** ** Array memory: buffers, numpy views and torch tensors *)
(* ===================================================================== *)

Module Storage.
Import Numpy.

Inductive dtype := Float32 | Float64 | Int64.

#[global] Instance dtype_eq_dec : EqDecision dtype.
Proof. solve_decision. Defined.

Section Memory.

(** The element values, and the conversion [astype] applies to one
    element when it changes the element type. *)
Context {elem : Type}.
Variable cast : dtype -> dtype -> elem -> elem.

(** A buffer is a typed block of elements; memory is the sequence of the
    buffers allocated so far, and a new buffer takes the next number. *)
Record buffer := { buf_dtype : dtype; buf_data : list elem }.

Local Abbreviation memory := (list buffer) (only parsing).

(** A C-contiguous 2-D numpy array that starts its buffer. *)
Record ndarray := { nd_base : nat; nd_rows : nat; nd_cols : nat }.

(** A 1-D window on a buffer: what [a[i]] gives on a 2-D array (a view,
    not a copy), and what a 1-D tensor is. *)
Record tensor := { storage : nat; t_offset : nat; t_len : nat }.

(** [a[idx]] for an integer [idx]. *)
Definition np_getitem (a : ndarray) (idx : Z) : option tensor :=
  k ← np_index (nd_rows a) idx;
  Some {| storage := nd_base a; t_offset := k * nd_cols a; t_len := nd_cols a |}.

(** [torch.from_numpy(v)]: the tensor shares the array's memory. *)
Definition from_numpy (v : tensor) : tensor := v.

Definition window (t : tensor) (l : list elem) : list elem :=
  take (t_len t) (drop (t_offset t) l).

(** The values a tensor (or view) shows. *)
Definition tensor_read (h : memory) (t : tensor) : option (list elem) :=
  b ← h !! storage t; Some (window t (buf_data b)).

(** [t.type(target)]: a tensor that already has the target type is
    returned as it is; otherwise the values are converted into a new
    buffer. *)
Definition tensor_type (h : memory) (t : tensor) (target : dtype)
    : option (tensor * memory) :=
  b ← h !! storage t;
  if decide (buf_dtype b = target) then Some (t, h)
  else Some ({| storage := length h; t_offset := 0; t_len := t_len t |},
             h ++ [{| buf_dtype := target;
                      buf_data := cast (buf_dtype b) target <$> window t (buf_data b) |}]).

(** [t[i] = v], in place. *)
Definition tensor_write (h : memory) (t : tensor) (i : nat) (v : elem) : memory :=
  if decide (i < t_len t) then
    alter (λ b, {| buf_dtype := buf_dtype b;
                   buf_data := <[t_offset t + i := v]> (buf_data b) |})
          (storage t) h
  else h.

(** [a[r, c] = v], in place. *)
Definition ndarray_write (h : memory) (a : ndarray) (r c : nat) (v : elem) : memory :=
  if decide (r < nd_rows a ∧ c < nd_cols a) then
    alter (λ b, {| buf_dtype := buf_dtype b;
                   buf_data := <[r * nd_cols a + c := v]> (buf_data b) |})
          (nd_base a) h
  else h.

(** What [.type(torch.FloatTensor)] makes of row values of type [d]. *)
Definition converted (d : dtype) (row : list elem) : list elem :=
  if decide (d = Float32) then row else cast d Float32 <$> row.

(** [AETrainingData]: [__init__] keeps the training array itself. *)
Record AETrainingData := { x : ndarray }.

(** [AETrainingData.__len__]. *)
Definition len (ds : AETrainingData) : nat := nd_rows (x ds).

(** [AETrainingData.__getitem__]: the pair (['input'], ['target']) and
    the memory after the conversions. *)
Definition getitem (h : memory) (ds : AETrainingData) (idx : Z)
    : option (tensor * tensor * memory) :=
  x0 ← np_getitem (x ds) idx;
  y0 ← np_getitem (x ds) idx;
  '(x1, h1) ← tensor_type h (from_numpy x0) Float32;
  '(y1, h2) ← tensor_type h1 (from_numpy y0) Float32;
  Some (x1, y1, h2).

End Memory.

Arguments buffer : clear implicits.

Abbreviation memory elem := (list (buffer elem)) (only parsing).

End Storage.

(* ===================================================================== *)
(** ** The torch layers the two networks are built from *)
(* ===================================================================== *)

Module Torch.

(** The exceptions the modelled code can raise. *)
Inductive exn :=
| TypeError | AttributeError | ValueError | IndexError | RuntimeError
| ZeroDivisionError | FileNotFoundError.

Abbreviation vector := (list R).
Abbreviation matrix := (list (list R)).

(** A batch has [n] rows of [f] columns. *)
Definition has_shape (n f : nat) (m : matrix) : bool :=
  (length m =? n) && forallb (λ r, length r =? f) m.

Inductive layer :=
| Linear (in_features : nat) (weight : matrix) (bias : vector)
| BatchNorm1d (weight bias running_mean running_var : vector)
              (num_batches_tracked : Z)
| ReLU
| Dropout (p : R)
| Sigmoid.

Definition sum_R (v : vector) : R := foldr Rplus 0%R v.

Definition dot (a b : vector) : R := sum_R (zip_with Rmult a b).

(** [F.linear] on one row: [row @ weight.T + bias]. *)
Definition linear_row (weight : matrix) (bias : vector) (row : vector) : vector :=
  zip_with Rplus (dot row <$> weight) bias.

Definition bn_eps : R := (1 / 100000)%R.
Definition bn_momentum : R := (1 / 10)%R.

Definition mean (v : vector) : R := (sum_R v / INR (length v))%R.

(** The biased variance, which normalises the batch. *)
Definition variance (v : vector) : R :=
  mean ((λ a, (a - mean v) * (a - mean v))%R <$> v).

Definition column (j : nat) (m : matrix) : vector := (λ r, nth j r 0%R) <$> m.

Definition batch_mean (c : nat) (m : matrix) : vector :=
  (λ j, mean (column j m)) <$> seq 0 c.

Definition batch_var (c : nat) (m : matrix) : vector :=
  (λ j, variance (column j m)) <$> seq 0 c.

(** [(row - mean) / sqrt(var + eps) * weight + bias], per feature. *)
Definition normalize_row (mu var weight bias row : vector) : vector :=
  zip_with Rplus
    (zip_with Rmult
       (zip_with (λ a mv, ((a - mv.1) / sqrt (mv.2 + bn_eps))%R) row (zip mu var))
       weight)
    bias.

(** The exponential moving average of a running statistic. *)
Definition running_update (old new : vector) : vector :=
  zip_with (λ o n, ((1 - bn_momentum) * o + bn_momentum * n)%R) old new.

Definition sigmoid (a : R) : R := (1 / (1 + exp (- a)))%R.

(** [nn.Dropout(p)] in training mode: kept entries are scaled by
    [1/(1-p)], dropped ones are zero. *)
Definition drop_row (p : R) (keep : nat -> bool) (row : vector) : vector :=
  imap (λ j a, if keep j then (a / (1 - p))%R else 0%R) row.

(** The forward pass of one layer on a batch.  [keep] is the dropout mask
    drawn for this call.  A batch-normalisation layer in training mode
    refuses a batch of one row, normalises with the batch statistics and
    updates its running statistics; in evaluate mode it uses the running
    statistics and changes nothing.  The result is the output (or the
    exception) and the layer after the call. *)
Definition forward_layer (training : bool) (keep : nat -> nat -> bool)
    (l : layer) (x : matrix) : (exn + matrix) * layer :=
  match l with
  | Linear in_features weight bias =>
      if forallb (λ r, length r =? in_features) x
      then (inr (linear_row weight bias <$> x), l)
      else (inl RuntimeError, l)
  | BatchNorm1d weight bias running_mean running_var nbt =>
      let c := length weight in
      if negb (forallb (λ r, length r =? c) x) then (inl RuntimeError, l)
      else if training then
        if length x =? 1 then (inl ValueError, l)
        else
          let mu := batch_mean c x in
          let var := batch_var c x in
          let n := INR (length x) in
          let unbiased := (λ v, (v * n / (n - 1))%R) <$> var in
          (inr (normalize_row mu var weight bias <$> x),
           BatchNorm1d weight bias
             (running_update running_mean mu)
             (running_update running_var unbiased)
             (nbt + 1)%Z)
      else (inr (normalize_row running_mean running_var weight bias <$> x), l)
  | ReLU => (inr ((λ row : vector, Rmax 0 <$> row) <$> x), l)
  | Dropout p =>
      if training then (inr (imap (λ i row, drop_row p (keep i) row) x), l)
      else (inr x, l)
  | Sigmoid => (inr ((λ row : vector, sigmoid <$> row) <$> x), l)
  end.

(** [nn.Sequential.forward]: the layers in order, each fed the output of
    the one before.  [masks k] is the dropout mask of the [k]-th layer.
    A raise stops the pass; the layers already run keep their updates. *)
Fixpoint sequential (training : bool) (masks : nat -> nat -> nat -> bool)
    (k : nat) (ls : list layer) (x : matrix) : (exn + matrix) * list layer :=
  match ls with
  | [] => (inr x, [])
  | l :: ls' =>
      let '(r, l') := forward_layer training (masks k) l x in
      match r with
      | inl e => (inl e, l' :: ls')
      | inr y =>
          let '(r', ls'') := sequential training masks (S k) ls' y in
          (r', l' :: ls'')
      end
  end.

(** A network: its [nn.Sequential] and its train/evaluate flag. *)
Record module := { layers : list layer; training : bool }.

(** [Decoder(Encoder(x))] on a batch, each network in its own mode and
    with its own dropout masks. *)
Definition reconstruct (enc dec : module) (masks_e masks_d : nat -> nat -> nat -> bool)
    (x : matrix) : exn + matrix :=
  match (sequential (training enc) masks_e 0 (layers enc) x).1 with
  | inl e => inl e
  | inr z => (sequential (training dec) masks_d 0 (layers dec) z).1
  end.

(** A fresh [nn.BatchNorm1d(c)]. *)
Definition batch_norm (c : nat) : layer :=
  BatchNorm1d (replicate c 1%R) (replicate c 0%R)
              (replicate c 0%R) (replicate c 1%R) 0.

Definition dropout_p : R := (2 / 10)%R.

(** The layers of [Encoder.__init__], given the initial weights of its two
    linear layers. *)
Definition encoder_layers (input_size intermediate_size encoding_size : nat)
    (is_enable_bath_norm : bool) (l1 l2 : matrix * vector) : list layer :=
  if is_enable_bath_norm then
    [ Linear input_size l1.1 l1.2; batch_norm intermediate_size; ReLU;
      Dropout dropout_p;
      Linear intermediate_size l2.1 l2.2; batch_norm encoding_size; ReLU;
      Dropout dropout_p ]
  else
    [ Linear input_size l1.1 l1.2; ReLU;
      Linear intermediate_size l2.1 l2.2; ReLU ].

(** The layers of [Decoder.__init__]. *)
Definition decoder_layers (output_size intermediate_size encoding_size : nat)
    (is_enable_bath_norm : bool) (l1 l2 : matrix * vector) : list layer :=
  if is_enable_bath_norm then
    [ Linear encoding_size l1.1 l1.2; batch_norm intermediate_size; ReLU;
      Dropout dropout_p;
      Linear intermediate_size l2.1 l2.2; batch_norm output_size; Sigmoid ]
  else
    [ Linear encoding_size l1.1 l1.2; ReLU;
      Linear intermediate_size l2.1 l2.2; Sigmoid ].

(** The shapes a layer's tensors have. *)
Definition linear_shape (i o : nat) (l : layer) : bool :=
  match l with
  | Linear in_features weight bias =>
      (in_features =? i) && has_shape o i weight && (length bias =? o)
  | _ => false
  end.

Definition batch_norm_shape (c : nat) (l : layer) : bool :=
  match l with
  | BatchNorm1d weight bias running_mean running_var _ =>
      (length weight =? c) && (length bias =? c)
      && (length running_mean =? c) && (length running_var =? c)
  | _ => false
  end.

Definition is_relu (l : layer) : bool := if l is ReLU then true else false.
Definition is_dropout (l : layer) : bool := if l is Dropout _ then true else false.
Definition is_sigmoid (l : layer) : bool := if l is Sigmoid then true else false.

(** [ls] has the topology [Encoder.__init__] builds for these sizes. *)
Definition encoder_shape (f h e : nat) (bn : bool) (ls : list layer) : bool :=
  match bn, ls with
  | true, [a; b; c; d; a'; b'; c'; d'] =>
      linear_shape f h a && batch_norm_shape h b && is_relu c && is_dropout d
      && linear_shape h e a' && batch_norm_shape e b' && is_relu c'
      && is_dropout d'
  | false, [a; c; a'; c'] =>
      linear_shape f h a && is_relu c && linear_shape h e a' && is_relu c'
  | _, _ => false
  end.

(** [ls] has the topology [Decoder.__init__] builds for these sizes. *)
Definition decoder_shape (f h e : nat) (bn : bool) (ls : list layer) : bool :=
  match bn, ls with
  | true, [a; b; c; d; a'; b'; c'] =>
      linear_shape e h a && batch_norm_shape h b && is_relu c && is_dropout d
      && linear_shape h f a' && batch_norm_shape f b' && is_sigmoid c'
  | false, [a; c; a'; c'] =>
      linear_shape e h a && is_relu c && linear_shape h f a' && is_sigmoid c'
  | _, _ => false
  end.

Definition is_batch_norm (l : layer) : bool :=
  if l is BatchNorm1d _ _ _ _ _ then true else false.

(** The width a layer gives to rows of width [i], when its tensors fit. *)
Definition layer_width (l : layer) (i : nat) : option nat :=
  match l with
  | Linear in_features weight bias =>
      if (in_features =? i) && has_shape (length bias) i weight
      then Some (length bias) else None
  | BatchNorm1d weight bias running_mean running_var _ =>
      if batch_norm_shape i l then Some i else None
  | _ => Some i
  end.

(** The width a Sequential gives to rows of width [i]. *)
Fixpoint chain_width (ls : list layer) (i : nat) : option nat :=
  match ls with
  | [] => Some i
  | l :: ls' => o ← layer_width l i; chain_width ls' o
  end.

(** Every entry of the batch lies strictly between 0 and 1. *)
Definition in_unit_interval (y : matrix) : Prop :=
  Forall (Forall (λ v, (0 < v < 1)%R)) y.

(** The result of [nn.MSELoss]: a number, or [nan] for an empty batch. *)
Inductive scalar := Num (r : R) | NaN.

Definition same_shape (a b : matrix) : bool :=
  (length a =? length b) && forallb (λ p, length p.1 =? length p.2) (zip a b).

Definition numel (m : matrix) : nat := sum_list (length <$> m).

Definition squared_error (a b : matrix) : R :=
  sum_R (zip_with (λ r t, sum_R (zip_with (λ p q, ((p - q) * (p - q))%R) r t)) a b).

(** [nn.MSELoss(reduction='mean')].  Inputs of different shapes raise:
    broadcasting is not modelled, the shapes agree wherever the trainer
    calls the criterion. *)
Definition mse_loss (input target : matrix) : exn + scalar :=
  if same_shape input target then
    if numel input =? 0 then inr NaN
    else inr (Num (squared_error input target / INR (numel input)))
  else inl RuntimeError.

(** *** Parameter maps: [state_dict] and [load_state_dict] *)

(** A saved tensor: a counter, a vector or a matrix. *)
Inductive tval := T0 (z : Z) | T1 (v : vector) | T2 (m : matrix).

Definition shape (t : tval) : list nat :=
  match t with
  | T0 _ => []
  | T1 v => [length v]
  | T2 m => [length m; length (hd [] m)]
  end.

Definition as_counter (t : tval) (d : Z) : Z := if t is T0 z then z else d.
Definition as_vector (t : tval) (d : vector) : vector := if t is T1 v then v else d.
Definition as_matrix (t : tval) (d : matrix) : matrix := if t is T2 m then m else d.

(** The key of a tensor: [<attribute>.<position in the Sequential>.<name>]. *)
Definition key (prefix : string) (i : nat) (name : string) : string :=
  prefix +:+ "." +:+ pretty i +:+ "." +:+ name.

(** The named tensors of a layer: parameters and buffers. *)
Definition layer_entries (l : layer) : list (string * tval) :=
  match l with
  | Linear _ weight bias => [("weight", T2 weight); ("bias", T1 bias)]
  | BatchNorm1d weight bias running_mean running_var nbt =>
      [("weight", T1 weight); ("bias", T1 bias);
       ("running_mean", T1 running_mean); ("running_var", T1 running_var);
       ("num_batches_tracked", T0 nbt)]
  | _ => []
  end.

Definition entries (prefix : string) (ls : list layer) : list (string * tval) :=
  mjoin (imap (λ i l, (λ e, (key prefix i e.1, e.2)) <$> layer_entries l) ls).

(** [module.state_dict()], for a module whose Sequential is the attribute
    [prefix]. *)
Definition state_dict (prefix : string) (ls : list layer) : gmap string tval :=
  list_to_map (entries prefix ls).

(** Loading one tensor without [strict]: a missing key keeps the current
    value, a value of another shape is an error and keeps it too. *)
Definition load_tensor (sd : gmap string tval) (k : string) (cur : tval)
    : tval * bool :=
  match sd !! k with
  | None => (cur, true)
  | Some v => if decide (shape v = shape cur) then (v, true) else (cur, false)
  end.

Definition load_layer (sd : gmap string tval) (prefix : string) (i : nat)
    (l : layer) : layer * bool :=
  match l with
  | Linear in_features weight bias =>
      let w := load_tensor sd (key prefix i "weight") (T2 weight) in
      let b := load_tensor sd (key prefix i "bias") (T1 bias) in
      (Linear in_features (as_matrix w.1 weight) (as_vector b.1 bias),
       w.2 && b.2)
  | BatchNorm1d weight bias running_mean running_var nbt =>
      let w := load_tensor sd (key prefix i "weight") (T1 weight) in
      let b := load_tensor sd (key prefix i "bias") (T1 bias) in
      let m := load_tensor sd (key prefix i "running_mean") (T1 running_mean) in
      let v := load_tensor sd (key prefix i "running_var") (T1 running_var) in
      let c := load_tensor sd (key prefix i "num_batches_tracked") (T0 nbt) in
      (BatchNorm1d (as_vector w.1 weight) (as_vector b.1 bias)
                   (as_vector m.1 running_mean) (as_vector v.1 running_var)
                   (as_counter c.1 nbt),
       w.2 && b.2 && m.2 && v.2 && c.2)
  | _ => (l, true)
  end.

(** [module.load_state_dict(sd, strict=False)]: the layers after the
    load, and whether every tensor found had the right shape (if not, the
    call raises after the tensors that fit were copied). *)
Definition load_state_dict (prefix : string) (ls : list layer)
    (sd : gmap string tval) : list layer * bool :=
  let loaded := imap (load_layer sd prefix) ls in
  (fst <$> loaded, forallb snd loaded).

(** Two layers of one architecture: the same kind of layer with tensors
    of the same shapes; the values of the tensors, and the counter of a
    normalisation layer, may differ. *)
Definition same_architecture (a b : layer) : Prop :=
  match a, b with
  | Linear i w v, Linear i' w' v' =>
      i = i' ∧ length <$> w = length <$> w' ∧ length v = length v'
  | BatchNorm1d w b m v _, BatchNorm1d w' b' m' v' _ =>
      length w = length w' ∧ length b = length b' ∧
      length m = length m' ∧ length v = length v'
  | ReLU, ReLU => True
  | Dropout p, Dropout p' => p = p'
  | Sigmoid, Sigmoid => True
  | _, _ => False
  end.

End Torch.

(* ===================================================================== *)
(** ** Trainer: the [AutoEncoder] class *)
(* ===================================================================== *)

Module Trainer.
Import Torch.

(** The two networks of the trainer. *)
Inductive net_id := Enc | Dec.

#[global] Instance net_id_eq_dec : EqDecision net_id.
Proof. solve_decision. Defined.

(** The graph autograd records behind a tensor: a data tensor, the output
    of a network call (with the network and the generator state the call
    started from), or the criterion applied to two tensors. *)
Inductive tape (T : Type) :=
| Leaf (values : matrix)
| Call (n : net_id) (m : module) (g : T) (input : tape T)
| Mse (a b : tape T).

Arguments Leaf {T} values.
Arguments Call {T} n m g input.
Arguments Mse {T} a b.

(** What torch supplies to the trainer: its generator (seeding, weight
    initialisation, dropout masks, the shuffling sampler), autograd and
    the Adam optimizer. *)
Record Backend := {
  trng : Type;
  manual_seed : Z -> trng;
  init_linear : trng -> nat -> nat -> (matrix * vector) * trng;
  dropout_masks : trng -> (nat -> nat -> nat -> bool) * trng;
  sampler : trng -> nat -> list nat * trng;
  grads : Type;
  zero_grads : grads;
  add_grads : grads -> grads -> grads;
  autograd : tape trng -> grads * grads;
  optim : Type;
  adam : R -> R -> optim;
  adam_step : optim -> list layer -> grads -> list layer * optim
}.

(** The calls into torch that a run makes, in order. *)
Inductive event :=
| ZeroGrad (n : net_id)
| Forward (n : net_id) (training : bool)
| Criterion
| Backward
| Step (n : net_id).

(** The lines [train_loop] prints. *)
Inductive line :=
| EpochLine (epoch epochs : Z)
| LossLine (loss val_loss : scalar).

Section WithBackend.

Variable B : Backend.

Record Tensor := { values : matrix; grad_fn : tape (trng B) }.

(** What the code passes around as "an array": a numpy array or a torch
    tensor. *)
Inductive array := NdArray (m : matrix) | TensorOf (t : Tensor).

(** A tensor made from data: [torch.from_numpy(a).type(torch.FloatTensor)]
    and the batches of the loader. *)
Definition from_numpy (m : matrix) : array :=
  TensorOf {| values := m; grad_fn := Leaf m |}.

(** The zero-dimensional tensor the criterion returns. *)
Record loss_tensor := { item : scalar; loss_fn : tape (trng B) }.

(** A network with the [.grad] of its parameters and the optimizer bound
    to them: [self.encoder] with [self.encoder_optimizer], and the same
    for the decoder. *)
Record network := { net : module; grad : grads B; optimizer : optim B }.

(** What lies outside the object: torch's global generator, the
    checkpoint directory and its files, and the two logs. *)
Record world := {
  torch_rng : trng B;
  checkpoint_dir : bool;
  files : gmap string (gmap string tval);
  calls : list event;
  stdout : list line
}.

(** An [AutoEncoder] object in its world. *)
Record state := {
  data : matrix;
  val_idxs : list Z;
  val : matrix;
  train : matrix;
  encoder : network;
  decoder : network;
  train_losses : list scalar;
  val_losses : list scalar;
  env : world
}.

(** *** A state-and-exception monad *)

Inductive result (A : Type) :=
| Ok (a : A) (s : state)
| Raise (e : exn) (s : state).

Arguments Ok {A} a s.
Arguments Raise {A} e s.

Definition M (A : Type) : Type := state -> result A.

Definition final {A} (r : result A) : state :=
  match r with Ok _ s => s | Raise _ s => s end.

Definition returned {A} (r : result A) : exn + A :=
  match r with Ok a _ => inr a | Raise e _ => inl e end.

#[global] Instance M_ret : MRet M := λ A a s, Ok a s.

#[global] Instance M_bind : MBind M := λ A A' k m s,
  match m s with
  | Ok a s' => k a s'
  | Raise e s' => Raise e s'
  end.

Definition raise {A} (e : exn) : M A := λ s, Raise e s.
Definition gets {A} (f : state -> A) : M A := λ s, Ok (f s) s.
Definition modify (f : state -> state) : M unit := λ s, Ok tt (f s).

(** [for a in l: body(a)]. *)
Fixpoint for_each {A} (l : list A) (body : A -> M unit) : M unit :=
  match l with
  | [] => mret tt
  | a :: l' => body a;; for_each l' body
  end.

(** [m] run from a state in [P] ends in [Q] when it returns and in [E]
    when it raises. *)
Definition hoare {A} (P : state -> Prop) (m : M A)
    (Q : A -> state -> Prop) (E : state -> Prop) : Prop :=
  ∀ s, P s -> match m s with Ok a s' => Q a s' | Raise _ s' => E s' end.

(** *** Field updates *)

Definition set_net (m : module) (w : network) : network :=
  {| net := m; grad := grad w; optimizer := optimizer w |}.

Definition set_grad (g : grads B) (w : network) : network :=
  {| net := net w; grad := g; optimizer := optimizer w |}.

Definition get_network (n : net_id) (s : state) : network :=
  match n with Enc => encoder s | Dec => decoder s end.

Definition set_network (n : net_id) (w : network) (s : state) : state :=
  {| data := data s; val_idxs := val_idxs s; val := val s; train := train s;
     encoder := if n is Enc then w else encoder s;
     decoder := if n is Dec then w else decoder s;
     train_losses := train_losses s; val_losses := val_losses s;
     env := env s |}.

Definition set_losses (tl vl : list scalar) (s : state) : state :=
  {| data := data s; val_idxs := val_idxs s; val := val s; train := train s;
     encoder := encoder s; decoder := decoder s;
     train_losses := tl; val_losses := vl; env := env s |}.

Definition set_env (e : world) (s : state) : state :=
  {| data := data s; val_idxs := val_idxs s; val := val s; train := train s;
     encoder := encoder s; decoder := decoder s;
     train_losses := train_losses s; val_losses := val_losses s; env := e |}.

Definition set_torch_rng (g : trng B) (e : world) : world :=
  {| torch_rng := g; checkpoint_dir := checkpoint_dir e; files := files e;
     calls := calls e; stdout := stdout e |}.

Definition set_files (f : gmap string (gmap string tval)) (e : world) : world :=
  {| torch_rng := torch_rng e; checkpoint_dir := checkpoint_dir e; files := f;
     calls := calls e; stdout := stdout e |}.

Definition log (ev : event) : M unit :=
  modify (λ s, set_env
    {| torch_rng := torch_rng (env s); checkpoint_dir := checkpoint_dir (env s);
       files := files (env s); calls := calls (env s) ++ [ev];
       stdout := stdout (env s) |} s).

Definition print (l : line) : M unit :=
  modify (λ s, set_env
    {| torch_rng := torch_rng (env s); checkpoint_dir := checkpoint_dir (env s);
       files := files (env s); calls := calls (env s);
       stdout := stdout (env s) ++ [l] |} s).

(** The two loss histories. *)
Definition losses (s : state) : list scalar * list scalar :=
  (train_losses s, val_losses s).

(** The two histories have the same length. *)
Definition balanced (s : state) : Prop :=
  length (train_losses s) = length (val_losses s).

(** [m] keeps [f] of the state, whether it returns or raises. *)
Definition keeps {A X} (f : state -> X) (m : M A) : Prop :=
  ∀ v, hoare (λ s, f s = v) m (λ _ s, f s = v) (λ s, f s = v).

(** The calls an evaluation may make: forward passes in evaluate mode and
    the criterion. *)
Definition eval_call (ev : event) : bool :=
  match ev with
  | Forward _ false | Criterion => true
  | _ => false
  end.

(** Two states hold the same networks and the same generator state. *)
Definition same_nets (s1 s2 : state) : Prop :=
  net (encoder s1) = net (encoder s2) ∧ net (decoder s1) = net (decoder s2) ∧
  torch_rng (env s1) = torch_rng (env s2).

(** Two runs end alike: same result, same networks. *)
Definition agree {A} (r1 r2 : result A) : Prop :=
  returned r1 = returned r2 ∧ same_nets (final r1) (final r2).

(** State [s] is state [s0] except for the mode flags, both off, and
    calls that evaluate. *)
Definition evaluated_from (s0 s : state) : Prop :=
  layers (net (encoder s)) = layers (net (encoder s0)) ∧
  layers (net (decoder s)) = layers (net (decoder s0)) ∧
  grad (encoder s) = grad (encoder s0) ∧
  grad (decoder s) = grad (decoder s0) ∧
  optimizer (encoder s) = optimizer (encoder s0) ∧
  optimizer (decoder s) = optimizer (decoder s0) ∧
  training (net (encoder s)) = false ∧
  training (net (decoder s)) = false ∧
  ∃ l, calls (env s) = calls (env s0) ++ l ∧ forallb eval_call l = true.

(** *** The calls into torch *)

(** [optimizer.zero_grad()] for the optimizer of network [n]. *)
Definition zero_grad (n : net_id) : M unit :=
  modify (λ s, set_network n (set_grad (zero_grads B) (get_network n s)) s);;
  log (ZeroGrad n).

(** The forward pass of a module on the values of a tensor, from the
    generator state [g].  A pass in training mode draws its dropout masks
    from the generator and leaves the running statistics updated; a pass
    in evaluate mode does not touch the generator. *)
Definition module_forward (m : module) (g : trng B) (x : matrix)
    : (exn + matrix) * module * trng B :=
  let '(masks, g') :=
    if training m then dropout_masks B g else (λ _ _ _, true, g) in
  let '(r, ls') := sequential (training m) masks 0 (layers m) x in
  (r, {| layers := ls'; training := training m |}, g').

(** [self.encoder(x)] / [self.decoder(x)]: the forward pass of network
    [n] in its current mode.  The layers take tensors only: a numpy array
    is refused by the first layer. *)
Definition call_module (n : net_id) (x : array) : M array := λ s,
  let w := get_network n s in
  match x with
  | NdArray _ =>
      match layers (net w) with
      | [] => Ok x s
      | BatchNorm1d _ _ _ _ _ :: _ => Raise AttributeError s
      | _ :: _ => Raise TypeError s
      end
  | TensorOf t =>
      let g := torch_rng (env s) in
      let r := module_forward (net w) g (values t) in
      let s1 := set_network n (set_net r.1.2 w)
                  (set_env (set_torch_rng r.2 (env s)) s) in
      match log (Forward n (training (net w))) s1 with
      | Ok _ s2 =>
          match r.1.1 with
          | inl e => Raise e s2
          | inr y =>
              Ok (TensorOf {| values := y;
                              grad_fn := Call n (net w) g (grad_fn t) |}) s2
          end
      | Raise e s2 => Raise e s2
      end
  end.

(** [self.criterion(a, b)]. *)
Definition criterion (a b : array) : M loss_tensor :=
  match a, b with
  | TensorOf ta, TensorOf tb =>
      log Criterion;;
      match mse_loss (values ta) (values tb) with
      | inl e => raise e
      | inr v => mret {| item := v; loss_fn := Mse (grad_fn ta) (grad_fn tb) |}
      end
  | _, _ => raise TypeError
  end.

(** [loss.backward()]: the gradients of the loss are added to the
    [.grad] of both networks' parameters. *)
Definition backward (l : loss_tensor) : M unit :=
  modify (λ s,
    let g := autograd B (loss_fn l) in
    set_network Dec (set_grad (add_grads B (grad (decoder s)) g.2) (decoder s))
      (set_network Enc (set_grad (add_grads B (grad (encoder s)) g.1) (encoder s)) s));;
  log Backward.

(** [optimizer.step()] for the optimizer of network [n]. *)
Definition optimizer_step (n : net_id) : M unit :=
  modify (λ s,
    let w := get_network n s in
    let r := adam_step B (optimizer w) (layers (net w)) (grad w) in
    set_network n
      {| net := {| layers := r.1; training := training (net w) |};
         grad := grad w; optimizer := r.2 |} s);;
  log (Step n).

(** The calls a complete [train_step] makes, for networks in modes [te]
    and [td]. *)
Definition train_step_calls (te td : bool) : list event :=
  [ZeroGrad Enc; ZeroGrad Dec; Forward Enc te; Forward Dec td;
   Criterion; Backward; Step Enc; Step Dec].

(** *** The methods of [AutoEncoder] *)

(** [AutoEncoder.train_step]. *)
Definition train_step (input_tensor target_tensor : array) : M scalar :=
  zero_grad Enc;;
  zero_grad Dec;;
  encoded_representation ← call_module Enc input_tensor;
  reconstruction ← call_module Dec encoded_representation;
  loss ← criterion reconstruction target_tensor;
  backward loss;;
  optimizer_step Enc;;
  optimizer_step Dec;;
  mret (item loss).

Definition set_training (b : bool) (w : network) : network :=
  set_net {| layers := layers (net w); training := b |} w.

(** [AutoEncoder.reset]. *)
Definition reset (train : bool) : M unit :=
  modify (λ s, set_network Dec (set_training train (decoder s))
                 (set_network Enc (set_training train (encoder s)) s)).

(** [AutoEncoder.get_val_loss]. *)
Definition get_val_loss (input_tensor target_tensor : array) : M scalar :=
  reset false;;
  encoded ← call_module Enc input_tensor;
  decoded ← call_module Dec encoded;
  loss ← criterion decoded target_tensor;
  mret (item loss).

(** [AETrainingData.__getitem__], by value: the row twice. *)
Definition sample (x_train : matrix) (idx : nat) : option (vector * vector) :=
  r ← x_train !! idx; Some (r, r).

(** The default collate of the loader: stack the inputs and the targets. *)
Definition collate (samples : list (vector * vector)) : array * array :=
  (from_numpy (fst <$> samples), from_numpy (snd <$> samples)).

Fixpoint chunks_upto {A} (fuel size : nat) (l : list A) : list (list A) :=
  match fuel with
  | 0 => []
  | S fuel' =>
      match l with
      | [] => []
      | _ => take size l :: chunks_upto fuel' size (drop size l)
      end
  end.

(** Consecutive chunks of [size] elements, the last one maybe shorter. *)
Definition chunks {A} (size : nat) (l : list A) : list (list A) :=
  chunks_upto (length l) size l.

Definition batch_size : nat := 64.

(** One pass over [self.dataloader] ([batch_size=64], [shuffle=True]): the
    sampler draws an order of the training rows, the loader cuts it into
    batches. *)
Definition dataloader_iter : M (list (array * array)) := λ s,
  let '(order, g') := sampler B (torch_rng (env s)) (length (train s)) in
  let s' := set_env (set_torch_rng g' (env s)) s in
  match mapM (λ c, collate <$> mapM (sample (train s)) c)
             (chunks batch_size order) with
  | Some bs => Ok bs s'
  | None => Raise IndexError s'
  end.

(** The report test of [train_loop]:
    [i % print_every_n_batches == 0 and i != 0]. *)
Definition report_due (i : nat) (print_every_n_batches : Z) : bool :=
  (Z.of_nat i mod print_every_n_batches =? 0)%Z && negb (i =? 0).

(** The body of the batch loop of [train_loop], for batch number [i]. *)
Definition batch_step (print_every_n_batches : Z) (i : nat)
    (batch : array * array) : M unit :=
  reset true;;
  loss ← train_step batch.1 batch.2;
  if (print_every_n_batches =? 0)%Z then raise ZeroDivisionError
  else if report_due i print_every_n_batches then
    v ← gets val;
    val_loss ← get_val_loss (from_numpy v) (from_numpy v);
    print (LossLine loss val_loss);;
    modify (λ s, set_losses (train_losses s ++ [loss]) (val_losses s) s);;
    modify (λ s, set_losses (train_losses s) (val_losses s ++ [val_loss]) s)
  else mret tt.

(** [AutoEncoder.train_loop]. *)
Definition train_loop (epochs : Z) (print_every_n_batches : Z) : M unit :=
  for_each (seq 0 (Z.to_nat epochs)) (λ epoch,
    print (EpochLine (Z.of_nat epoch + 1) epochs);;
    batches ← dataloader_iter;
    for_each (imap pair batches) (λ ib,
      batch_step print_every_n_batches ib.1 ib.2)).

(** [AutoEncoder.get_encoded_representations].  [to_encode] is built and
    not used: the encoder is applied to [self.data]. *)
Definition get_encoded_representations : M (array) :=
  d ← gets data;
  let to_encode := from_numpy d in
  reset false;;
  encodings ← call_module Enc (NdArray d);
  mret encodings.

Definition encoder_checkpoint : string := "checkpoint/encoder_checkpoint.pt".
Definition decoder_checkpoint : string := "checkpoint/decoder_checkpoint.pt".

(** The attribute that holds the Sequential in the class of network [n]:
    it prefixes the keys of its [state_dict]. *)
Definition attribute (n : net_id) : string :=
  match n with Enc => "encoder" | Dec => "decoder" end.

(** [torch.save(<network n>.state_dict(), path)]. *)
Definition save_network (n : net_id) (path : string) : M unit := λ s,
  if checkpoint_dir (env s) then
    Ok tt (set_env
      (set_files (<[path := state_dict (attribute n)
                              (layers (net (get_network n s)))]> (files (env s)))
                 (env s)) s)
  else Raise FileNotFoundError s.

(** [<network n>.load_state_dict(torch.load(path), strict=False)]. *)
Definition load_network (n : net_id) (path : string) : M unit := λ s,
  match files (env s) !! path with
  | None => Raise FileNotFoundError s
  | Some sd =>
      let w := get_network n s in
      let '(ls', ok) := load_state_dict (attribute n) (layers (net w)) sd in
      let s' := set_network n
                  (set_net {| layers := ls'; training := training (net w) |} w) s in
      if ok then Ok tt s' else Raise RuntimeError s'
  end.

(** [AutoEncoder.save_encoder]. *)
Definition save_encoder : M unit := save_network Enc encoder_checkpoint.

(** [AutoEncoder.save_decoder]. *)
Definition save_decoder : M unit := save_network Dec decoder_checkpoint.

(** [AutoEncoder.load_encoder]. *)
Definition load_encoder : M unit := load_network Enc encoder_checkpoint.

(** [AutoEncoder.load_decoder]: it loads the decoder's file into
    [self.encoder]. *)
Definition load_decoder : M unit := load_network Enc decoder_checkpoint.

(** [AutoEncoder.__init__], in world [w] and on numpy's generator state
    [g].  A matrix without rows is taken to have no columns. *)
Definition init (G : Splitter.Generator) (g : Splitter.rng G) (w : world)
    (data : matrix) (validation_perc : Q) (lr : R)
    (intermediate_size encoded_size : nat) (is_enable_bath_norm : bool)
    : option (state * Splitter.rng G) :=
  let t0 := manual_seed B 0 in
  '(val_idxs, val, train, g') ← Splitter.init_split G data validation_perc g;
  let size := length (hd [] data) in
  let '(e1, t1) := init_linear B t0 size intermediate_size in
  let '(e2, t2) := init_linear B t1 intermediate_size encoded_size in
  let '(d1, t3) := init_linear B t2 encoded_size intermediate_size in
  let '(d2, t4) := init_linear B t3 intermediate_size size in
  let fresh ls :=
    {| net := {| layers := ls; training := true |};
       grad := zero_grads B;
       optimizer := adam B lr (1 / 100000000)%R |} in
  Some ({| data := data; val_idxs := val_idxs; val := val; train := train;
           encoder := fresh (encoder_layers size intermediate_size encoded_size
                               is_enable_bath_norm e1 e2);
           decoder := fresh (decoder_layers size intermediate_size encoded_size
                               is_enable_bath_norm d1 d2);
           train_losses := []; val_losses := [];
           env := set_torch_rng t4 w |}, g').

End WithBackend.

Arguments Ok {B A} a s.
Arguments Raise {B A} e s.
Arguments NdArray {B} m.
Arguments TensorOf {B} t.

(** A backend to run the trainer on: a counter for a generator, zero
    initial weights, masks that keep everything, the rows in order, no
    gradient information and an optimizer that leaves the layers as they
    are. *)
Definition toy_backend : Backend :=
  {| trng := Z;
     manual_seed := λ seed, seed;
     init_linear := λ g i o, (replicate o (replicate i 0%R), replicate o 0%R, (g + 1)%Z);
     dropout_masks := λ g, (λ _ _ _, true, (g + 1)%Z);
     sampler := λ g n, (seq 0 n, (g + 1)%Z);
     grads := unit;
     zero_grads := tt;
     add_grads := λ _ _, tt;
     autograd := λ _, (tt, tt);
     optim := unit;
     adam := λ _ _, tt;
     adam_step := λ o ls _, (ls, o) |}.

(** A small object on that backend: 66 training rows of one column, one
    validation row, networks without normalisation. *)
Definition toy_network (ls : list layer) : network toy_backend :=
  Build_network toy_backend {| layers := ls; training := true |} tt tt.

Definition toy_state : state toy_backend :=
  {| data := replicate 67 [1%R];
     val_idxs := [0%Z];
     val := [[1%R]];
     train := replicate 66 [1%R];
     encoder := toy_network (encoder_layers 1 1 1 false ([[1%R]], [0%R]) ([[1%R]], [0%R]));
     decoder := toy_network (decoder_layers 1 1 1 false ([[1%R]], [0%R]) ([[1%R]], [0%R]));
     train_losses := [];
     val_losses := [];
     env := Build_world toy_backend 0%Z true ∅ [] [] |}.

(** A world with the checkpoint directory in place and no file in it. *)
Definition empty_world (B : Backend) : world B :=
  {| torch_rng := manual_seed B 0; checkpoint_dir := true; files := ∅;
     calls := []; stdout := [] |}.

(** The sampler of a shuffling loader draws every row once: its order is
    a permutation of [0 .. n-1]. *)
Definition shuffles (B : Backend) : Prop :=
  ∀ (g : trng B) (n : nat), (sampler B g n).1 ≡ₚ seq 0 n.

(** An optimizer step changes the values of the tensors, not the layers
    or the shapes. *)
Definition keeps_architecture (B : Backend) : Prop :=
  ∀ (o : optim B) (ls : list layer) (g : grads B),
    Forall2 same_architecture ls (adam_step B o ls g).1.

(** [nn.Linear(i, o)] is created with a weight of [o] rows of [i] entries
    and a bias of [o] entries. *)
Definition initialises_linear (B : Backend) : Prop :=
  ∀ (g : trng B) (i o : nat),
    has_shape o i (init_linear B g i o).1.1 = true ∧
    length (init_linear B g i o).1.2 = o.

End Trainer.

(* ===================================================================== *)
(** ** The text-embedding helper of [model/embedding.py] *)
(* ===================================================================== *)

Module Embedding.
Import Torch.

(** What [get_embedding] is given as a sentence: a string, or a list of
    strings. *)
Inductive pytext := Str (s : string) | StrList (l : list string).

(** What it returns: [None] or a numpy array. *)
Inductive pyvalue := PyNone | PyArray (m : matrix).

(** The text tools the helper calls: NLTK's stop words, lemmatizer and
    stemmer, scikit-learn's [TfidfVectorizer.fit_transform] and the
    pooled output of the pretrained BERT model. *)
Record TextTools := {
  stop_word : string -> bool;
  lemmatize : string -> string;
  stem : string -> string;
  tfidf_fit_transform : pytext -> exn + matrix;
  bert_pooled : string -> matrix
}.

(** The characters of [\w] (ASCII text). *)
Definition is_digit (c : ascii) : bool :=
  let n := nat_of_ascii c in (48 <=? n) && (n <=? 57).

Definition is_upper (c : ascii) : bool :=
  let n := nat_of_ascii c in (65 <=? n) && (n <=? 90).

Definition is_word_char (c : ascii) : bool :=
  let n := nat_of_ascii c in
  is_digit c || is_upper c || ((97 <=? n) && (n <=? 122)) || (n =? 95).

(** [str.lower]. *)
Definition lower_char (c : ascii) : ascii :=
  if is_upper c then ascii_of_nat (nat_of_ascii c + 32) else c.

Fixpoint lower (s : string) : string :=
  match s with
  | EmptyString => EmptyString
  | String c s' => String (lower_char c) (lower s')
  end.

(** [str.replace(old, new)] for a non-empty [old]; [skip] characters of a
    match are still to be dropped. *)
Fixpoint replace_from (skip : nat) (old new s : string) : string :=
  match s with
  | EmptyString => EmptyString
  | String c s' =>
      match skip with
      | S k => replace_from k old new s'
      | 0 =>
          if String.prefix old s
          then new +:+ replace_from (String.length old - 1) old new s'
          else String c (replace_from 0 old new s')
      end
  end.

Definition replace (old new s : string) : string := replace_from 0 old new s.

(** [RegexpTokenizer(r'\w+').tokenize]: the maximal runs of word
    characters; [cur] is the run being read, reversed. *)
Fixpoint tokenize_from (cur : list ascii) (s : string) : list string :=
  let flush := if cur is [] then [] else [string_of_list_ascii (rev cur)] in
  match s with
  | EmptyString => flush
  | String c s' =>
      if is_word_char c then tokenize_from (c :: cur) s'
      else flush ++ tokenize_from [] s'
  end.

Definition tokenize (s : string) : list string := tokenize_from [] s.

(** [len(token) == 5 and re.match(r'([1-3][0-9]{3}[s]{1})', token)]: a
    decade such as [1990s]. *)
Definition is_decade (token : string) : bool :=
  match list_ascii_of_string token with
  | [a; b; c; d; e] =>
      ((49 <=? nat_of_ascii a) && (nat_of_ascii a <=? 51))
      && is_digit b && is_digit c && is_digit d && (nat_of_ascii e =? 115)
  | _ => false
  end.

(** [list(dictionary.keys()).index(k)]. *)
Definition index_of (keys : list string) (k : string) : option nat :=
  fst <$> list_find (λ k', k' = k) keys.

Section WithTools.

Variable T : TextTools.

(** The dictionary key a token is looked up under. *)
Definition token_key (token : string) : string :=
  if is_decade token then token
  else stem T (lemmatize T (lower token)).

(** The inner loop of [get_bow_embedding]: mark the row of each token. *)
Fixpoint mark_tokens (keys : list string) (m : matrix) (tokens : list string)
    : exn + matrix :=
  match tokens with
  | [] => inr m
  | token :: rest =>
      match index_of keys (token_key token) with
      | None => inl ValueError
      | Some k => mark_tokens keys (<[k := [1%R]]> m) rest
      end
  end.

(** The outer loop of [get_bow_embedding], over the words of the
    sentence. *)
Fixpoint mark_words (keys : list string) (m : matrix) (words : list string)
    : exn + matrix :=
  match words with
  | [] => inr m
  | word :: rest =>
      let tokens := tokenize (replace "sci-fi" "scifi" (lower word)) in
      let filtered_token := filter (λ w, stop_word T w = false) tokens in
      match mark_tokens keys m filtered_token with
      | inl e => inl e
      | inr m' => mark_words keys m' rest
      end
  end.

(** [for word in sentence]: a string is read character by character. *)
Definition words_of (sentence : pytext) : list string :=
  match sentence with
  | Str s => (λ c, String c EmptyString) <$> list_ascii_of_string s
  | StrList l => l
  end.

(** The transpose of an [n x 1] matrix. *)
Definition transpose_column (m : matrix) : matrix := [(λ r, hd 0%R r) <$> m].

(** A bag-of-words column of [n] rows: each row holds one entry, 0 or 1. *)
Definition indicator_column (n : nat) (m : matrix) : Prop :=
  length m = n ∧ Forall (λ r, r = [0%R] ∨ r = [1%R]) m.

(** [get_bow_embedding(sentence, dictionary)]; the dictionary is the list
    of its items, in insertion order. *)
Definition get_bow_embedding (sentence : pytext)
    (dictionary : list (string * nat)) : exn + pyvalue :=
  let item_infomation_matrix := replicate (length dictionary) [0%R] in
  match mark_words (fst <$> dictionary) item_infomation_matrix
                   (words_of sentence) with
  | inl e => inl e
  | inr m => inr (PyArray (transpose_column m))
  end.

(** [get_tf_idf_embedding(sentence)]: the matrix is computed and the
    function ends without a [return]. *)
Definition get_tf_idf_embedding (sentence : pytext) : exn + pyvalue :=
  match tfidf_fit_transform T sentence with
  | inl e => inl e
  | inr tfidf_matrix => inr PyNone
  end.

(** [get_bert_embedding(sentence)]. *)
Definition get_bert_embedding (sentence : pytext) : exn + pyvalue :=
  match sentence with
  | Str s => inr (PyArray (bert_pooled T s))
  | StrList _ => inl TypeError
  end.

(** [embedding_helper]: the object and its [get_embedding]. *)
Record embedding_helper := {
  sentence : pytext;
  model : string;
  dictionary : list (string * nat)
}.

Definition get_embedding (self : embedding_helper) : exn + pyvalue :=
  if decide (model self = "bert") then get_bert_embedding (sentence self)
  else if decide (model self = "bow")
       then get_bow_embedding (sentence self) (dictionary self)
  else if decide (model self = "tf-idf")
       then get_tf_idf_embedding (sentence self)
  else inr PyNone.

End WithTools.

(** Tools to run the helper on: no stop words, identity stemming, a
    one-column tf-idf matrix and a zero BERT vector. *)
Definition plain_tools : TextTools :=
  {| stop_word := λ w, bool_decide (w = "the");
     lemmatize := λ w, w;
     stem := λ w, w;
     tfidf_fit_transform := λ s,
       match s with Str _ => inl ValueError | StrList l => inr ((λ _, [1%R]) <$> l) end;
     bert_pooled := λ _, [replicate 768 0%R] |}.

(** The tokens of one word of the sentence that [get_bow_embedding] looks
    up: the tokens of the lowered text, without the stop words. *)
Definition word_tokens (T : TextTools) (word : string) : list string :=
  filter (λ w, stop_word T w = false)
         (tokenize (replace "sci-fi" "scifi" (lower word))).

(** The dictionary keys [get_bow_embedding] looks up for a sentence, in
    the order of the loop. *)
Definition looked_up (T : TextTools) (sentence : pytext) : list string :=
  token_key T <$> (words_of sentence ≫= word_tokens T).

(** [EmbeddingUtil.py]: [getBertEmbedding(sentence)], the same steps as
    [get_bert_embedding] of [model/embedding.py]. *)
Definition getBertEmbedding (T : TextTools) (sentence : pytext) : exn + pyvalue :=
  match sentence with
  | Str s => inr (PyArray (bert_pooled T s))
  | StrList _ => inl TypeError
  end.

(** [EmbeddingUtil]: the object and its [getEmbedding]. *)
Record EmbeddingUtil := { util_sentence : pytext; util_model : string }.

Definition getEmbedding (T : TextTools) (self : EmbeddingUtil) : exn + pyvalue :=
  if decide (util_model self = "bert") then getBertEmbedding T (util_sentence self)
  else inr PyNone.

End Embedding.

(* ===================================================================== *)
(** * Facts about the splitter *)
(* ===================================================================== *)

Module SplitterFacts.
Import Numpy Splitter.

Lemma slice_prefix {A} (l : list A) (k : Z) :
  (0 <= k <= Z.of_nat (length l))%Z -> py_slice l 0 (0 + k) = take (Z.to_nat k) l.
Proof.
  intros Hk. unfold py_slice, slice_bound. rewrite Z.add_0_l.
  destruct (Z.ltb_spec k 0); [lia|]. destruct (Z.ltb_spec 0 0); [lia|].
  rewrite !Z.min_l by lia. change (Z.to_nat 0) with 0.
  by rewrite Nat.sub_0_r, drop_0.
Qed.

(** Positions kept by a mask. *)
Lemma elem_of_true_positions (mask : list bool) (k i : nat) :
  i ∈ true_positions k mask ↔ k ≤ i ∧ mask !! (i - k) = Some true.
Proof.
  revert k. induction mask as [|b mask IH]; intros k; simpl.
  - split; [by intros ?%elem_of_nil | by intros [_ ?]].
  - destruct b.
    + rewrite elem_of_cons, IH. split.
      * intros [->|[Hk Hm]].
        -- split; [lia|]. by rewrite Nat.sub_diag.
        -- split; [lia|]. replace (i - k) with (S (i - S k)) by lia. done.
      * intros [Hk Hm]. destruct (decide (i = k)) as [->|Hne]; [by left|right].
        split; [lia|]. replace (i - k) with (S (i - S k)) in Hm by lia. done.
    + rewrite IH. split.
      * intros [Hk Hm]. split; [lia|]. replace (i - k) with (S (i - S k)) by lia. done.
      * intros [Hk Hm]. destruct (decide (i = k)) as [->|Hne].
        { rewrite Nat.sub_diag in Hm. done. }
        split; [lia|]. replace (i - k) with (S (i - S k)) in Hm by lia. done.
Qed.

Lemma NoDup_true_positions (mask : list bool) (k : nat) :
  NoDup (true_positions k mask).
Proof.
  revert k. induction mask as [|b mask IH]; intros k; simpl; [constructor|].
  destruct b; [|apply IH].
  constructor; [|apply IH].
  rewrite elem_of_true_positions. lia.
Qed.

(** Boolean indexing reads the rows at the kept positions. *)
Lemma select_take_rows {A} (pre o : list A) (mask : list bool) :
  length o = length mask ->
  select mask o = take_rows (pre ++ o) (true_positions (length pre) mask).
Proof.
  revert pre o. induction mask as [|b mask IH]; intros pre [|x o] Hl; try done.
  simpl in *. 
  assert (E : pre ++ x :: o = (pre ++ [x]) ++ o) by (by rewrite <- app_assoc).
  assert (IH' := IH (pre ++ [x]) o ltac:(lia)).
  rewrite length_app in IH'. simpl in IH'. rewrite Nat.add_1_r in IH'.
  destruct b; simpl.
  - unfold take_rows at 1. simpl. rewrite lookup_app_r by lia. rewrite Nat.sub_diag. simpl.
    f_equal. rewrite IH'. unfold take_rows. by rewrite E.
  - rewrite IH'. unfold take_rows. by rewrite E.
Qed.

Lemma length_select {A} (o : list A) (mask : list bool) (k : nat) :
  length o = length mask ->
  length (select mask o) = length (true_positions k mask).
Proof.
  revert o k. induction mask as [|b mask IH]; intros [|x o] k Hl; try done.
  simpl in *. destruct b; simpl; rewrite (IH o (S k)); auto.
Qed.

Lemma length_select_invert {A} (o : list A) (mask : list bool) :
  length o = length mask ->
  length (select mask o) + length (select (invert mask) o) = length o.
Proof.
  revert o. induction mask as [|b mask IH]; intros [|x o] Hl; try done.
  simpl in *. specialize (IH o ltac:(lia)). unfold invert in *.
  destruct b; simpl; lia.
Qed.
Lemma np_index_in_range (len : nat) (i : Z) :
  (0 <= i < Z.of_nat len)%Z -> np_index len i = Some (Z.to_nat i).
Proof.
  intros H. unfold np_index.
  destruct (Z.leb_spec 0 i), (Z.ltb_spec i (Z.of_nat len)); simpl; try lia. done.
Qed.

Lemma mask_set_in_range (idxs : list Z) (mask : list bool) :
  (∀ i, i ∈ idxs → (0 <= i < Z.of_nat (length mask))%Z) →
  ∃ mask', mask_set mask idxs = Some mask' ∧ length mask' = length mask ∧
    ∀ j, mask' !! j = Some true ↔
         (mask !! j = Some true ∨ (j < length mask ∧ Z.of_nat j ∈ idxs)).
Proof.
  revert mask. induction idxs as [|i idxs IH]; intros mask Hr; simpl.
  - exists mask. split; [done|]. split; [done|]. intros j. split; [auto|].
    intros [?|[_ ?%elem_of_nil]]; done.
  - assert (Hi := Hr i ltac:(left)).
    rewrite np_index_in_range by done.
    destruct (IH (<[Z.to_nat i := true]> mask)) as (mask' & E & Hl & Hm).
    { intros i' Hi'. rewrite length_insert. apply Hr. by right. }
    rewrite length_insert in Hl.
    exists mask'. split; [done|]. split; [done|].
    intros j. rewrite Hm, length_insert. rewrite elem_of_cons.
    destruct (decide (j = Z.to_nat i)) as [->|Hne].
    + rewrite list_lookup_insert_eq by lia. split; [|auto].
      intros _. right. split; [lia|]. left. lia.
    + rewrite list_lookup_insert_ne by done. split.
      * intros [?|[? ?]]; auto.
      * intros [?|[? [?|?]]]; auto. lia.
Qed.

Lemma py_int_floor (q : Q) : (0 <= q)%Q -> py_int q = Qfloor q.
Proof.
  intros H. unfold py_int.
  destruct (Qle_bool 0 q) eqn:E; [done|].
  apply Qle_bool_iff in H. congruence.
Qed.

Lemma n_val_bounds (val_pct : Q) (n : nat) :
  (0 <= val_pct)%Q -> (val_pct < 1)%Q ->
  (0 <= val_pct * inject_Z (Z.of_nat n))%Q ∧
  (0 <= Qfloor (val_pct * inject_Z (Z.of_nat n)) <= Z.of_nat n)%Z.
Proof.
  intros H0 H1.
  assert (Hn : (0 <= inject_Z (Z.of_nat n))%Q).
  { rewrite <- (Zle_Qle 0). lia. }
  assert (Hp : (0 <= val_pct * inject_Z (Z.of_nat n))%Q).
  { apply Qmult_le_0_compat; assumption. }
  split; [done|]. split.
  - rewrite <- (Qfloor_Z 0). by apply Qfloor_resp_le.
  - rewrite <- (Qfloor_Z (Z.of_nat n)) at 2. apply Qfloor_resp_le.
    rewrite <- (Qmult_1_l (inject_Z (Z.of_nat n))) at 2.
    apply Qmult_le_compat_r; [by apply Qlt_le_weak | done].
Qed.


(** The rotation generator returns permutations. *)
Lemma lcg_permutes : permutes lcg.
Proof.
  intros g n. simpl. apply fmap_Permutation.
  rewrite Permutation_app_comm. by rewrite take_drop.
Qed.


(** C8: the split depends on the row count, the fraction and the seed
    only, not on the state numpy's generator was in: two runs with the
    same arguments give the same validation indices, the same validation
    and training sets, and leave the generator in the same state. *)
Theorem split_is_deterministic (G : Generator) {A} (data : list A)
    (cv_idx : Z) (val_pct : Q) (seed : Z) (g1 g2 : rng G) :
  get_cv_idxs G (length data) cv_idx val_pct seed g1 =
    get_cv_idxs G (length data) cv_idx val_pct seed g2 ∧
  split G data cv_idx val_pct seed g1 = split G data cv_idx val_pct seed g2.
Proof.
  assert (E : get_cv_idxs G (length data) cv_idx val_pct seed g1 =
              get_cv_idxs G (length data) cv_idx val_pct seed g2).
  { unfold get_cv_idxs. by destruct (valid_seed seed). }
  split; [exact E|]. unfold split. by rewrite E.
Qed.

(** The scenario of the specification: 100 rows, fraction 0.2, seed 0. *)
Example split_100_rows :
  ∃ idxs val train g',
    split lcg (seq 0 100) 0 (2 # 10) 0 7%Z = Some (idxs, [(val, train)], g') ∧
    length idxs = 20 ∧ length val = 20 ∧ length train = 80.
Proof. eexists _, _, _, _. split; [vm_compute; reflexivity|]. by vm_compute. Qed.

End SplitterFacts.

(* ===================================================================== *)
(** * Facts about the sample source *)
(* ===================================================================== *)

Module StorageFacts.
Import Numpy Storage.

Section Memory.

Context {elem : Type}.
Variable cast : dtype -> dtype -> elem -> elem.

(** A write through one tensor is not seen through a tensor on another
    buffer. *)
Lemma read_write_other (h : memory elem) (t t' : tensor) (i : nat) (v : elem) :
  storage t ≠ storage t' ->
  tensor_read (tensor_write h t i v) t' = tensor_read h t'.
Proof.
  intros Hne. unfold tensor_read, tensor_write.
  case_decide; [|done]. by rewrite list_lookup_alter_ne.
Qed.

Lemma read_ndarray_write_other (h : memory elem) (a : ndarray) (t : tensor)
    (r c : nat) (v : elem) :
  nd_base a ≠ storage t ->
  tensor_read (ndarray_write h a r c v) t = tensor_read h t.
Proof.
  intros Hne. unfold tensor_read, ndarray_write.
  case_decide; [|done]. by rewrite list_lookup_alter_ne.
Qed.

(** C5, as the code has it: for an index in [0, size()) the input and the
    target show equal values, the training row after the conversion to
    32-bit floats.  When the training matrix does not already hold 32-bit
    floats they are two fresh copies: a write through one of them, or
    into the training matrix, is seen by neither of the others. *)
Theorem getitem_copies (h : memory elem) (ds : AETrainingData) (idx : Z)
    (b : buffer elem) :
  h !! nd_base (x ds) = Some b ->
  (0 <= idx < Z.of_nat (len ds))%Z ->
  ∃ (input target row : tensor) (h' : memory elem) (values : list elem),
    getitem cast h ds idx = Some (input, target, h') ∧
    np_getitem (x ds) idx = Some row ∧
    tensor_read h row = Some values ∧
    tensor_read h' row = Some values ∧
    tensor_read h' input = Some (converted cast (buf_dtype b) values) ∧
    tensor_read h' target = Some (converted cast (buf_dtype b) values) ∧
    (buf_dtype b ≠ Float32 ->
     (∀ i v,
        tensor_read (tensor_write h' input i v) target = tensor_read h' target ∧
        tensor_read (tensor_write h' input i v) row = tensor_read h' row ∧
        tensor_read (tensor_write h' target i v) input = tensor_read h' input ∧
        tensor_read (tensor_write h' target i v) row = tensor_read h' row) ∧
     (∀ r c v,
        tensor_read (ndarray_write h' (x ds) r c v) input = tensor_read h' input ∧
        tensor_read (ndarray_write h' (x ds) r c v) target = tensor_read h' target)).
Proof.
  intros Hb Hidx. unfold len in Hidx.
  assert (Hlt := lookup_lt_Some _ _ _ Hb).
  unfold getitem, np_getitem. rewrite SplitterFacts.np_index_in_range by done. simpl.
  set (row := {| storage := nd_base (x ds);
                 t_offset := Z.to_nat idx * nd_cols (x ds);
                 t_len := nd_cols (x ds) |}).
  unfold tensor_type, from_numpy. simpl. rewrite Hb. simpl.
  destruct (decide (buf_dtype b = Float32)) as [E|E].
  - simpl. rewrite Hb. simpl. rewrite decide_True by done. simpl.
    exists row, row, row, h, (window row (buf_data b)).
    unfold converted. rewrite decide_True by done.
    unfold tensor_read. simpl. rewrite Hb. simpl.
    repeat split; try done.
  - simpl. rewrite lookup_app_l by done. rewrite Hb. simpl.
    rewrite decide_False by done. simpl.
    set (copy := {| buf_dtype := Float32;
                    buf_data := cast (buf_dtype b) Float32 <$> window row (buf_data b) |}).
    set (input := {| storage := length h; t_offset := 0; t_len := nd_cols (x ds) |}).
    set (target := {| storage := length (h ++ [copy]); t_offset := 0;
                      t_len := nd_cols (x ds) |}).
    exists input, target, row, ((h ++ [copy]) ++ [copy]), (window row (buf_data b)).
    assert (Hwl : length (window row (buf_data b)) ≤ nd_cols (x ds)).
    { unfold window. rewrite length_take. simpl. lia. }
    assert (Hcopy : window input (buf_data copy) = cast (buf_dtype b) Float32 <$> window row (buf_data b)).
    { unfold window at 1. simpl. rewrite drop_0. apply take_ge. rewrite length_fmap. done. }
    unfold converted. rewrite decide_False by done.
    split; [done|]. split; [done|].
    split; [unfold tensor_read; simpl; by rewrite Hb|].
    split.
    { unfold tensor_read. simpl. rewrite !lookup_app_l by (rewrite ?length_app; simpl; lia).
      by rewrite Hb. }
    split.
    { unfold tensor_read. simpl. rewrite lookup_app_l by (rewrite length_app; simpl; lia).
      rewrite lookup_app_r by done. rewrite Nat.sub_diag.
      exact (f_equal Some Hcopy). }
    split.
    { unfold tensor_read. simpl. rewrite lookup_app_r by done. rewrite Nat.sub_diag.
      exact (f_equal Some Hcopy). }
    intros _. split.
    + intros i v.
      repeat split; apply read_write_other; simpl; rewrite ?length_app; simpl; lia.
    + intros r c v. split; apply read_ndarray_write_other; simpl;
        rewrite ?length_app; simpl; lia.
Qed.

End Memory.

(** On a matrix of 32-bit floats the conversion copies nothing: input and
    target are the training row itself, and a write through the input
    shows in the target. *)
Lemma getitem_float32_shares_memory :
  let h := [{| buf_dtype := Float32; buf_data := [1; 2; 3; 4]%Z |}] in
  let ds := {| x := {| nd_base := 0; nd_rows := 2; nd_cols := 2 |} |} in
  ∃ input target h',
    getitem (λ _ _ v, v) h ds 1 = Some (input, target, h') ∧
    tensor_read h' target = Some [3; 4]%Z ∧
    tensor_read (tensor_write h' input 0 9%Z) target = Some [9; 4]%Z.
Proof. eexists _, _, _. split; [reflexivity|]. split; reflexivity. Qed.

Lemma getitem_copies_witness :
  let h := [{| buf_dtype := Float64; buf_data := [1; 2; 3; 4]%Z |}] in
  let ds := {| x := {| nd_base := 0; nd_rows := 2; nd_cols := 2 |} |} in
  ∃ input target h',
    getitem (λ _ _ v, v) h ds 1 = Some (input, target, h') ∧
    tensor_read h' input = Some [3; 4]%Z ∧
    tensor_read h' target = Some [3; 4]%Z ∧
    tensor_read (tensor_write h' input 0 9%Z) target = Some [3; 4]%Z.
Proof.
  cbv zeta.
  destruct (getitem_copies (λ _ _ v, v)
              [{| buf_dtype := Float64; buf_data := [1; 2; 3; 4]%Z |}]
              {| x := {| nd_base := 0; nd_rows := 2; nd_cols := 2 |} |} 1
              {| buf_dtype := Float64; buf_data := [1; 2; 3; 4]%Z |}
              eq_refl ltac:(unfold len; simpl; lia))
    as (input & target & row & h' & values & E & Er & Hv & _ & Hi & Ht & Hind).
  injection Er as <-. injection Hv as <-.
  exists input, target, h'. split; [exact E|]. split; [exact Hi|]. split; [exact Ht|].
  destruct (Hind ltac:(discriminate)) as [Hw _].
  destruct (Hw 0 9%Z) as [Hw1 _]. rewrite Hw1. exact Ht.
Defined.

End StorageFacts.

(* ===================================================================== *)
(** * Facts about the networks *)
(* ===================================================================== *)

Module TorchFacts.
Import Torch.

Lemma has_shape_spec (n f : nat) (m : matrix) :
  has_shape n f m = true ↔ length m = n ∧ Forall (λ r, length r = f) m.
Proof.
  unfold has_shape. rewrite andb_true_iff, Nat.eqb_eq, forallb_forall, Forall_forall.
  split; intros [H1 H2]; (split; [done|]); intros r Hr.
  - apply Nat.eqb_eq, H2. by apply list_elem_of_In.
  - apply Nat.eqb_eq, H2. by apply list_elem_of_In.
Qed.

Lemma rows_checked (f : nat) (m : matrix) :
  Forall (λ r, length r = f) m -> forallb (λ r, length r =? f) m = true.
Proof.
  intros H. apply forallb_forall. intros r Hr. apply Nat.eqb_eq.
  rewrite Forall_forall in H. by apply H, list_elem_of_In.
Qed.

(** A row-wise map that gives rows of length [o] gives a batch of [n]
    such rows. *)
Lemma has_shape_fmap (n f o : nat) (g : vector -> vector) (m : matrix) :
  has_shape n f m = true ->
  (∀ r, length r = f -> length (g r) = o) ->
  has_shape n o (g <$> m) = true.
Proof.
  rewrite !has_shape_spec. intros [Hn Hf] Hg. split; [by rewrite length_fmap|].
  apply Forall_fmap. eapply Forall_impl; [exact Hf|]. intros r Hr. by apply Hg.
Qed.

Lemma length_linear_row (i o : nat) (weight : matrix) (bias row : vector) :
  length weight = o -> length bias = o -> length (linear_row weight bias row) = o.
Proof.
  intros Hw Hb. unfold linear_row.
  rewrite length_zip_with, length_fmap. lia.
Qed.

Lemma length_normalize_row (c : nat) (mu var weight bias row : vector) :
  length mu = c -> length var = c -> length weight = c -> length bias = c ->
  length row = c -> length (normalize_row mu var weight bias row) = c.
Proof.
  intros. unfold normalize_row.
  rewrite !length_zip_with. lia.
Qed.

Lemma length_drop_row (p : R) (keep : nat -> bool) (row : vector) :
  length (drop_row p keep row) = length row.
Proof. unfold drop_row. by rewrite length_imap. Qed.

Lemma sigmoid_range (a : R) : (0 < sigmoid a < 1)%R.
Proof.
  unfold sigmoid. assert (He := exp_pos (- a)).
  split.
  - apply Rdiv_lt_0_compat; lra.
  - apply (Rmult_lt_reg_r (1 + exp (- a))); [lra|].
    unfold Rdiv. rewrite Rmult_assoc, Rinv_l by lra. lra.
Qed.

Lemma forward_layer_shape (tr : bool) (keep : nat -> nat -> bool) (l : layer)
    (n i o : nat) (x : matrix) :
  layer_width l i = Some o -> has_shape n i x = true ->
  tr = false ∨ n ≠ 1 ∨ is_batch_norm l = false ->
  ∃ y l', forward_layer tr keep l x = (inr y, l') ∧ has_shape n o y = true ∧
          layer_width l' i = Some o ∧ is_batch_norm l' = is_batch_norm l ∧
          (is_sigmoid l = true -> in_unit_interval y).
Proof.
  intros Hw Hx Hg. assert (Hx' := Hx). apply has_shape_spec in Hx' as [Hn Hrows].
  destruct l as [inf w b|w b m v nbt| |p|]; simpl in Hw.
  - destruct (inf =? i) eqn:Ei; [|done]. apply Nat.eqb_eq in Ei. subst inf.
    destruct (has_shape (length b) i w) eqn:Es; [|done]. simpl in Hw.
    injection Hw as <-. simpl. rewrite rows_checked by done.
    eexists _, _. split; [done|]. split.
    + apply (has_shape_fmap n i); [done|]. intros r _.
      apply has_shape_spec in Es as [Es _]. by apply (length_linear_row i).
    + simpl. rewrite Nat.eqb_refl, Es. done.
  - destruct (length w =? i) eqn:E1; [|done].
    destruct (length b =? i) eqn:E2; [|done].
    destruct (length m =? i) eqn:E3; [|done].
    destruct (length v =? i) eqn:E4; [|done]. simpl in Hw. injection Hw as <-.
    apply Nat.eqb_eq in E1, E2, E3, E4.
    simpl. rewrite E1. rewrite rows_checked by done. simpl.
    destruct tr.
    + destruct (length x =? 1) eqn:E5.
      { apply Nat.eqb_eq in E5. destruct Hg as [?|[?|?]]; [done|lia|done]. }
      eexists _, _. split; [done|]. split.
      * apply (has_shape_fmap n i); [done|]. intros r Hr.
        apply length_normalize_row; try done.
        -- unfold batch_mean. by rewrite length_fmap, length_seq.
        -- unfold batch_var. by rewrite length_fmap, length_seq.
      * simpl. unfold running_update, batch_mean, batch_var.
        rewrite !length_zip_with, !length_fmap, length_seq, E1, E2, E3, E4.
        rewrite Nat.min_id, Nat.eqb_refl. done.
    + eexists _, _. split; [done|]. split.
      * apply (has_shape_fmap n i); [done|]. intros r Hr.
        by apply length_normalize_row.
      * simpl. rewrite E1, E2, E3, E4, Nat.eqb_refl. done.
  - injection Hw as <-. simpl. eexists _, _. split; [done|]. split; [|done].
    apply (has_shape_fmap n i); [done|]. intros r Hr. by rewrite length_fmap.
  - injection Hw as <-. simpl. destruct tr; (eexists _, _; split; [done|]); (split; [|done]); [|done].
    apply has_shape_spec. split; [by rewrite length_imap|].
    apply Forall_forall. intros r Hr. apply elem_of_lookup_imap in Hr as (k & r' & -> & Hr').
    rewrite length_drop_row. rewrite Forall_forall in Hrows.
    apply Hrows. by eapply list_elem_of_lookup_2.
  - injection Hw as <-. simpl. eexists _, _. split; [done|]. split.
    + apply (has_shape_fmap n i); [done|]. intros r Hr. by rewrite length_fmap.
    + split; [done|]. split; [done|]. intros _.
      apply Forall_fmap, Forall_true. intros r. apply Forall_fmap, Forall_true.
      intros a. apply sigmoid_range.
Qed.

(** A batch-normalisation layer in training mode refuses a batch of one
    row. *)
Lemma forward_batch_norm_single (keep : nat -> nat -> bool) (l : layer)
    (c : nat) (x : matrix) :
  batch_norm_shape c l = true -> has_shape 1 c x = true ->
  forward_layer true keep l x = (inl ValueError, l).
Proof.
  intros Hl Hx. apply has_shape_spec in Hx as [Hn Hrows].
  destruct l as [|w b m v nbt| | |]; try done. simpl in *.
  destruct (length w =? c) eqn:E1; [|done]. apply Nat.eqb_eq in E1.
  rewrite E1, rows_checked by done. simpl. by rewrite Hn.
Qed.

Lemma sequential_shape (tr : bool) (masks : nat -> nat -> nat -> bool)
    (ls : list layer) (k n i o : nat) (x : matrix) :
  chain_width ls i = Some o -> has_shape n i x = true ->
  tr = false ∨ n ≠ 1 ∨ existsb is_batch_norm ls = false ->
  ∃ y ls', sequential tr masks k ls x = (inr y, ls') ∧ has_shape n o y = true ∧
           chain_width ls' i = Some o ∧
           existsb is_batch_norm ls' = existsb is_batch_norm ls ∧
           (is_sigmoid <$> last ls = Some true -> in_unit_interval y).
Proof.
  revert k i x. induction ls as [|l ls IH]; intros k i x Hw Hx Hg; simpl in *.
  - injection Hw as <-. eexists _, _. split; [done|]. repeat split; try done.
  - destruct (layer_width l i) as [m|] eqn:El; [|done]. simpl in Hw.
    destruct (forward_layer_shape tr (masks k) l n i m x El Hx) as (y & l' & E & Hy & El' & Hb & Hs).
    { destruct Hg as [?|[?|Hg]]; [by left|by right; left|right; right].
      by apply orb_false_elim in Hg as [? _]. }
    rewrite E.
    destruct (IH (S k) m y Hw Hy) as (z & ls' & E' & Hz & Hw' & Hb' & Hs').
    { destruct Hg as [?|[?|Hg]]; [by left|by right; left|right; right].
      by apply orb_false_elim in Hg as [_ ?]. }
    rewrite E'. eexists _, _. split; [done|]. split; [done|].
    split; [simpl; by rewrite El'|]. split; [simpl; by rewrite Hb, Hb'|].
    destruct ls as [|l2 ls2].
    + simpl. intros [= Hsig]. simpl in E'. injection E' as <- <-. by apply Hs.
    + intros Hlast. apply Hs'. exact Hlast.
Qed.

Lemma linear_width (i o : nat) (l : layer) :
  linear_shape i o l = true ->
  layer_width l i = Some o ∧ is_batch_norm l = false ∧ is_sigmoid l = false.
Proof.
  destruct l as [inf w b| | | |]; try done. simpl.
  intros [[-> %Nat.eqb_eq Hw]%andb_true_iff <-%Nat.eqb_eq]%andb_true_iff.
  by rewrite Nat.eqb_refl, Hw.
Qed.

Lemma batch_norm_width (c : nat) (l : layer) :
  batch_norm_shape c l = true -> layer_width l c = Some c ∧ is_sigmoid l = false.
Proof. destruct l; try done. simpl. by intros ->. Qed.

Lemma relu_width (i : nat) (l : layer) :
  is_relu l = true ->
  layer_width l i = Some i ∧ is_batch_norm l = false ∧ is_sigmoid l = false.
Proof. by destruct l. Qed.

Lemma dropout_width (i : nat) (l : layer) :
  is_dropout l = true ->
  layer_width l i = Some i ∧ is_batch_norm l = false ∧ is_sigmoid l = false.
Proof. by destruct l. Qed.

Lemma sigmoid_width (i : nat) (l : layer) :
  is_sigmoid l = true -> layer_width l i = Some i ∧ is_batch_norm l = false.
Proof. by destruct l. Qed.

Ltac split_shape H :=
  repeat match type of H with
         | (_ && _) = true =>
             let H1 := fresh "Hs" in
             apply andb_true_iff in H as [H H1]
         end.

Lemma encoder_chain (f h e : nat) (bn : bool) (ls : list layer) :
  encoder_shape f h e bn ls = true ->
  chain_width ls f = Some e ∧ (bn = false -> existsb is_batch_norm ls = false).
Proof.
  intros H. unfold encoder_shape in H.
  destruct bn.
  - destruct ls as [|l1 [|l2 [|l3 [|l4 [|l5 [|l6 [|l7 [|l8 [|]]]]]]]]]; try done.
    split_shape H.
    apply linear_width in H as (E1 & _). apply batch_norm_width in Hs5 as (E2 & _).
    apply (relu_width h) in Hs4 as (E3 & _). apply (dropout_width h) in Hs3 as (E4 & _).
    apply linear_width in Hs2 as (E5 & _). apply batch_norm_width in Hs1 as (E6 & _).
    apply (relu_width e) in Hs0 as (E7 & _). apply (dropout_width e) in Hs as (E8 & _).
    split; [|done]. simpl.
    rewrite E1; simpl. rewrite E2; simpl. rewrite E3; simpl. rewrite E4; simpl.
    rewrite E5; simpl. rewrite E6; simpl. rewrite E7; simpl. rewrite E8; simpl. done.
  - destruct ls as [|l1 [|l2 [|l3 [|l4 [|]]]]]; try done.
    split_shape H.
    apply linear_width in H as (E1 & B1 & _). apply (relu_width h) in Hs1 as (E2 & B2 & _).
    apply linear_width in Hs0 as (E3 & B3 & _). apply (relu_width e) in Hs as (E4 & B4 & _).
    split.
    + simpl. rewrite E1; simpl. rewrite E2; simpl. rewrite E3; simpl. rewrite E4; done.
    + intros _. simpl. by rewrite B1, B2, B3, B4.
Qed.

Lemma decoder_chain (f h e : nat) (bn : bool) (ls : list layer) :
  decoder_shape f h e bn ls = true ->
  chain_width ls e = Some f ∧ is_sigmoid <$> last ls = Some true ∧
  (bn = false -> existsb is_batch_norm ls = false).
Proof.
  intros H. unfold decoder_shape in H.
  destruct bn.
  - destruct ls as [|l1 [|l2 [|l3 [|l4 [|l5 [|l6 [|l7 [|]]]]]]]]; try done.
    split_shape H.
    apply linear_width in H as (E1 & _). apply batch_norm_width in Hs4 as (E2 & _).
    apply (relu_width h) in Hs3 as (E3 & _). apply (dropout_width h) in Hs2 as (E4 & _).
    apply linear_width in Hs1 as (E5 & _). apply batch_norm_width in Hs0 as (E6 & _).
    assert (Hsig := Hs). apply (sigmoid_width f) in Hs as (E7 & _).
    split; [|split; [|done]].
    + simpl. rewrite E1; simpl. rewrite E2; simpl. rewrite E3; simpl. rewrite E4; simpl.
      rewrite E5; simpl. rewrite E6; simpl. rewrite E7; done.
    + simpl. by rewrite Hsig.
  - destruct ls as [|l1 [|l2 [|l3 [|l4 [|]]]]]; try done.
    split_shape H.
    apply linear_width in H as (E1 & B1 & _). apply (relu_width h) in Hs1 as (E2 & B2 & _).
    apply linear_width in Hs0 as (E3 & B3 & _).
    assert (Hsig := Hs). apply (sigmoid_width f) in Hs as (E4 & B4).
    split; [|split].
    + simpl. rewrite E1; simpl. rewrite E2; simpl. rewrite E3; simpl. rewrite E4; done.
    + simpl. by rewrite Hsig.
    + intros _. simpl. by rewrite B1, B2, B3, B4.
Qed.



End TorchFacts.

(* ===================================================================== *)
(** * Facts about the trainer *)
(* ===================================================================== *)

Module TrainerFacts.
Import Torch Trainer.

Section WithBackend.

Variable B : Backend.

(** *** Rules for running monadic code *)

Lemma run_bind {A A'} (m : M B A) (k : A -> M B A') (s : state B) :
  (m ≫= k) s = match m s with Ok a s' => k a s' | Raise e s' => Raise e s' end.
Proof. reflexivity. Qed.

Lemma hoare_ret {A} (P : state B -> Prop) (a : A) (Q : A -> state B -> Prop)
    (E : state B -> Prop) :
  (∀ s, P s -> Q a s) -> hoare B P (mret a) Q E.
Proof. intros H s Hs. by apply H. Qed.

Lemma hoare_bind {A A'} (P : state B -> Prop) (m : M B A) (k : A -> M B A')
    (Q : A -> state B -> Prop) (Q' : A' -> state B -> Prop) (E : state B -> Prop) :
  hoare B P m Q E -> (∀ a, hoare B (Q a) (k a) Q' E) -> hoare B P (m ≫= k) Q' E.
Proof.
  intros Hm Hk s Hs. rewrite run_bind. specialize (Hm s Hs).
  destruct (m s) as [a s'|e s']; [by apply Hk|done].
Qed.

Lemma hoare_weaken {A} (P P' : state B -> Prop) (m : M B A)
    (Q Q' : A -> state B -> Prop) (E E' : state B -> Prop) :
  hoare B P m Q E -> (∀ s, P' s -> P s) -> (∀ a s, Q a s -> Q' a s) ->
  (∀ s, E s -> E' s) -> hoare B P' m Q' E'.
Proof.
  intros Hm HP HQ HE s Hs. specialize (Hm s (HP s Hs)).
  destruct (m s); auto.
Qed.

(** A loop keeps what each of its rounds keeps. *)
Lemma hoare_for_each {A} (I : state B -> Prop) (l : list A) (body : A -> M B unit) :
  (∀ a, hoare B I (body a) (λ _, I) I) -> hoare B I (for_each B l body) (λ _, I) I.
Proof.
  intros Hb. induction l as [|a l' IH]; simpl.
  - by apply hoare_ret.
  - eapply hoare_bind; [apply Hb|]. intros ?. apply IH.
Qed.

(** *** The loss histories are touched by the reports only *)

Local Abbreviation keeps := (keeps B).
Local Abbreviation balanced := (balanced B).

Lemma keeps_bind {A A' X} (f : state B -> X) (m : M B A) (k : A -> M B A') :
  keeps f m -> (∀ a, keeps f (k a)) -> keeps f (m ≫= k).
Proof. intros Hm Hk v. eapply hoare_bind; [apply Hm|]. intros a. apply Hk. Qed.

Lemma keeps_ret {A X} (f : state B -> X) (a : A) : keeps f (mret a : M B A).
Proof. intros v. by apply hoare_ret. Qed.

Lemma keeps_raise {A X} (f : state B -> X) (e : exn) : keeps f (raise B e : M B A).
Proof. by intros v s Hs. Qed.

Lemma keeps_gets {A X} (f : state B -> X) (g : state B -> A) : keeps f (gets B g).
Proof. by intros v s Hs. Qed.

Lemma keeps_modify {X} (f : state B -> X) (g : state B -> state B) :
  (∀ s, f (g s) = f s) -> keeps f (modify B g).
Proof. intros H v s Hs. simpl. by rewrite H. Qed.

Lemma losses_log (ev : event) : keeps (losses B) (log B ev).
Proof. by apply keeps_modify. Qed.

Lemma losses_print (l : line) : keeps (losses B) (print B l).
Proof. by apply keeps_modify. Qed.

Lemma losses_zero_grad (n : net_id) : keeps (losses B) (zero_grad B n).
Proof. apply keeps_bind; [by apply keeps_modify|]. intros ?. apply losses_log. Qed.

Lemma losses_call_module (n : net_id) (x : array B) :
  keeps (losses B) (call_module B n x).
Proof.
  intros v s Hs. unfold call_module.
  destruct x as [m|t].
  - destruct (layers _) as [|[] ?]; done.
  - destruct (module_forward _ _ _ _) as [[r m'] g']. simpl.
    destruct r; done.
Qed.

Lemma losses_criterion (a b : array B) : keeps (losses B) (criterion B a b).
Proof.
  unfold criterion. destruct a, b; try apply keeps_raise.
  apply keeps_bind; [apply losses_log|]. intros ?.
  destruct (mse_loss _ _); [apply keeps_raise|apply keeps_ret].
Qed.

Lemma losses_backward (l : loss_tensor B) : keeps (losses B) (backward B l).
Proof.
  apply keeps_bind; [|intros ?; apply losses_log].
  by apply keeps_modify.
Qed.

Lemma losses_optimizer_step (n : net_id) : keeps (losses B) (optimizer_step B n).
Proof.
  apply keeps_bind; [|intros ?; apply losses_log].
  by apply keeps_modify.
Qed.

Lemma losses_reset (b : bool) : keeps (losses B) (reset B b).
Proof. by apply keeps_modify. Qed.

Ltac keeps_losses :=
  repeat first
    [ apply keeps_ret | apply keeps_raise | apply keeps_gets
    | apply losses_log | apply losses_print | apply losses_zero_grad
    | apply losses_call_module | apply losses_criterion | apply losses_backward
    | apply losses_optimizer_step | apply losses_reset
    | (apply keeps_bind; [|intros ?]) ].

Lemma losses_train_step (x t : array B) : keeps (losses B) (train_step B x t).
Proof. unfold train_step. keeps_losses. Qed.

Lemma losses_get_val_loss (x t : array B) : keeps (losses B) (get_val_loss B x t).
Proof. unfold get_val_loss. keeps_losses. Qed.

Lemma losses_dataloader_iter : keeps (losses B) (dataloader_iter B).
Proof.
  intros v s Hs. unfold dataloader_iter.
  destruct (sampler _ _ _) as [order g']. by destruct (mapM _ _).
Qed.


Lemma batch_step_losses (n : Z) (i : nat) (batch : array B * array B)
    (tl vl : list scalar) :
  hoare B (λ s, losses B s = (tl, vl)) (batch_step B n i batch)
    (λ _ s, if report_due i n
            then ∃ l v, losses B s = (tl ++ [l], vl ++ [v])
            else losses B s = (tl, vl))
    (λ s, losses B s = (tl, vl)).
Proof.
  unfold batch_step.
  eapply hoare_bind; [apply losses_reset|]. intros ?.
  eapply hoare_bind; [apply losses_train_step|]. intros loss.
  destruct (n =? 0)%Z; [by intros s Hs|].
  destruct (report_due i n); [|by apply hoare_ret].
  apply (hoare_bind _ _ _ (λ _ s, losses B s = (tl, vl))); [by intros s Hs|]. intros v.
  eapply hoare_bind; [apply losses_get_val_loss|]. intros val_loss.
  eapply hoare_bind; [apply losses_print|]. intros ?.
  intros s Hs. simpl. exists loss, val_loss.
  unfold losses in *. simpl. by injection Hs as -> ->.
Qed.


Lemma keeps_balanced {A} (m : M B A) :
  keeps (losses B) m -> hoare B balanced m (λ _, balanced) balanced.
Proof.
  intros Hm s Hs. specialize (Hm (losses B s) s eq_refl).
  unfold balanced, losses in *.
  destruct (m s); injection Hm as -> ->; done.
Qed.

Lemma batch_step_balanced (n : Z) (i : nat) (batch : array B * array B) :
  hoare B balanced (batch_step B n i batch) (λ _, balanced) balanced.
Proof.
  intros s Hs.
  assert (H := batch_step_losses n i batch _ _ s eq_refl).
  unfold balanced, losses in *.
  destruct (batch_step B n i batch s) as [[] s'|e s'].
  - destruct (report_due i n).
    + destruct H as (l & v & [= -> ->]). rewrite !length_app. simpl. lia.
    + by injection H as -> ->.
  - by injection H as -> ->.
Qed.

Lemma train_loop_balanced (epochs n : Z) :
  hoare B balanced (train_loop B epochs n) (λ _, balanced) balanced.
Proof.
  unfold train_loop. apply hoare_for_each. intros epoch.
  eapply hoare_bind; [apply keeps_balanced, losses_print|]. intros ?.
  eapply hoare_bind; [apply keeps_balanced, losses_dataloader_iter|]. intros batches.
  apply hoare_for_each. intros [i batch]. apply batch_step_balanced.
Qed.


(** *** Evaluate mode changes no layer *)

Lemma forward_layer_eval (keep : nat -> nat -> bool) (l : layer) (x : matrix) :
  (forward_layer false keep l x).2 = l.
Proof.
  destruct l; simpl; try done.
  - by destruct (forallb _ x).
  - by destruct (negb _).
Qed.

Lemma sequential_eval (masks : nat -> nat -> nat -> bool) (k : nat)
    (ls : list layer) (x : matrix) :
  (sequential false masks k ls x).2 = ls.
Proof.
  revert k x. induction ls as [|l ls IH]; intros k x; simpl; [done|].
  assert (Hl := forward_layer_eval (masks k) l x).
  destruct (forward_layer false (masks k) l x) as [r l']. simpl in Hl. subst l'.
  destruct r as [e|y]; [done|].
  specialize (IH (S k) y).
  destruct (sequential false masks (S k) ls y) as [r' ls']. simpl in *. by subst.
Qed.

Lemma module_forward_eval (ls : list layer) (g : trng B) (x : matrix) :
  module_forward B {| layers := ls; training := false |} g x =
  ((sequential false (λ _ _ _, true) 0 ls x).1,
   {| layers := ls; training := false |}, g).
Proof.
  unfold module_forward. simpl.
  assert (H := sequential_eval (λ _ _ _, true) 0 ls x).
  destruct (sequential false _ 0 ls x) as [r ls']. simpl in *. by subst.
Qed.

Lemma module_forward_eval' (m : module) (g : trng B) (x : matrix) :
  training m = false ->
  module_forward B m g x = ((sequential false (λ _ _ _, true) 0 (layers m) x).1, m, g).
Proof. destruct m as [ls tr]. simpl. intros ->. apply module_forward_eval. Qed.

Lemma evaluated_reset (s0 : state B) :
  hoare B (λ s, s = s0) (reset B false) (λ _, evaluated_from B s0) (evaluated_from B s0).
Proof.
  intros s ->. simpl. unfold evaluated_from. simpl. split_and!; try done.
  exists []. by rewrite app_nil_r.
Qed.

Lemma evaluated_call_module (s0 : state B) (n : net_id) (x : array B) :
  hoare B (evaluated_from B s0) (call_module B n x)
    (λ _, evaluated_from B s0) (evaluated_from B s0).
Proof.
  intros s Hs. unfold call_module.
  destruct x as [m|t].
  { destruct (layers _) as [|[] ?]; done. }
  assert (Htr : training (net B (get_network B n s)) = false).
  { destruct Hs as (_ & _ & _ & _ & _ & _ & ? & ? & _). by destruct n. }
  rewrite module_forward_eval' by done. rewrite Htr.
  destruct Hs as (H1 & H2 & H3 & H4 & H5 & H6 & H7 & H8 & l & Hl & Hf).
  assert (evaluated_from B s0
    (final B (log B (Forward n false)
       (set_network B n (set_net B (net B (get_network B n s)) (get_network B n s))
          (set_env B (set_torch_rng B (torch_rng B (env B s)) (env B s)) s))))) as HJ.
  { unfold evaluated_from. destruct n; simpl; split_and!; try done;
      (eexists (l ++ [_]); rewrite Hl, <- app_assoc; split; [reflexivity|];
       rewrite forallb_app, Hf; done). }
  simpl in *. destruct (sequential false _ 0 _ _).1; exact HJ.
Qed.

Lemma evaluated_criterion (s0 : state B) (a b : array B) :
  hoare B (evaluated_from B s0) (criterion B a b)
    (λ _, evaluated_from B s0) (evaluated_from B s0).
Proof.
  intros s Hs. unfold criterion. destruct a as [|ta], b as [|tb]; try done.
  rewrite run_bind. simpl.
  destruct Hs as (H1 & H2 & H3 & H4 & H5 & H6 & H7 & H8 & l & Hl & Hf).
  assert (evaluated_from B s0 (final B (log B Criterion s))) as HJ.
  { unfold evaluated_from. simpl. split_and!; try done.
    exists (l ++ [Criterion]). rewrite Hl, <- app_assoc. split; [done|].
    by rewrite forallb_app, Hf. }
  simpl in HJ. destruct (mse_loss _ _); exact HJ.
Qed.

Lemma get_val_loss_evaluated (s0 : state B) (x t : array B) :
  hoare B (λ s, s = s0) (get_val_loss B x t)
    (λ _, evaluated_from B s0) (evaluated_from B s0).
Proof.
  unfold get_val_loss.
  eapply hoare_bind; [apply evaluated_reset|]. intros ?.
  eapply hoare_bind; [apply evaluated_call_module|]. intros encoded.
  eapply hoare_bind; [apply evaluated_call_module|]. intros decoded.
  eapply hoare_bind; [apply evaluated_criterion|]. intros loss.
  by apply hoare_ret.
Qed.

(** *** The evaluation computes what a training step computes *)

Lemma agree_bind {A A'} (m1 m2 : M B A) (k1 k2 : A -> M B A') (s1 s2 : state B) :
  agree B (m1 s1) (m2 s2) ->
  (∀ a s1' s2', same_nets B s1' s2' -> agree B (k1 a s1') (k2 a s2')) ->
  agree B ((m1 ≫= k1) s1) ((m2 ≫= k2) s2).
Proof.
  intros [Hr Hs] Hk. rewrite !run_bind.
  destruct (m1 s1) as [a1 s1'|e1 s1'], (m2 s2) as [a2 s2'|e2 s2']; simpl in *;
    try done.
  - injection Hr as ->. by apply Hk.
  - injection Hr as ->. split; simpl; done.
Qed.

Lemma agree_call_module (n : net_id) (x : array B) (s1 s2 : state B) :
  same_nets B s1 s2 -> agree B (call_module B n x s1) (call_module B n x s2).
Proof.
  intros (He & Hd & Hg). unfold call_module.
  assert (Hn : net B (get_network B n s1) = net B (get_network B n s2)) by by destruct n.
  rewrite Hn, Hg.
  destruct x as [m|t].
  - destruct (layers _) as [|[] ?]; by split.
  - destruct (module_forward B _ _ _) as [[r m'] g']. simpl.
    destruct r; (split; [done|]); destruct n; by split_and!.
Qed.

Lemma agree_criterion (a b : array B) (s1 s2 : state B) :
  same_nets B s1 s2 -> agree B (criterion B a b s1) (criterion B a b s2).
Proof.
  intros Hs. unfold criterion. destruct a as [|ta], b as [|tb]; try by split.
  rewrite !run_bind. simpl. destruct (mse_loss _ _); by split.
Qed.

Lemma returned_bind {A A'} (m1 m2 : M B A) (k1 k2 : A -> M B A') (s1 s2 : state B) :
  agree B (m1 s1) (m2 s2) ->
  (∀ a s1' s2', same_nets B s1' s2' ->
     returned B (k1 a s1') = returned B (k2 a s2')) ->
  returned B ((m1 ≫= k1) s1) = returned B ((m2 ≫= k2) s2).
Proof.
  intros [Hr Hs] Hk. rewrite !run_bind.
  destruct (m1 s1) as [a1 s1'|e1 s1'], (m2 s2) as [a2 s2'|e2 s2']; simpl in *;
    try done.
  - injection Hr as ->. by apply Hk.
  - by injection Hr as ->.
Qed.

Lemma run_reset (b : bool) (s : state B) :
  reset B b s = Ok tt (final B (reset B b s)).
Proof. reflexivity. Qed.

Lemma run_zero_grad (n : net_id) (s : state B) :
  zero_grad B n s = Ok tt (final B (zero_grad B n s)).
Proof. reflexivity. Qed.

Lemma same_nets_zero_grad (n : net_id) (s : state B) :
  same_nets B s (final B (zero_grad B n s)).
Proof. destruct n; by split_and!. Qed.

Lemma same_nets_trans (s1 s2 s3 : state B) :
  same_nets B s1 s2 -> same_nets B s2 s3 -> same_nets B s1 s3.
Proof. intros (? & ? & ?) (? & ? & ?). split_and!; congruence. Qed.

Lemma returned_training_tail (l : loss_tensor B) (s : state B) :
  returned B ((backward B l;; optimizer_step B Enc;; optimizer_step B Dec;;
               mret (item B l)) s) = inr (item B l).
Proof. reflexivity. Qed.

Lemma get_val_loss_as_train_step (s : state B) (x t : array B) :
  returned B (get_val_loss B x t s) =
  returned B (train_step B x t (final B (reset B false s))).
Proof.
  unfold get_val_loss, train_step.
  rewrite (run_bind (reset B false)), run_reset.
  set (s1 := final B (reset B false s)).
  rewrite (run_bind (zero_grad B Enc)), run_zero_grad.
  rewrite (run_bind (zero_grad B Dec)), run_zero_grad.
  set (s2 := final B (zero_grad B Dec _)).
  assert (Hs : same_nets B s1 s2).
  { eapply same_nets_trans; apply same_nets_zero_grad. }
  clearbody s1 s2.
  apply returned_bind; [by apply agree_call_module|].
  intros encoded s1' s2' Hs'.
  apply returned_bind; [by apply agree_call_module|].
  intros decoded s1'' s2'' Hs''.
  apply returned_bind; [by apply agree_criterion|].
  intros loss u1 u2 Hu. by rewrite returned_training_tail.
Qed.

(** C6: [get_val_loss] leaves the layers (parameters and running
    statistics), the gradients and the optimizer states of both networks
    as they were, puts both networks in evaluate mode, calls nothing but
    evaluate-mode forward passes and the criterion, and returns what a
    training step returns from the same state in evaluate mode. *)
Theorem get_val_loss_changes_no_parameter (s : state B) (x t : array B) :
  evaluated_from B s (final B (get_val_loss B x t s)) ∧
  returned B (get_val_loss B x t s) =
  returned B (train_step B x t (final B (reset B false s))).
Proof.
  split; [|apply get_val_loss_as_train_step].
  assert (H := get_val_loss_evaluated s x t s eq_refl).
  by destruct (get_val_loss B x t s).
Qed.



(** *** The steps of [train_step] *)

Lemma run_call_module (n : net_id) (t : Tensor B) (s : state B) :
  let w := get_network B n s in
  let r := module_forward B (net B w) (torch_rng B (env B s)) (values B t) in
  let s2 := final B (log B (Forward n (training (net B w)))
              (set_network B n (set_net B r.1.2 w)
                 (set_env B (set_torch_rng B r.2 (env B s)) s))) in
  call_module B n (TensorOf t) s =
  match r.1.1 with
  | inl e => Raise e s2
  | inr y => Ok (TensorOf {| values := y;
                             grad_fn := Call n (net B w) (torch_rng B (env B s))
                                             (grad_fn B t) |}) s2
  end.
Proof. reflexivity. Qed.

(** C4: a [train_step] that returns has made exactly these calls, in this
    order: zero the gradients of the encoder's then the decoder's
    optimizer, encoder forward, decoder forward on its output, the
    mean-squared criterion against the target, backward, one step of the
    encoder's then of the decoder's optimizer; it returns the value of
    that loss, and each network ends one Adam step away from its layers
    after the forward pass, along the gradient of this loss alone.  A
    [train_step] that raises stopped in a forward pass or the criterion
    and stepped no optimizer. *)
Theorem train_step_sequence (s : state B) (x t : Tensor B) :
  let te := training (net B (encoder B s)) in
  let td := training (net B (decoder B s)) in
  let g0 := torch_rng B (env B s) in
  let fe := module_forward B (net B (encoder B s)) g0 (values B x) in
  let tape := Mse (Call Dec (net B (decoder B s)) fe.2
                        (Call Enc (net B (encoder B s)) g0 (grad_fn B x)))
                  (grad_fn B t) in
  match train_step B (TensorOf x) (TensorOf t) s with
  | Ok loss s' =>
      calls B (env B s') = calls B (env B s) ++ train_step_calls te td ∧
      ∃ z enc1 g1 y dec1 g2,
        fe = (inr z, enc1, g1) ∧
        module_forward B (net B (decoder B s)) g1 z = (inr y, dec1, g2) ∧
        mse_loss y (values B t) = inr loss ∧
        torch_rng B (env B s') = g2 ∧
        grad B (encoder B s') = add_grads B (zero_grads B) (autograd B tape).1 ∧
        grad B (decoder B s') = add_grads B (zero_grads B) (autograd B tape).2 ∧
        (layers (net B (encoder B s')), optimizer B (encoder B s')) =
          adam_step B (optimizer B (encoder B s)) (layers enc1) (grad B (encoder B s')) ∧
        (layers (net B (decoder B s')), optimizer B (decoder B s')) =
          adam_step B (optimizer B (decoder B s)) (layers dec1) (grad B (decoder B s'))
  | Raise e s' =>
      (∃ k, 3 ≤ k ≤ 5 ∧
            calls B (env B s') = calls B (env B s) ++ take k (train_step_calls te td)) ∧
      optimizer B (encoder B s') = optimizer B (encoder B s) ∧
      optimizer B (decoder B s') = optimizer B (decoder B s)
  end.
Proof.
  destruct s as [d vi v tr [ne ge oe] [nd gd od] tl vl [g cd fs cs so]].
  cbv zeta. simpl.
  unfold train_step.
  rewrite (run_bind (zero_grad B Enc)), run_zero_grad.
  rewrite (run_bind (zero_grad B Dec)), run_zero_grad.
  rewrite (run_bind (call_module B Enc _)), run_call_module. simpl.
  destruct (module_forward B ne g (values B x)) as [[[e|z] enc1] g1] eqn:E1; simpl.
  { split; [|done]. exists 3. split; [lia|]. simpl. by rewrite <- !app_assoc. }
  rewrite (run_bind (call_module B Dec _)), run_call_module. simpl.
  destruct (module_forward B nd g1 z) as [[[e|y] dec1] g2] eqn:E2; simpl.
  { split; [|done]. exists 4. split; [lia|]. simpl. by rewrite <- !app_assoc. }
  rewrite !run_bind. simpl.
  destruct (mse_loss y (values B t)) as [e|loss] eqn:E3; simpl.
  { split; [|done]. exists 5. split; [lia|]. simpl. by rewrite <- !app_assoc. }
  split; [by rewrite <- !app_assoc|].
  exists z, enc1, g1, y, dec1, g2. split_and!; try done.
  - by destruct (adam_step B _ _ _).
  - by destruct (adam_step B _ _ _).
Qed.


(** *** The loss histories *)


(** *** [get_encoded_representations] *)

(** C1, on the code: with the encoder [__init__] builds,
    [get_encoded_representations] raises TypeError, whatever the data:
    it hands the numpy array [self.data] to the first linear layer. *)
Theorem get_encoded_representations_raises (f h e : nat) (bn : bool) (s : state B) :
  encoder_shape f h e bn (layers (net B (encoder B s))) = true ->
  returned B (get_encoded_representations B s) = inl TypeError.
Proof.
  intros Hs. unfold get_encoded_representations.
  rewrite (run_bind (gets B (data B))). simpl.
  rewrite (run_bind (reset B false)), run_reset.
  rewrite (run_bind (call_module B Enc _)).
  unfold call_module. simpl.
  destruct (layers (net B (encoder B s))) as [|l ls]; [by destruct bn|].
  assert (Hl : ∃ i w b, l = Linear i w b).
  { unfold encoder_shape in Hs.
    destruct bn, l; try (by eauto);
      repeat (destruct ls as [|? ls]; try done). }
  by destruct Hl as (i & w & b & ->).
Qed.


(** *** Checkpoints *)

(** The keys of a decoder's parameter map start with [d], those an
    encoder looks up start with [e]. *)
Lemma key_first_char (prefix : string) (c : ascii) (rest : string) (i : nat)
    (name : string) :
  prefix = String c rest -> ∃ tail, key prefix i name = String c tail.
Proof. intros ->. unfold key. simpl. eauto. Qed.

Lemma state_dict_other_prefix (ls : list layer) (i : nat) (name : string) :
  state_dict "decoder" ls !! key "encoder" i name = None.
Proof.
  unfold state_dict. apply not_elem_of_list_to_map_1.
  intros Hin. apply list_elem_of_fmap in Hin as ([k v] & Hk & Hin). simpl in Hk.
  unfold entries in Hin. apply list_elem_of_join in Hin as (l & Hin & Hl).
  apply elem_of_lookup_imap in Hl as (j & lay & -> & _).
  apply list_elem_of_fmap in Hin as ([nm t] & [= -> ->] & _). simpl in Hk.
  destruct (key_first_char "encoder" "e" "ncoder" i name eq_refl) as [t1 E1].
  destruct (key_first_char "decoder" "d" "ecoder" j nm eq_refl) as [t2 E2].
  rewrite E1, E2 in Hk. discriminate.
Qed.

Lemma load_layer_other_prefix (ls : list layer) (i : nat) (l : layer) :
  load_layer (state_dict "decoder" ls) "encoder" i l = (l, true).
Proof.
  destruct l; simpl; try done; unfold load_tensor;
    rewrite !state_dict_other_prefix; done.
Qed.

Lemma load_state_dict_other_prefix (saved ls : list layer) :
  load_state_dict "encoder" ls (state_dict "decoder" saved) = (ls, true).
Proof.
  unfold load_state_dict.
  assert (E : imap (load_layer (state_dict "decoder" saved) "encoder") ls
              = (λ l, (l, true)) <$> ls).
  { rewrite <- (imap_const (λ l, (l, true)) ls). apply imap_ext.
    intros i l _. apply load_layer_other_prefix. }
  rewrite E. f_equal.
  - rewrite <- list_fmap_compose. apply list_fmap_id.
  - apply forallb_forall. intros [l b] Hin. apply in_map_iff in Hin as (? & [= <- <-] & _).
    done.
Qed.

(** C3, on the code: with the decoder's checkpoint on disk,
    [load_decoder] returns and has changed the layers of neither network:
    it loads the file into the encoder, where no key matches. *)
Theorem load_decoder_restores_nothing (s : state B) (saved : list layer) :
  files B (env B s) !! decoder_checkpoint = Some (state_dict "decoder" saved) ->
  ∃ s', load_decoder B s = Ok tt s' ∧
        layers (net B (decoder B s')) = layers (net B (decoder B s)) ∧
        layers (net B (encoder B s')) = layers (net B (encoder B s)).
Proof.
  intros Hf. unfold load_decoder, load_network. rewrite Hf.
  change (attribute Enc) with "encoder".
  change (get_network B Enc s) with (encoder B s).
  rewrite load_state_dict_other_prefix. eauto.
Qed.

Lemma save_decoder_writes (s : state B) :
  checkpoint_dir B (env B s) = true ->
  ∃ s', save_decoder B s = Ok tt s' ∧
        files B (env B s') !! decoder_checkpoint =
          Some (state_dict "decoder" (layers (net B (decoder B s)))) ∧
        decoder B s' = decoder B s ∧ encoder B s' = encoder B s.
Proof.
  intros Hd. unfold save_decoder, save_network. rewrite Hd.
  eexists. split; [done|]. simpl. by rewrite lookup_insert_eq.
Qed.

End WithBackend.


Lemma load_decoder_restores_nothing_witness :
  ∃ s', load_decoder toy_backend
          (final toy_backend (save_decoder toy_backend toy_state)) = Ok tt s' ∧
        layers (net toy_backend (decoder toy_backend s')) =
          layers (net toy_backend (decoder toy_backend
                    (final toy_backend (save_decoder toy_backend toy_state)))) ∧
        layers (net toy_backend (encoder toy_backend s')) =
          layers (net toy_backend (encoder toy_backend
                    (final toy_backend (save_decoder toy_backend toy_state)))).
Proof.
  apply (load_decoder_restores_nothing toy_backend _
           (layers (net toy_backend (decoder toy_backend toy_state)))).
  reflexivity.
Defined.

(** The failing run: the decoder is saved with weights 1, moves on to
    weights 2, and [load_decoder] leaves it at weights 2. *)
Example load_decoder_keeps_newer_weights :
  let saved := decoder_layers 1 1 1 false ([[1%R]], [0%R]) ([[1%R]], [0%R]) in
  let newer := decoder_layers 1 1 1 false ([[2%R]], [0%R]) ([[2%R]], [0%R]) in
  let s1 := final toy_backend (save_decoder toy_backend toy_state) in
  let s2 := set_network toy_backend Dec (toy_network newer) s1 in
  layers (net toy_backend (decoder toy_backend toy_state)) = saved ∧
  ∃ s3, load_decoder toy_backend s2 = Ok tt s3 ∧
        layers (net toy_backend (decoder toy_backend s3)) = newer.
Proof.
  intros saved newer s1 s2. split; [reflexivity|].
  assert (Hf : files toy_backend (env toy_backend s2) !! decoder_checkpoint
               = Some (state_dict "decoder" saved)) by reflexivity.
  unfold load_decoder, load_network. rewrite Hf.
  change (attribute Enc) with "encoder".
  rewrite load_state_dict_other_prefix. eexists. split; reflexivity.
Qed.

Lemma get_encoded_representations_raises_witness :
  returned toy_backend (get_encoded_representations toy_backend toy_state) = inl TypeError.
Proof.
  apply (get_encoded_representations_raises toy_backend 1 1 1 false toy_state).
  reflexivity.
Defined.

(** A run that reports: 66 training rows make two batches, and with a
    report every batch the second one appends to both histories. *)
Example train_loop_reports_once :
  let s' := final toy_backend (train_loop toy_backend 1 1 toy_state) in
  length (train_losses toy_backend s') = 1 ∧ length (val_losses toy_backend s') = 1.
Proof. vm_compute. done. Qed.

End TrainerFacts.

(* ===================================================================== *)
(** * Facts about the text-embedding helper *)
(* ===================================================================== *)

Module EmbeddingFacts.
Import Torch Embedding.

Section WithTools.

Variable T : TextTools.

Lemma mark_tokens_column (keys : list string) (n : nat) (tokens : list string)
    (m m' : matrix) :
  indicator_column n m -> mark_tokens T keys m tokens = inr m' ->
  indicator_column n m'.
Proof.
  revert m. induction tokens as [|token rest IH]; intros m Hm E; simpl in E.
  - by injection E as <-.
  - destruct (index_of keys (token_key T token)) as [k|]; [|done].
    apply (IH (<[k := [1%R]]> m)); [|done].
    destruct Hm as [Hl Hf]. split; [by rewrite length_insert|].
    apply Forall_insert; [done|by right].
Qed.

Lemma mark_words_column (keys : list string) (n : nat) (words : list string)
    (m m' : matrix) :
  indicator_column n m -> mark_words T keys m words = inr m' ->
  indicator_column n m'.
Proof.
  revert m. induction words as [|word rest IH]; intros m Hm E; simpl in E.
  - by injection E as <-.
  - destruct (mark_tokens T keys m _) as [e|m1] eqn:E1; [done|].
    apply (IH m1); [|done]. by eapply mark_tokens_column.
Qed.

(** When the bag-of-words embedding is returned, it is one row with an
    entry 0 or 1 for each word of the vocabulary. *)
Lemma bow_embedding_indicator (sentence : pytext) (dictionary : list (string * nat))
    (v : pyvalue) :
  get_bow_embedding T sentence dictionary = inr v ->
  ∃ row, v = PyArray [row] ∧ length row = length dictionary ∧
         Forall (λ a, a = 0%R ∨ a = 1%R) row.
Proof.
  unfold get_bow_embedding.
  destruct (mark_words T _ _ _) as [e|m] eqn:E; [done|]. intros [= <-].
  apply (mark_words_column _ (length dictionary)) in E as [Hl Hf].
  - eexists. split; [reflexivity|]. split; [by rewrite length_fmap|].
    apply Forall_fmap. eapply Forall_impl; [exact Hf|].
    intros r [->| ->]; simpl; auto.
  - split; [by rewrite length_replicate|]. apply Forall_replicate. by left.
Qed.

(** C9, on the code: for the selector [tf-idf], [get_embedding] returns
    [None] or raises; it never returns a vector. *)
Theorem tf_idf_returns_no_vector (sentence : pytext)
    (dictionary : list (string * nat)) :
  let res := get_embedding T {| sentence := sentence; model := "tf-idf";
                                dictionary := dictionary |} in
  res = inr PyNone ∨ ∃ e, res = inl e.
Proof.
  unfold get_embedding, get_tf_idf_embedding. simpl.
  destruct (tfidf_fit_transform T sentence) as [e|m]; eauto.
Qed.

End WithTools.

Example tf_idf_returns_none :
  get_embedding plain_tools {| sentence := StrList ["a good movie"]; model := "tf-idf";
                               dictionary := [("movie", 0)] |} = inr PyNone.
Proof. reflexivity. Qed.

End EmbeddingFacts.

(* ===================================================================== *)
(** * More on the splitter: order, bounds and folds *)
(* ===================================================================== *)

Module SplitterEdges.
Import Numpy Splitter SplitterFacts.

(** [np_index] answers exactly on [-len, len). *)
Lemma np_index_Some (len : nat) (i : Z) :
  is_Some (np_index len i) ↔ (- Z.of_nat len <= i < Z.of_nat len)%Z.
Proof.
  unfold np_index.
  destruct (Z.leb_spec 0 i), (Z.ltb_spec i (Z.of_nat len)),
    (Z.leb_spec (- Z.of_nat len) i), (Z.ltb_spec i 0); simpl;
    split; intros Hs; try (by eexists); try lia; by destruct Hs.
Qed.

Lemma np_index_lt (len : nat) (i : Z) (k : nat) :
  np_index len i = Some k -> k < len.
Proof.
  unfold np_index.
  destruct (Z.leb_spec 0 i), (Z.ltb_spec i (Z.of_nat len)),
    (Z.leb_spec (- Z.of_nat len) i), (Z.ltb_spec i 0); simpl;
    intros [= <-]; lia.
Qed.

(** [mask[idxs] = True]: it raises exactly when an index is out of range,
    and otherwise sets the positions the indices name. *)
Lemma mask_set_spec (idxs : list Z) (mask : list bool) :
  match mask_set mask idxs with
  | Some mask' =>
      Forall (λ i, (- Z.of_nat (length mask) <= i < Z.of_nat (length mask))%Z) idxs ∧
      length mask' = length mask ∧
      ∀ j, mask' !! j = Some true ↔
           (mask !! j = Some true ∨ ∃ i, i ∈ idxs ∧ np_index (length mask) i = Some j)
  | None =>
      Exists (λ i, ¬ (- Z.of_nat (length mask) <= i < Z.of_nat (length mask))%Z) idxs
  end.
Proof.
  revert mask. induction idxs as [|i idxs IH]; intros mask; simpl.
  - split; [constructor|]. split; [done|]. intros j. split; [auto|].
    intros [?|(i & Hi%elem_of_nil & _)]; done.
  - destruct (np_index (length mask) i) as [k|] eqn:Ek.
    + assert (Hk := np_index_lt _ _ _ Ek).
      specialize (IH (<[k := true]> mask)). rewrite length_insert in IH.
      destruct (mask_set (<[k:=true]> mask) idxs) as [mask'|].
      * destruct IH as (Hr & Hl & Hm). split.
        { constructor; [|done]. apply np_index_Some. by eexists. }
        split; [done|]. intros j. rewrite Hm.
        destruct (decide (j = k)) as [->|Hne].
        -- rewrite list_lookup_insert_eq by done. split; [|auto].
           intros _. right. exists i. split; [by left|done].
        -- rewrite list_lookup_insert_ne by done. split.
           ++ intros [?|(i' & Hi' & E)]; [by left|right].
              exists i'. split; [by right|done].
           ++ intros [?|(i' & Hi' & E)]; [by left|].
              apply elem_of_cons in Hi' as [->|Hi']; [congruence|].
              right. by exists i'.
      * by apply Exists_cons_tl.
    + apply Exists_cons_hd. rewrite <- np_index_Some, Ek. by intros [? ?].
Qed.

(** The positions a mask keeps come in increasing order. *)
Lemma true_positions_sorted (mask : list bool) (k : nat) :
  StronglySorted lt (true_positions k mask).
Proof.
  revert k. induction mask as [|b mask IH]; intros k; simpl; [constructor|].
  destruct b; [|apply IH].
  constructor; [apply IH|].
  apply Forall_forall. intros j Hj. apply elem_of_true_positions in Hj. lia.
Qed.

Lemma split_by_idx_single {A} (idxs : list Z) (data : list A) :
  split_by_idx idxs [data] =
  match mask_set (replicate (length data) false) idxs with
  | Some mask => Some [(select mask data, select (invert mask) data)]
  | None => None
  end.
Proof.
  unfold split_by_idx. simpl.
  assert (H := mask_set_spec idxs (replicate (length data) false)).
  destruct (mask_set _ idxs) as [mask|]; [|done]. simpl.
  destruct H as (_ & Hl & _). rewrite length_replicate in Hl.
  unfold bool_index, invert. rewrite length_fmap.
  rewrite !decide_True by done. done.
Qed.

(** X1: [split_by_idx] keeps the row order of the matrix, whatever the
    order of the indices, and it counts a repeated or wrapped index
    once: the validation part is the rows at the indexed positions, the
    training part the other rows, both in increasing position. *)
Theorem split_by_idx_keeps_row_order {A} (idxs : list Z) (data val train : list A) :
  split_by_idx idxs [data] = Some [(val, train)] ->
  ∃ vi ti : list nat,
    val = take_rows data vi ∧ train = take_rows data ti ∧
    StronglySorted lt vi ∧ StronglySorted lt ti ∧
    (∀ p, p ∈ vi ↔ ∃ i, i ∈ idxs ∧ np_index (length data) i = Some p) ∧
    (∀ p, p ∈ ti ↔ p < length data ∧ p ∉ vi) ∧
    length val + length train = length data.
Proof.
  rewrite split_by_idx_single.
  assert (H := mask_set_spec idxs (replicate (length data) false)).
  destruct (mask_set _ idxs) as [mask|]; [|done].
  destruct H as (_ & Hl & Hm). rewrite length_replicate in Hl, Hm.
  intros [= <- <-].
  assert (Hm' : ∀ j, mask !! j = Some true ↔
                     ∃ i, i ∈ idxs ∧ np_index (length data) i = Some j).
  { intros j. rewrite Hm. split; [|auto].
    intros [Hf|?]; [|done]. by apply lookup_replicate in Hf as [? _]. }
  assert (Hil : length (invert mask) = length data).
  { unfold invert. by rewrite length_fmap. }
  exists (true_positions 0 mask), (true_positions 0 (invert mask)).
  split; [by apply (select_take_rows [] data mask)|].
  split; [by apply (select_take_rows [] data (invert mask))|].
  split; [apply true_positions_sorted|]. split; [apply true_positions_sorted|].
  split.
  { intros p. rewrite elem_of_true_positions, Nat.sub_0_r, Hm'.
    split; [by intros [_ ?]|]. intros ?. split; [lia|done]. }
  split.
  { intros p. rewrite !elem_of_true_positions, Nat.sub_0_r.
    unfold invert. rewrite list_lookup_fmap. split.
    - intros [_ Hp]. destruct (mask !! p) as [[]|] eqn:E; try done.
      split; [apply lookup_lt_Some in E; lia|]. intros [_ ?]. congruence.
    - intros [Hp Hn]. split; [lia|].
      destruct (lookup_lt_is_Some_2 mask p ltac:(lia)) as [[] E]; rewrite E; [|done].
      destruct Hn. split; [lia|done]. }
  by apply length_select_invert.
Qed.

Lemma split_by_idx_keeps_row_order_witness :
  ∃ vi ti : list nat,
    [10; 12] = take_rows [10; 11; 12; 13] vi ∧ [11; 13] = take_rows [10; 11; 12; 13] ti ∧
    StronglySorted lt vi ∧ StronglySorted lt ti ∧
    (∀ p, p ∈ vi ↔ ∃ i, i ∈ [2; 0; -2]%Z ∧ np_index 4 i = Some p) ∧
    (∀ p, p ∈ ti ↔ p < 4 ∧ p ∉ vi) ∧
    2 + 2 = 4.
Proof.
  apply (split_by_idx_keeps_row_order [2; 0; -2]%Z [10; 11; 12; 13] [10; 12] [11; 13]).
  reflexivity.
Defined.



Lemma select_zip {A C} (mask : list bool) (a : list A) (b : list C) :
  select mask (zip a b) = zip (select mask a) (select mask b).
Proof.
  revert a b. induction mask as [|m mask IH]; intros [|x a] [|y b]; simpl; try done.
  - by destruct m; destruct (select mask a).
  - destruct m; simpl; by rewrite IH.
Qed.

(** X3: several arrays split together stay aligned: the call returns only
    for arrays of one length, and row [k] of each validation (training)
    part comes from the same row of the inputs. *)
Theorem split_by_idx_keeps_arrays_aligned {A} (idxs : list Z) (a b : list A)
    (parts : list (list A * list A)) :
  split_by_idx idxs [a; b] = Some parts ->
  length a = length b ∧
  ∃ va ta vb tb,
    parts = [(va, ta); (vb, tb)] ∧
    split_by_idx idxs [a] = Some [(va, ta)] ∧
    split_by_idx idxs [b] = Some [(vb, tb)] ∧
    split_by_idx idxs [zip a b] = Some [(zip va vb, zip ta tb)] ∧
    length va = length vb ∧ length ta = length tb.
Proof.
  unfold split_by_idx at 1. simpl.
  assert (H := mask_set_spec idxs (replicate (length a) false)).
  destruct (mask_set _ idxs) as [mask|] eqn:Em; [|done]. simpl.
  destruct H as (_ & Hl & _). rewrite length_replicate in Hl.
  unfold bool_index, invert.
  destruct (decide (length a = length mask)); [simpl|congruence].
  destruct (decide (length a = length (negb <$> mask))) as [|Hn];
    [simpl|by rewrite length_fmap in Hn].
  destruct (decide (length b = length mask)) as [Hb|]; [simpl|done].
  destruct (decide (length b = length (negb <$> mask))) as [|Hn];
    [simpl|by rewrite length_fmap in Hn].
  rewrite Hl in Hb.
  intros [= <-]. split; [done|].
  eexists _, _, _, _. split; [reflexivity|].
  rewrite !split_by_idx_single, Em.
  rewrite Hb, Em, length_zip, <- Hb, Nat.min_id, Hb, Em.
  split; [done|]. split; [done|]. split; [by rewrite !select_zip|].
  rewrite !(length_select _ _ 0) by (unfold invert; rewrite ?length_fmap; congruence).
  done.
Qed.

Lemma split_by_idx_keeps_arrays_aligned_witness :
  3 = 3 ∧
  ∃ va ta vb tb,
    [([20], [10; 30]); ([21], [11; 31])] = [(va, ta); (vb, tb)] ∧
    split_by_idx [1%Z] [[10; 20; 30]] = Some [(va, ta)] ∧
    split_by_idx [1%Z] [[11; 21; 31]] = Some [(vb, tb)] ∧
    split_by_idx [1%Z] [zip [10; 20; 30] [11; 21; 31]] = Some [(zip va vb, zip ta tb)] ∧
    length va = length vb ∧ length ta = length tb.
Proof.
  apply (split_by_idx_keeps_arrays_aligned [1%Z] [10; 20; 30] [11; 21; 31]
           [([20], [10; 30]); ([21], [11; 31])]).
  reflexivity.
Defined.

(** A slice with bounds [0 <= lo <= hi] reads the positions from [lo] up
    to [hi], as far as the list goes. *)
Lemma py_slice_lookup {A} (l : list A) (lo hi : Z) (x : A) :
  (0 <= lo)%Z -> (0 <= hi)%Z ->
  x ∈ py_slice l lo hi ↔
  ∃ k, l !! k = Some x ∧ (lo <= Z.of_nat k < hi)%Z.
Proof.
  intros Hlo Hhi. unfold py_slice, slice_bound.
  destruct (Z.ltb_spec lo 0); [lia|]. destruct (Z.ltb_spec hi 0); [lia|].
  rewrite elem_of_take. split.
  - intros (k & Hk & Hlt). rewrite lookup_drop in Hk.
    exists (Z.to_nat (Z.min lo (Z.of_nat (length l))) + k). split; [done|].
    apply lookup_lt_Some in Hk. lia.
  - intros (k & Hk & Hr). assert (Hlt := lookup_lt_Some _ _ _ Hk).
    exists (k - Z.to_nat (Z.min lo (Z.of_nat (length l)))). split.
    + rewrite lookup_drop. rewrite <- Hk. f_equal. lia.
    + lia.
Qed.

Lemma permutation_NoDup (G : Generator) (g : rng G) (n : nat) :
  permutes G -> NoDup (np_random_permutation G g n).1.
Proof.
  intros HG. rewrite (HG g n). apply NoDup_fmap_2; [apply _|apply NoDup_seq].
Qed.

Lemma n_val_nonneg (val_pct : Q) (n : nat) :
  (0 <= val_pct)%Q -> (0 <= py_int (val_pct * inject_Z (Z.of_nat n)))%Z.
Proof.
  intros H0.
  assert (Hp : (0 <= val_pct * inject_Z (Z.of_nat n))%Q).
  { apply Qmult_le_0_compat; [done|]. rewrite <- (Zle_Qle 0). lia. }
  rewrite py_int_floor by done.
  rewrite <- (Qfloor_Z 0). by apply Qfloor_resp_le.
Qed.

(** X4: the folds of one seed do not overlap: for fold numbers
    [0 <= k < k'] and a fraction that is not negative, no index is in
    both [get_cv_idxs(n, k, ...)] and [get_cv_idxs(n, k', ...)], and
    each fold lists indices in [0, n) without repetition. *)
Theorem folds_are_disjoint (G : Generator) (n : nat) (k k' : Z) (val_pct : Q)
    (seed : Z) (g1 g2 g1' g2' : rng G) (i1 i2 : list Z) :
  permutes G -> (0 <= val_pct)%Q -> (0 <= k < k')%Z ->
  get_cv_idxs G n k val_pct seed g1 = Some (i1, g1') ->
  get_cv_idxs G n k' val_pct seed g2 = Some (i2, g2') ->
  (∀ i, i ∈ i1 -> i ∉ i2) ∧ NoDup i1 ∧ NoDup i2 ∧
  (∀ i, i ∈ i1 ∨ i ∈ i2 -> (0 <= i < Z.of_nat n)%Z).
Proof.
  intros HG H0 Hk. unfold get_cv_idxs.
  destruct (valid_seed seed); [|done].
  assert (Hnd := permutation_NoDup G (np_random_seed G seed) n HG).
  assert (Hp := HG (np_random_seed G seed) n).
  destruct (np_random_permutation G (np_random_seed G seed) n) as [perm g3].
  simpl in Hnd, Hp.
  assert (Hv := n_val_nonneg val_pct n H0).
  set (n_val := py_int (val_pct * inject_Z (Z.of_nat n))) in *.
  intros [= <- _] [= <- _].
  assert (Hsub : ∀ a i, i ∈ py_slice perm a (a + n_val) -> i ∈ perm).
  { intros a i Hi. unfold py_slice in Hi.
    apply elem_of_take in Hi as (j & Hj & _). rewrite lookup_drop in Hj.
    by eapply list_elem_of_lookup_2. }
  assert (Hslice : ∀ a, NoDup (py_slice perm a (a + n_val))).
  { intros a. unfold py_slice.
    eapply sublist_NoDup; [exact Hnd|].
    etrans; [apply sublist_take|apply sublist_drop]. }
  split_and!; try done.
  - intros i Hi1 Hi2.
    apply py_slice_lookup in Hi1 as (a & Ha & Hra); [|nia..].
    apply py_slice_lookup in Hi2 as (b & Hb & Hrb); [|nia..].
    assert (a = b) by (by eapply NoDup_lookup). nia.
  - intros i [Hi|Hi]; apply Hsub in Hi; rewrite Hp in Hi;
      apply list_elem_of_fmap in Hi as (j & -> & Hj); apply elem_of_seq in Hj; lia.
Qed.

Lemma folds_are_disjoint_witness :
  (∀ i, i ∈ [5; 6]%Z -> i ∉ [9; 0]%Z) ∧ NoDup [5; 6]%Z ∧ NoDup [9; 0]%Z ∧
  (∀ i, i ∈ [5; 6]%Z ∨ i ∈ [9; 0]%Z -> (0 <= i < Z.of_nat 10)%Z).
Proof.
  apply (folds_are_disjoint lcg 10 0 2 (2 # 10) 0 5%Z 5%Z 12345%Z 12345%Z
           [5; 6]%Z [9; 0]%Z lcg_permutes);
    [discriminate | lia | reflexivity | reflexivity].
Defined.


Lemma select_all_true {A} (o : list A) :
  select (replicate (length o) true) o = o ∧
  select (invert (replicate (length o) true)) o = [].
Proof. induction o as [|x o [IH1 IH2]]; simpl; [done|]. by rewrite IH1, IH2. Qed.

Lemma select_all_false {A} (o : list A) :
  select (replicate (length o) false) o = [] ∧
  select (invert (replicate (length o) false)) o = o.
Proof. induction o as [|x o [IH1 IH2]]; simpl; [done|]. by rewrite IH1, IH2. Qed.

Lemma all_true (mask : list bool) :
  (∀ j, j < length mask -> mask !! j = Some true) ->
  mask = replicate (length mask) true.
Proof.
  intros H. apply list_eq. intros j.
  destruct (decide (j < length mask)) as [Hj|Hj].
  - rewrite H by done. symmetry. by apply lookup_replicate.
  - rewrite lookup_ge_None_2 by lia. symmetry. apply lookup_ge_None_2.
    rewrite length_replicate. lia.
Qed.

(** X5: a fraction of 1 or more is not refused: every row goes to the
    validation part, in row order, and the training part is empty. *)
Theorem whole_matrix_to_validation (G : Generator) {A} (data : list A)
    (val_pct : Q) (seed : Z) (g : rng G) :
  permutes G -> valid_seed seed = true -> (1 <= val_pct)%Q ->
  ∃ idxs g',
    get_cv_idxs G (length data) 0 val_pct seed g = Some (idxs, g') ∧
    idxs ≡ₚ Z.of_nat <$> seq 0 (length data) ∧
    split_by_idx idxs [data] = Some [(data, [])].
Proof.
  intros HG Hseed H1. unfold get_cv_idxs. rewrite Hseed.
  set (n := length data).
  assert (Hp := HG (np_random_seed G seed) n).
  destruct (np_random_permutation G (np_random_seed G seed) n) as [perm g2].
  simpl in Hp.
  assert (Hlen : length perm = n) by (by rewrite Hp, length_fmap, length_seq).
  assert (Hn : (0 <= inject_Z (Z.of_nat n))%Q) by (rewrite <- (Zle_Qle 0); lia).
  assert (Hge : (inject_Z (Z.of_nat n) <= val_pct * inject_Z (Z.of_nat n))%Q).
  { rewrite <- (Qmult_1_l (inject_Z (Z.of_nat n))) at 1.
    by apply Qmult_le_compat_r. }
  assert (Hv : (Z.of_nat n <= py_int (val_pct * inject_Z (Z.of_nat n)))%Z).
  { rewrite py_int_floor by (eapply Qle_trans; [exact Hn|exact Hge]).
    rewrite <- (Qfloor_Z (Z.of_nat n)) at 1. by apply Qfloor_resp_le. }
  set (n_val := py_int (val_pct * inject_Z (Z.of_nat n))) in *.
  assert (Hs : py_slice perm (0 * n_val) (0 * n_val + n_val) = perm).
  { unfold py_slice, slice_bound. rewrite Z.mul_0_l, Z.add_0_l.
    destruct (Z.ltb_spec n_val 0); [lia|]. destruct (Z.ltb_spec 0 0); [lia|].
    rewrite (Z.min_l 0) by lia. rewrite (Z.min_r n_val) by lia.
    change (Z.to_nat 0) with 0.
    rewrite Nat.sub_0_r, drop_0. apply take_ge. lia. }
  rewrite Hs. exists perm, g2. split; [done|]. split; [done|].
  rewrite split_by_idx_single.
  assert (H := mask_set_spec perm (replicate n false)).
  destruct (mask_set _ perm) as [mask|].
  - destruct H as (_ & Hl & Hm). rewrite length_replicate in Hl, Hm.
    assert (E : mask = replicate (length data) true).
    { fold n. rewrite <- Hl. apply all_true. intros j Hj. apply Hm. right.
      exists (Z.of_nat j). split.
      - rewrite Hp. apply list_elem_of_fmap. exists j. split; [done|].
        apply elem_of_seq. lia.
      - rewrite np_index_in_range by lia. by rewrite Nat2Z.id. }
    rewrite E. by destruct (select_all_true data) as [-> ->].
  - exfalso. apply Exists_exists in H as (i & Hi & Hr). destruct Hr.
    rewrite Hp in Hi. apply list_elem_of_fmap in Hi as (j & -> & Hj).
    apply elem_of_seq in Hj. rewrite length_replicate. lia.
Qed.

Lemma whole_matrix_to_validation_witness :
  ∃ idxs g',
    get_cv_idxs lcg 3 0 (3 # 2) 0 5%Z = Some (idxs, g') ∧
    idxs ≡ₚ Z.of_nat <$> seq 0 3 ∧
    split_by_idx idxs [[10; 11; 12]] = Some [([10; 11; 12], [])].
Proof.
  apply (whole_matrix_to_validation lcg [10; 11; 12] (3 # 2) 0 5%Z lcg_permutes);
    [reflexivity | discriminate].
Defined.



End SplitterEdges.

(* ===================================================================== *)
(** * More on the sample source: indices and allocation *)
(* ===================================================================== *)

Module StorageEdges.
Import Numpy Storage SplitterEdges.

Section Memory.

Context {elem : Type}.
Variable cast : dtype -> dtype -> elem -> elem.

(** X7: [__getitem__] follows numpy's indexing: it raises exactly for an
    index outside [-len, len), and a negative index [-k] reads row
    [len - k]. *)
Theorem getitem_index_range (h : memory elem) (ds : AETrainingData) (idx : Z)
    (b : buffer elem) :
  h !! nd_base (x ds) = Some b ->
  (getitem cast h ds idx = None ↔
     ¬ (- Z.of_nat (len ds) <= idx < Z.of_nat (len ds))%Z) ∧
  ((- Z.of_nat (len ds) <= idx < 0)%Z ->
     getitem cast h ds idx = getitem cast h ds (idx + Z.of_nat (len ds))).
Proof.
  intros Hb. unfold len. split.
  - rewrite <- np_index_Some. unfold getitem, np_getitem.
    destruct (np_index (nd_rows (x ds)) idx) as [k|]; simpl.
    + split; [|by intros []]. intros E. exfalso.
      unfold tensor_type, from_numpy in E. simpl in E. rewrite Hb in E. simpl in E.
      destruct (decide (buf_dtype b = Float32)); simpl in E.
      * rewrite Hb in E. simpl in E. by rewrite decide_True in E.
      * rewrite lookup_app_l in E by (by eapply lookup_lt_Some).
        rewrite Hb in E. simpl in E. by rewrite decide_False in E.
    + split; [|done]. intros _ [? ?]. done.
  - intros Hr. unfold getitem, np_getitem.
    assert (E : np_index (nd_rows (x ds)) idx =
                np_index (nd_rows (x ds)) (idx + Z.of_nat (nd_rows (x ds)))).
    { rewrite (SplitterFacts.np_index_in_range _ (idx + _)) by lia. unfold np_index.
      destruct (Z.leb_spec 0 idx); [lia|]. simpl.
      destruct (Z.leb_spec (- Z.of_nat (nd_rows (x ds))) idx); [|lia].
      destruct (Z.ltb_spec idx 0); [|lia]. done. }
    by rewrite E.
Qed.

(** X8: [__getitem__] never changes the training matrix or any other
    array: the memory after the call is the memory before it, followed
    by the buffers of the conversions, none when the matrix already holds
    32-bit floats and two 32-bit float buffers otherwise; input and
    target have the width of the matrix. *)
Theorem getitem_changes_no_buffer (h h' : memory elem) (ds : AETrainingData)
    (idx : Z) (input target : tensor) :
  getitem cast h ds idx = Some (input, target, h') ->
  ∃ (b : buffer elem) (new : memory elem),
    h !! nd_base (x ds) = Some b ∧ h' = h ++ new ∧
    length new = (if decide (buf_dtype b = Float32) then 0 else 2) ∧
    Forall (λ c, buf_dtype c = Float32) new ∧
    t_len input = nd_cols (x ds) ∧ t_len target = nd_cols (x ds).
Proof.
  unfold getitem, np_getitem.
  destruct (np_index (nd_rows (x ds)) idx) as [k|]; [simpl|done].
  unfold tensor_type, from_numpy. simpl.
  destruct (h !! nd_base (x ds)) as [b|] eqn:Hb; [simpl|done].
  destruct (decide (buf_dtype b = Float32)) as [E|E]; simpl.
  - rewrite Hb. simpl. rewrite decide_True by done. simpl.
    intros [= <- <- <-]. exists b, []. rewrite app_nil_r.
    rewrite decide_True by done. by split_and!.
  - rewrite lookup_app_l by (by eapply lookup_lt_Some). rewrite Hb. simpl.
    rewrite decide_False by done. simpl.
    intros [= <- <- <-]. exists b. eexists [_; _].
    rewrite decide_False by done. rewrite <- app_assoc. simpl.
    split_and!; try done. by repeat constructor.
Qed.

End Memory.

Lemma getitem_index_range_witness :
  let h := [{| buf_dtype := Float64; buf_data := [1; 2; 3; 4]%Z |}] in
  let ds := {| x := {| nd_base := 0; nd_rows := 2; nd_cols := 2 |} |} in
  (getitem (λ _ _ v, v) h ds (-1) = None ↔
     ¬ (- Z.of_nat (len ds) <= -1 < Z.of_nat (len ds))%Z) ∧
  ((- Z.of_nat (len ds) <= -1 < 0)%Z ->
     getitem (λ _ _ v, v) h ds (-1) = getitem (λ _ _ v, v) h ds (-1 + Z.of_nat (len ds))).
Proof.
  apply (getitem_index_range (λ _ _ v, v)
           [{| buf_dtype := Float64; buf_data := [1; 2; 3; 4]%Z |}]
           {| x := {| nd_base := 0; nd_rows := 2; nd_cols := 2 |} |} (-1)
           {| buf_dtype := Float64; buf_data := [1; 2; 3; 4]%Z |}).
  reflexivity.
Defined.

Lemma getitem_changes_no_buffer_witness :
  let h := [{| buf_dtype := Float64; buf_data := [1; 2; 3; 4]%Z |}] in
  let row := {| buf_dtype := Float32; buf_data := [3; 4]%Z |} in
  let ds := {| x := {| nd_base := 0; nd_rows := 2; nd_cols := 2 |} |} in
  ∃ (b : buffer Z) (new : memory Z),
    h !! 0 = Some b ∧ h ++ [row; row] = h ++ new ∧
    length new = (if decide (buf_dtype b = Float32) then 0 else 2) ∧
    Forall (λ c, buf_dtype c = Float32) new ∧ 2 = 2 ∧ 2 = 2.
Proof.
  apply (getitem_changes_no_buffer (λ _ _ v, v)
           [{| buf_dtype := Float64; buf_data := [1; 2; 3; 4]%Z |}]
           ([{| buf_dtype := Float64; buf_data := [1; 2; 3; 4]%Z |}] ++
            [{| buf_dtype := Float32; buf_data := [3; 4]%Z |};
             {| buf_dtype := Float32; buf_data := [3; 4]%Z |}])
           {| x := {| nd_base := 0; nd_rows := 2; nd_cols := 2 |} |} (-1)
           {| storage := 1; t_offset := 0; t_len := 2 |}
           {| storage := 2; t_offset := 0; t_len := 2 |}).
  reflexivity.
Defined.

End StorageEdges.

(* ===================================================================== *)
(** * More on the networks: codes and evaluation *)
(* ===================================================================== *)

Module NetworkFacts.
Import Torch TorchFacts.

(** Every entry of the batch is zero or more. *)
Local Abbreviation nonneg := (Forall (Forall (λ v : R, (0 <= v)%R))).

Lemma relu_nonneg (x : matrix) : nonneg ((λ row : vector, Rmax 0 <$> row) <$> x).
Proof.
  apply Forall_fmap, Forall_true. intros r. apply Forall_fmap, Forall_true.
  intros a. apply Rmax_l.
Qed.

Lemma dropout_nonneg (p : R) (keep : nat -> nat -> bool) (x : matrix) :
  (p < 1)%R -> nonneg x -> nonneg (imap (λ i row, drop_row p (keep i) row) x).
Proof.
  intros Hp Hx. apply Forall_forall. intros r Hr.
  apply elem_of_lookup_imap in Hr as (i & row & -> & Hrow).
  rewrite Forall_forall in Hx. assert (Hn := Hx row (list_elem_of_lookup_2 _ _ _ Hrow)).
  unfold drop_row. apply Forall_forall. intros v Hv.
  apply elem_of_lookup_imap in Hv as (j & a & -> & Ha).
  rewrite Forall_forall in Hn. assert (H0 := Hn a (list_elem_of_lookup_2 _ _ _ Ha)).
  destruct (keep i j); [|lra].
  apply Rmult_le_pos; [done|]. apply Rlt_le, Rinv_0_lt_compat. lra.
Qed.

(** The pass through a Sequential that ends with a rectifier, or with a
    rectifier and a dropout, gives entries that are zero or more. *)
Lemma sequential_rectified (tr : bool) (masks : nat -> nat -> nat -> bool)
    (ls tail : list layer) (k : nat) (x y : matrix) (ls' : list layer) :
  tail = [ReLU] ∨ (∃ p, tail = [ReLU; Dropout p] ∧ (p < 1)%R) ->
  sequential tr masks k (ls ++ tail) x = (inr y, ls') -> nonneg y.
Proof.
  intros Ht. revert k x ls'. induction ls as [|l ls IH]; intros k x ls'.
  - simpl. destruct Ht as [->|(p & -> & Hp)]; simpl.
    + intros [= <- _]. apply relu_nonneg.
    + destruct tr; intros [= <- _]; [|apply relu_nonneg].
      apply dropout_nonneg; [done|apply relu_nonneg].
  - simpl. destruct (forward_layer tr (masks k) l x) as [[e|z] l']; [done|].
    destruct (sequential tr masks (S k) (ls ++ tail) z) as [r ls''] eqn:E.
    intros [= -> _]. by eapply IH.
Qed.

(** X9: the codes the encoder gives are a batch of [n] rows of the code
    size, and no entry is negative: the encoder ends with a rectifier
    (followed, with normalisation, by a dropout of rate 0.2). *)
Theorem latent_codes_shape_and_sign (f h e : nat) (bn tr : bool)
    (ls : list layer) (masks : nat -> nat -> nat -> bool) (n : nat) (x : matrix) :
  encoder_shape f h e bn ls = true ->
  (∀ p, Dropout p ∈ ls -> p = dropout_p) ->
  has_shape n f x = true ->
  bn = false ∨ n ≠ 1 ∨ tr = false ->
  ∃ z ls', sequential tr masks 0 ls x = (inr z, ls') ∧
           has_shape n e z = true ∧
           Forall (Forall (λ v, (0 <= v)%R)) z.
Proof.
  intros Hs Hp Hx Hg. assert (Hc := encoder_chain f h e bn ls Hs).
  destruct Hc as [Hc Hb].
  destruct (sequential_shape tr masks ls 0 n f e x Hc Hx) as (z & ls' & E & Hz & _).
  { destruct Hg as [?|[?|?]]; [right; right; by apply Hb|by right; left|by left]. }
  exists z, ls'. split; [done|]. split; [done|].
  unfold encoder_shape in Hs. destruct bn.
  - destruct ls as [|l1 [|l2 [|l3 [|l4 [|l5 [|l6 [|l7 [|l8 [|]]]]]]]]]; try done.
    split_shape Hs. destruct l7; try done. destruct l8 as [| | |p|]; try done.
    apply (sequential_rectified tr masks [l1; l2; l3; l4; l5; l6] [ReLU; Dropout p] 0 x z ls');
      [|done].
    right. exists p. split; [done|].
    rewrite (Hp p) by (do 7 right; left). unfold dropout_p. lra.
  - destruct ls as [|l1 [|l2 [|l3 [|l4 [|]]]]]; try done.
    split_shape Hs. destruct l4; try done.
    apply (sequential_rectified tr masks [l1; l2; l3] [ReLU] 0 x z ls'); [by left|done].
Qed.

Lemma latent_codes_shape_and_sign_witness :
  let ls := encoder_layers 2 3 1 true
              ([[1; 0]; [0; 1]; [1; 1]]%R, [0; 0; 0]%R) ([[1; 1; 1]]%R, [0%R]) in
  ∃ z ls', sequential true (λ _ _ _, true) 0 ls [[1; 2]; [3; 4]]%R = (inr z, ls') ∧
           has_shape 2 1 z = true ∧
           Forall (Forall (λ v, (0 <= v)%R)) z.
Proof.
  apply (latent_codes_shape_and_sign 2 3 1 true true);
    [reflexivity | | reflexivity | right; left; discriminate].
  intros p Hp. unfold encoder_layers, batch_norm in Hp.
  repeat (apply elem_of_cons in Hp as [Hp|Hp]; [try discriminate; by injection Hp|]).
  by apply elem_of_nil in Hp.
Defined.

(** In evaluate mode a layer maps each row by itself. *)
Lemma forward_layer_row_wise (keep keep' : nat -> nat -> bool) (l l' : layer)
    (x y : matrix) :
  forward_layer false keep l x = (inr y, l') ->
  ∃ g : vector -> vector,
    y = g <$> x ∧
    ∀ r, r ∈ x -> forward_layer false keep' l [r] = (inr [g r], l).
Proof.
  destruct l as [inf w b|w b m v nbt| |p|]; simpl.
  - destruct (forallb _ x) eqn:E; [|done]. intros [= <- <-].
    exists (linear_row w b). split; [done|]. intros r Hr.
    rewrite forallb_forall in E. rewrite (E r) by (by apply list_elem_of_In). done.
  - destruct (forallb _ x) eqn:E; [simpl|done]. intros [= <- <-].
    exists (normalize_row m v w b). split; [done|]. intros r Hr.
    rewrite forallb_forall in E. rewrite (E r) by (by apply list_elem_of_In). done.
  - intros [= <- <-]. by exists (λ row, Rmax 0 <$> row).
  - intros [= <- <-]. exists (λ row, row). split; [by rewrite list_fmap_id|done].
  - intros [= <- <-]. by exists (λ row, sigmoid <$> row).
Qed.

Lemma sequential_row_wise (masks masks' : nat -> nat -> nat -> bool) (k k' : nat)
    (ls ls' : list layer) (x y : matrix) :
  sequential false masks k ls x = (inr y, ls') ->
  length y = length x ∧
  ∀ i r, x !! i = Some r ->
    ∃ r', y !! i = Some r' ∧ (sequential false masks' k' ls [r]).1 = inr [r'].
Proof.
  revert k k' x ls'. induction ls as [|l ls IH]; intros k k' x ls'; simpl.
  - intros [= <- _]. split; [done|]. intros i r Hr. by exists r.
  - destruct (forward_layer false (masks k) l x) as [[e|z] l1] eqn:E1; [done|].
    destruct (sequential false masks (S k) ls z) as [r2 ls2] eqn:E2.
    intros [= -> _].
    destruct (forward_layer_row_wise _ (masks' k') _ _ _ _ E1) as (g & -> & Hg).
    destruct (IH _ (S k') _ _ E2) as [Hl Hrow]. rewrite length_fmap in Hl.
    split; [done|]. intros i r Hr.
    destruct (Hrow i (g r)) as (r' & Hy & Hs); [by rewrite list_lookup_fmap, Hr|].
    exists r'. split; [done|].
    rewrite (Hg r) by (by eapply list_elem_of_lookup_2).
    destruct (sequential false masks' (S k') ls [g r]) as [q ls3]. simpl in *. by subst.
Qed.

(** X10: with both networks in evaluate mode, the reconstruction of a batch
    is the reconstruction of each of its rows: row [i] of the output is
    what the networks give for row [i] alone, whatever the other rows
    and the dropout masks are. *)
Theorem evaluation_is_row_wise (enc dec : module)
    (masks_e masks_d masks_e' masks_d' : nat -> nat -> nat -> bool) (x y : matrix) :
  training enc = false -> training dec = false ->
  reconstruct enc dec masks_e masks_d x = inr y ->
  length y = length x ∧
  ∀ i r, x !! i = Some r ->
    ∃ r', y !! i = Some r' ∧ reconstruct enc dec masks_e' masks_d' [r] = inr [r'].
Proof.
  intros He Hd. unfold reconstruct. rewrite He, Hd.
  destruct (sequential false masks_e 0 (layers enc) x) as [[e|z] ls1] eqn:E1; [done|].
  simpl.
  destruct (sequential false masks_d 0 (layers dec) z) as [r2 ls2] eqn:E2. simpl.
  intros ->.
  destruct (sequential_row_wise _ masks_e' _ 0 _ _ _ _ E1) as [Hl1 H1].
  destruct (sequential_row_wise _ masks_d' _ 0 _ _ _ _ E2) as [Hl2 H2].
  split; [congruence|]. intros i r Hr.
  destruct (H1 i r Hr) as (c & Hc & Ec). destruct (H2 i c Hc) as (r' & Hy & Er).
  exists r'. split; [done|]. by rewrite Ec.
Qed.

Lemma evaluation_is_row_wise_witness :
  let enc := {| layers := encoder_layers 1 1 1 false ([[1%R]], [0%R]) ([[1%R]], [0%R]);
                training := false |} in
  let dec := {| layers := decoder_layers 1 1 1 false ([[1%R]], [0%R]) ([[1%R]], [0%R]);
                training := false |} in
  ∃ y, reconstruct enc dec (λ _ _ _, true) (λ _ _ _, true) [[1%R]; [2%R]] = inr y ∧
    length y = 2 ∧
    ∀ i r, [[1%R]; [2%R]] !! i = Some r ->
      ∃ r', y !! i = Some r' ∧
            reconstruct enc dec (λ _ _ _, false) (λ _ _ _, false) [r] = inr [r'].
Proof.
  cbv zeta.
  lazymatch goal with
  | |- ∃ y, reconstruct ?e ?d ?m1 ?m2 ?x = _ ∧ _ =>
      eexists; split; [reflexivity|];
      exact (evaluation_is_row_wise e d m1 m2 _ _ x _ eq_refl eq_refl eq_refl)
  end.
Defined.

End NetworkFacts.

(* ===================================================================== *)
(** * The training loop: batches, reports and failures *)
(* ===================================================================== *)

Module LoopFacts.
Import Torch Trainer TorchFacts TrainerFacts.

(** *** The batches of the loader *)

Lemma chunks_upto_lookup {A} (fuel size : nat) (l : list A) (i : nat) (c : list A) :
  chunks_upto fuel size l !! i = Some c -> i * size < length l.
Proof.
  revert l i. induction fuel as [|fuel IH]; intros l i; simpl; [done|].
  destruct l as [|a l']; [done|]. destruct i as [|j]; simpl.
  - intros _. lia.
  - intros H. apply IH in H. rewrite length_drop in H. simpl in H. lia.
Qed.

Lemma chunks_upto_elem {A} (fuel size : nat) (l c : list A) (a : A) :
  c ∈ chunks_upto fuel size l -> a ∈ c -> a ∈ l.
Proof.
  revert l. induction fuel as [|fuel IH]; intros l; simpl; [by intros ?%elem_of_nil|].
  destruct l as [|b l']; [by intros ?%elem_of_nil|].
  intros [->|Hc]%elem_of_cons Ha.
  - apply elem_of_take in Ha as (i & Hi & _). by eapply list_elem_of_lookup_2.
  - apply IH in Hc; [|done]. apply list_elem_of_lookup_1 in Hc as [i Hi].
    rewrite lookup_drop in Hi. by eapply list_elem_of_lookup_2.
Qed.

Lemma chunks_upto_nil {A} (fuel size : nat) : chunks_upto fuel size (@nil A) = [].
Proof. by destruct fuel. Qed.

(** The chunks are full, but for the last one, which holds the rest. *)
Lemma chunks_upto_lengths {A} (fuel size : nat) (l : list A) :
  1 < size -> length l ≤ fuel ->
  (length l `mod` size ≠ 1 -> Forall (λ c, length c ≠ 1) (chunks_upto fuel size l)) ∧
  (length l `mod` size = 1 ->
     ∃ cs c, chunks_upto fuel size l = cs ++ [[c]] ∧ Forall (λ c, length c = size) cs).
Proof.
  intros Hs. revert l. induction fuel as [|fuel IH]; intros l Hl.
  - destruct l; [|simpl in Hl; lia]. simpl.
    split; [by constructor|]. rewrite Nat.Div0.mod_0_l. done.
  - destruct l as [|a l']; simpl.
    { split; [by constructor|]. rewrite Nat.Div0.mod_0_l. done. }
    simpl in Hl.
    destruct (IH (drop size (a :: l'))) as (IH2 & IH3).
    { rewrite length_drop. simpl. lia. }
    rewrite length_drop in IH2, IH3. simpl in IH2, IH3.
    destruct (decide (S (length l') ≤ size)) as [Hle|Hgt].
    + rewrite (drop_ge (a :: l')) by (simpl; lia). rewrite chunks_upto_nil.
      rewrite (take_ge (a :: l')) by (simpl; lia).
      destruct (decide (S (length l') = size)) as [E|Hne].
      * rewrite E, Nat.Div0.mod_same. split; [|done]. intros _.
        constructor; [|constructor]. simpl. lia.
      * rewrite Nat.mod_small by lia. split.
        { intros H1. constructor; [done|constructor]. }
        intros [= E]. destruct l'; [|done].
        exists [], a. split; [done|]. constructor.
    + assert (Hmod : S (length l') `mod` size = (S (length l') - size) `mod` size).
      { replace (S (length l')) with ((S (length l') - size) + 1 * size) at 1 by lia.
        apply Nat.Div0.mod_add. }
      rewrite Hmod.
      assert (Ht : length (take size (a :: l')) = size).
      { rewrite length_take. simpl. lia. }
      split.
      * intros H1. constructor; [|by apply IH2]. rewrite Ht. lia.
      * intros H1. destruct (IH3 H1) as (cs & c & -> & Hcs).
        exists (take size (a :: l') :: cs), c. split; [done|].
        by constructor.
Qed.

Section WithBackend.

Variable B : Backend.

Local Abbreviation keeps := (keeps B).

(** *** What the steps of a batch leave alone *)

Section Frame.

Context {X : Type} (f : state B -> X).
Hypothesis f_network : ∀ n w s, f (set_network B n w s) = f s.
Hypothesis f_env : ∀ e s, f (set_env B e s) = f s.

Lemma frame_log (ev : event) : keeps f (log B ev).
Proof. apply keeps_modify. intros s. apply f_env. Qed.

Lemma frame_print (l : line) : keeps f (print B l).
Proof. apply keeps_modify. intros s. apply f_env. Qed.

Lemma frame_zero_grad (n : net_id) : keeps f (zero_grad B n).
Proof.
  apply keeps_bind; [|intros ?; apply frame_log].
  apply keeps_modify. intros s. apply f_network.
Qed.

Lemma frame_call_module (n : net_id) (x : array B) : keeps f (call_module B n x).
Proof.
  intros v s Hs. unfold call_module. destruct x as [m|t].
  - destruct (layers _) as [|[] ?]; done.
  - destruct (module_forward _ _ _ _) as [[r m'] g']. simpl.
    destruct r; by rewrite f_env, f_network, f_env.
Qed.

Lemma frame_criterion (a b : array B) : keeps f (criterion B a b).
Proof.
  unfold criterion. destruct a, b; try apply keeps_raise.
  apply keeps_bind; [apply frame_log|]. intros ?.
  destruct (mse_loss _ _); [apply keeps_raise|apply keeps_ret].
Qed.

Lemma frame_backward (l : loss_tensor B) : keeps f (backward B l).
Proof.
  apply keeps_bind; [|intros ?; apply frame_log].
  apply keeps_modify. intros s. by rewrite !f_network.
Qed.

Lemma frame_optimizer_step (n : net_id) : keeps f (optimizer_step B n).
Proof.
  apply keeps_bind; [|intros ?; apply frame_log].
  apply keeps_modify. intros s. by rewrite f_network.
Qed.

Lemma frame_reset (b : bool) : keeps f (reset B b).
Proof. apply keeps_modify. intros s. by rewrite !f_network. Qed.

Lemma frame_train_step (x t : array B) : keeps f (train_step B x t).
Proof.
  unfold train_step.
  repeat first
    [ apply keeps_ret | apply frame_zero_grad | apply frame_call_module
    | apply frame_criterion | apply frame_backward | apply frame_optimizer_step
    | (apply keeps_bind; [|intros ?]) ].
Qed.

Lemma frame_get_val_loss (x t : array B) : keeps f (get_val_loss B x t).
Proof.
  unfold get_val_loss.
  repeat first
    [ apply keeps_ret | apply frame_reset | apply frame_call_module
    | apply frame_criterion | (apply keeps_bind; [|intros ?]) ].
Qed.

Lemma frame_dataloader_iter : keeps f (dataloader_iter B).
Proof.
  intros v s Hs. unfold dataloader_iter.
  destruct (sampler _ _ _) as [order g'].
  destruct (mapM _ _); simpl; by rewrite f_env.
Qed.

(** A batch that is not due for a report keeps what a training step
    keeps. *)
Lemma frame_batch_step (p : Z) (i : nat) (batch : array B * array B) :
  report_due i p = false -> keeps f (batch_step B p i batch).
Proof.
  intros Hd. unfold batch_step. rewrite Hd.
  apply keeps_bind; [apply frame_reset|]. intros ?.
  apply keeps_bind; [apply frame_train_step|]. intros loss.
  destruct (p =? 0)%Z; [apply keeps_raise|apply keeps_ret].
Qed.

End Frame.

(** A loop keeps what its rounds keep on the elements of its list. *)
Lemma hoare_for_each_elem {A} (I : state B -> Prop) (l : list A)
    (body : A -> M B unit) :
  (∀ a, a ∈ l -> hoare B I (body a) (λ _, I) I) ->
  hoare B I (for_each B l body) (λ _, I) I.
Proof.
  induction l as [|a l' IH]; intros Hb; simpl.
  - by apply hoare_ret.
  - eapply hoare_bind; [apply Hb; by left|]. intros ?.
    apply IH. intros a' Ha'. apply Hb. by right.
Qed.

(** A loop raises when one of its rounds does, if the rounds before it
    keep what makes that round raise. *)
Lemma for_each_raises {A} (I : state B -> Prop) (l1 l2 : list A) (a : A)
    (body : A -> M B unit) :
  (∀ x, x ∈ l1 -> hoare B I (body x) (λ _, I) (λ _, True)) ->
  (∀ s, I s -> ∃ e s', body a s = Raise e s') ->
  ∀ s, I s -> ∃ e s', for_each B (l1 ++ a :: l2) body s = Raise e s'.
Proof.
  intros H1 Ha. induction l1 as [|x l1 IH]; intros s Hs; simpl.
  - rewrite run_bind. destruct (Ha s Hs) as (e & s' & ->). eauto.
  - rewrite run_bind. assert (Hx := H1 x ltac:(left) s Hs).
    destruct (body x s) as [[] s1|e s1]; [|eauto].
    apply IH; [|done]. intros y Hy. apply H1. by right.
Qed.

(** *** One pass over the loader *)

(** A batch of [n] rows taken from the matrix [tr]: the input and the
    target are the same rows. *)
Local Abbreviation batch_of tr n b :=
  (∃ rows : matrix, b = (from_numpy B rows, from_numpy B rows) ∧
                    length rows = n ∧ Forall (λ r, r ∈ tr) rows).

Lemma mapM_sample (tr : matrix) (c : list nat) :
  Forall (λ i, i < length tr) c ->
  ∃ rows, mapM (sample tr) c = Some ((λ r, (r, r)) <$> rows) ∧
          length rows = length c ∧ Forall (λ r, r ∈ tr) rows.
Proof.
  induction c as [|i c IH]; intros Hc.
  - by exists [].
  - apply Forall_cons in Hc as [Hi Hc]. destruct (IH Hc) as (rows & E & Hl & Hr).
    destruct (lookup_lt_is_Some_2 tr i Hi) as [r Er].
    exists (r :: rows). split.
    + apply mapM_Some. constructor; [unfold sample; by rewrite Er|].
      by apply mapM_Some.
    + split; [simpl; lia|]. constructor; [|done]. by eapply list_elem_of_lookup_2.
Qed.

Lemma collate_rows (rows : matrix) :
  collate B ((λ r, (r, r)) <$> rows) = (from_numpy B rows, from_numpy B rows).
Proof.
  unfold collate.
  assert (E : fst <$> ((λ r : vector, (r, r)) <$> rows) = rows ∧
              snd <$> ((λ r : vector, (r, r)) <$> rows) = rows).
  { induction rows as [|r rows [IH1 IH2]]; [done|].
    split; simpl; f_equal; assumption. }
  destruct E as [-> ->]. done.
Qed.

(** With a sampler that draws every row once, a pass over the loader
    returns the batches of the chunks of the drawn order, and changes the
    generator state only. *)
Lemma dataloader_iter_batches (s : state B) :
  shuffles B ->
  let order := (sampler B (torch_rng B (env B s)) (length (train B s))).1 in
  let g' := (sampler B (torch_rng B (env B s)) (length (train B s))).2 in
  ∃ bs, dataloader_iter B s = Ok bs (set_env B (set_torch_rng B g' (env B s)) s) ∧
        Forall2 (λ c b, batch_of (train B s) (length c) b)
                (chunks batch_size order) bs.
Proof.
  intros Hsh order g'. unfold dataloader_iter. subst order g'.
  assert (Hp := Hsh (torch_rng B (env B s)) (length (train B s))).
  destruct (sampler B _ _) as [order g']. simpl in *.
  assert (Hin : ∀ c, c ∈ chunks batch_size order ->
                     Forall (λ i, i < length (train B s)) c).
  { intros c Hc. apply Forall_forall. intros i Hi.
    assert (Ho : i ∈ order) by (by eapply chunks_upto_elem).
    rewrite Hp in Ho. apply elem_of_seq in Ho. lia. }
  assert (E : ∃ bs, mapM (λ c, collate B <$> mapM (sample (train B s)) c)
                         (chunks batch_size order) = Some bs ∧
                    Forall2 (λ c b, batch_of (train B s) (length c) b)
                            (chunks batch_size order) bs).
  { induction (chunks batch_size order) as [|c cs IH].
    - by exists [].
    - destruct IH as (bs & E & HF); [intros c' Hc'; apply Hin; by right|].
      destruct (mapM_sample (train B s) c) as (rows & Er & Hl & Hr);
        [apply Hin; by left|].
      exists ((from_numpy B rows, from_numpy B rows) :: bs). split.
      + simpl. rewrite Er. simpl. rewrite collate_rows, E. done.
      + constructor; [|done]. by exists rows. }
  destruct E as (bs & -> & HF). by exists bs.
Qed.

(** *** Reports that never come *)

Lemma report_not_due (i : nat) (p : Z) :
  (Z.of_nat i < p)%Z -> report_due i p = false.
Proof.
  intros Hi. unfold report_due. destruct i as [|j]; [done|].
  rewrite Z.mod_small by lia. simpl. destruct (Z.eqb_spec (Z.of_nat (S j)) 0); [lia|done].
Qed.

(** X11: the histories record nothing when the report period is at least
    the number of batches of an epoch (64 rows each): batch 0 never
    reports, and no later batch number reaches the period.  The default
    period of 100 so records nothing for a training set of up to 6400
    rows. *)
Theorem train_loop_records_nothing (epochs p : Z) (s : state B) :
  shuffles B ->
  (Z.of_nat (length (train B s)) <= 64 * p)%Z ->
  train_losses B (final B (train_loop B epochs p s)) = train_losses B s ∧
  val_losses B (final B (train_loop B epochs p s)) = val_losses B s.
Proof.
  intros Hsh Hp.
  set (f := λ s' : state B, (losses B s', train B s')).
  assert (Hn : ∀ n w s', f (set_network B n w s') = f s') by done.
  assert (He : ∀ e s', f (set_env B e s') = f s') by done.
  assert (H : hoare B (λ s', f s' = f s) (train_loop B epochs p)
                (λ _ s', f s' = f s) (λ s', f s' = f s)).
  { unfold train_loop. apply hoare_for_each. intros epoch.
    eapply hoare_bind; [apply (frame_print f He)|]. intros ?.
    intros s1 Hs1. rewrite run_bind.
    destruct (dataloader_iter_batches s1 Hsh) as (bs & -> & HF).
    apply Forall2_length in HF.
    apply (hoare_for_each_elem (λ s', f s' = f s)); [|done].
    intros [i b] Hib. apply elem_of_lookup_imap in Hib as (i' & b' & [= <- <-] & Hb).
    apply (frame_batch_step f Hn He). apply report_not_due.
    apply lookup_lt_Some in Hb. rewrite <- HF in Hb.
    destruct (lookup_lt_is_Some_2 _ _ Hb) as [c Hc].
    apply chunks_upto_lookup in Hc. unfold batch_size in Hc.
    assert (train B s1 = train B s) as Et by (by injection Hs1).
    rewrite Et in Hc.
    assert (length (sampler B (torch_rng B (env B s1)) (length (train B s))).1
            = length (train B s)) as El.
    { by rewrite (Hsh _ _), length_seq. }
    rewrite El in Hc. simpl. lia. }
  specialize (H s eq_refl).
  destruct (train_loop B epochs p s); simpl; by injection H as -> -> _.
Qed.

(** X12: a report period of 0 stops the loop in its first batch: the test
    [i % 0] raises after the training step of that batch has run, so a
    loop of one epoch or more over a training set that is not empty
    never returns. *)
Theorem train_loop_zero_period_raises (epochs : Z) (s : state B) :
  shuffles B -> (0 < epochs)%Z -> train B s ≠ [] ->
  (∃ e s', train_loop B epochs 0 s = Raise e s') ∧
  ∀ i batch s1,
    returned B (batch_step B 0 i batch s1) =
    match returned B (train_step B batch.1 batch.2 (final B (reset B true s1))) with
    | inl e => inl e
    | inr _ => inl ZeroDivisionError
    end.
Proof.
  intros Hsh He Ht. split.
  - unfold train_loop.
    destruct (Z.to_nat epochs) as [|k] eqn:Ek; [lia|].
    change (seq 0 (S k)) with ([] ++ 0 :: seq 1 k).
    apply (for_each_raises (λ s', train B s' = train B s)); [by intros ? ?%elem_of_nil| |done].
    intros s0 Hs0. rewrite run_bind. simpl. rewrite run_bind.
    match goal with |- context [dataloader_iter B ?s1] =>
      destruct (dataloader_iter_batches s1 Hsh) as (bs & -> & HF) end.
    simpl in HF. rewrite Hs0 in HF.
    match type of HF with Forall2 _ (chunks _ ?o) _ => set (order := o) in * end.
    assert (Hl : length order = length (train B s)).
    { unfold order. by rewrite (Hsh _ _), length_seq. }
    unfold chunks in HF. destruct order as [|a order'].
    { destruct (train B s); [done|simpl in Hl; lia]. }
    simpl in HF. apply Forall2_cons_inv_l in HF as (b & bs' & _ & _ & ->).
    simpl. rewrite run_bind.
    unfold batch_step at 1. rewrite run_bind, run_reset, run_bind.
    destruct (train_step B _ _ _) as [loss s2|e s2]; eauto.
  - intros i batch s1. unfold batch_step. rewrite run_bind, run_reset, run_bind.
    by destruct (train_step B _ _ _).
Qed.

End WithBackend.

Lemma toy_backend_shuffles : shuffles toy_backend.
Proof. intros g n. reflexivity. Qed.

Lemma train_loop_records_nothing_witness :
  train_losses toy_backend (final toy_backend (train_loop toy_backend 1 2 toy_state)) = [] ∧
  val_losses toy_backend (final toy_backend (train_loop toy_backend 1 2 toy_state)) = [].
Proof.
  apply (train_loop_records_nothing toy_backend 1 2 toy_state toy_backend_shuffles).
  simpl. lia.
Defined.

Lemma train_loop_zero_period_raises_witness :
  (∃ e s', train_loop toy_backend 1 0 toy_state = Raise e s') ∧
  ∀ i batch s1,
    returned toy_backend (batch_step toy_backend 0 i batch s1) =
    match returned toy_backend
            (train_step toy_backend batch.1 batch.2
               (final toy_backend (reset toy_backend true s1))) with
    | inl e => inl e
    | inr _ => inl ZeroDivisionError
    end.
Proof.
  apply (train_loop_zero_period_raises toy_backend 1 toy_state toy_backend_shuffles);
    [lia | discriminate].
Defined.

End LoopFacts.

(* ===================================================================== *)
(** * The loader: what an epoch reads *)
(* ===================================================================== *)

Module LoaderFacts.
Import Torch Trainer TorchFacts TrainerFacts LoopFacts.

(** *** Cutting an order into batches *)

(** Chunk [i] is the next [size] elements from position [i * size]. *)
Lemma chunks_upto_take {A} (fuel size : nat) (l : list A) (i : nat) (c : list A) :
  chunks_upto fuel size l !! i = Some c -> c = take size (drop (i * size) l).
Proof.
  revert l i. induction fuel as [|fuel IH]; intros l i; simpl; [done|].
  destruct l as [|a l']; [done|]. destruct i as [|j].
  - by intros [= <-].
  - simpl lookup. intros H. apply IH in H. rewrite drop_drop in H.
    by replace (S j * size) with (size + j * size) by lia.
Qed.

(** The chunks, one after the other, are the list. *)
Lemma chunks_upto_join {A} (fuel size : nat) (l : list A) :
  0 < size -> length l ≤ fuel -> mjoin (chunks_upto fuel size l) = l.
Proof.
  intros Hs. revert l. induction fuel as [|fuel IH]; intros l Hl.
  - by destruct l; [|simpl in Hl; lia].
  - destruct l as [|a l']; [done|].
    change (chunks_upto (S fuel) size (a :: l'))
      with (take size (a :: l') :: chunks_upto fuel size (drop size (a :: l'))).
    simpl mjoin. rewrite IH; [apply take_drop|].
    rewrite length_drop. simpl in *. lia.
Qed.

(** There are [ceil (n / size)] chunks. *)
Lemma chunks_upto_length {A} (fuel size : nat) (l : list A) :
  0 < size -> length l ≤ fuel ->
  length (chunks_upto fuel size l) = (length l + (size - 1)) / size.
Proof.
  intros Hs. revert l. induction fuel as [|fuel IH]; intros l Hl.
  - destruct l; [|simpl in Hl; lia]. simpl. symmetry. apply Nat.div_small. lia.
  - destruct l as [|a l']; [simpl; symmetry; apply Nat.div_small; lia|].
    change (chunks_upto (S fuel) size (a :: l'))
      with (take size (a :: l') :: chunks_upto fuel size (drop size (a :: l'))).
    simpl length. rewrite IH by (rewrite length_drop; simpl in *; lia).
    rewrite length_drop. simpl length.
    destruct (decide (S (length l') ≤ size)) as [Hle|Hgt].
    + replace (S (length l') - size) with 0 by lia.
      rewrite (Nat.div_small (0 + (size - 1))) by lia.
      apply (Nat.div_unique _ _ _ (S (length l') - 1)); lia.
    + replace (S (length l') + (size - 1))
        with ((S (length l') - size + (size - 1)) + 1 * size) by lia.
      rewrite Nat.div_add by lia. lia.
Qed.

(** *** Reading the rows of an order *)

Lemma Forall2_concat {X Y} (R : X -> Y -> Prop) (xs : list (list X))
    (ys : list (list Y)) :
  Forall2 (Forall2 R) xs ys -> Forall2 R (mjoin xs) (mjoin ys).
Proof. induction 1; simpl; [constructor|]. by apply Forall2_app. Qed.

Lemma mapM_sample_rows (tr : matrix) (c : list nat) :
  Forall (λ i, i < length tr) c ->
  ∃ rows, mapM (sample tr) c = Some ((λ r, (r, r)) <$> rows) ∧
          Forall2 (λ i r, tr !! i = Some r) c rows.
Proof.
  induction c as [|i c IH]; intros Hc.
  - by exists [].
  - apply Forall_cons in Hc as [Hi Hc]. destruct (IH Hc) as (rows & E & HF).
    destruct (lookup_lt_is_Some_2 tr i Hi) as [r Er].
    exists (r :: rows). split; [|by constructor].
    apply mapM_Some. constructor; [unfold sample; by rewrite Er|].
    by apply mapM_Some.
Qed.

Lemma rows_of_order (tr : matrix) (o : list nat) (rs : matrix) :
  Forall2 (λ i r, tr !! i = Some r) o rs -> rs = omap (λ i, tr !! i) o.
Proof. induction 1 as [|i r o rs Hi _ IH]; simpl; [done|]. by rewrite Hi, IH. Qed.

Lemma rows_in_order {A} (pre l : list A) :
  omap (λ i, (pre ++ l) !! i) (seq (length pre) (length l)) = l.
Proof.
  revert pre. induction l as [|a l IH]; intros pre; simpl; [done|].
  rewrite list_lookup_middle by done. f_equal.
  specialize (IH (pre ++ [a])). rewrite length_app, <- app_assoc in IH. simpl in IH.
  by rewrite Nat.add_1_r in IH.
Qed.

Section WithBackend.

Variable B : Backend.

(** X13: one pass over the loader reads every training row exactly once:
    the batches, one after the other, are a permutation of the training
    rows; there are [ceil (n / 64)] of them, batch [i] holding
    [min 64 (n - 64 i)] rows, and the input and the target of a batch are
    the same rows.  The pass changes the generator state only. *)
Theorem epoch_reads_every_row_once (s : state B) :
  shuffles B ->
  let n := length (train B s) in
  ∃ (rowss : list matrix) g',
    dataloader_iter B s =
      Ok ((λ rows, (from_numpy B rows, from_numpy B rows)) <$> rowss)
         (set_env B (set_torch_rng B g' (env B s)) s) ∧
    mjoin rowss ≡ₚ train B s ∧
    length rowss = (n + 63) / 64 ∧
    ∀ i rows, rowss !! i = Some rows -> length rows = 64 `min` (n - 64 * i).
Proof.
  intros Hsh n. unfold dataloader_iter.
  assert (Hp := Hsh (torch_rng B (env B s)) n).
  destruct (sampler B _ _) as [order g']. simpl in Hp.
  assert (Hl : length order = n) by (by rewrite Hp, length_seq).
  assert (Hin : ∀ c, c ∈ chunks batch_size order -> Forall (λ i, i < n) c).
  { intros c Hc. apply Forall_forall. intros i Hi.
    assert (Ho : i ∈ order) by (by eapply chunks_upto_elem).
    rewrite Hp in Ho. apply elem_of_seq in Ho. lia. }
  assert (E : ∃ rowss,
             mapM (λ c, collate B <$> mapM (sample (train B s)) c)
                  (chunks batch_size order)
             = Some ((λ rows, (from_numpy B rows, from_numpy B rows)) <$> rowss) ∧
             Forall2 (Forall2 (λ i r, train B s !! i = Some r))
                     (chunks batch_size order) rowss).
  { induction (chunks batch_size order) as [|c cs IH].
    - by exists [].
    - destruct IH as (rowss & E & HF); [intros c' Hc'; apply Hin; by right|].
      destruct (mapM_sample_rows (train B s) c) as (rows & Er & Hr);
        [apply Hin; by left|].
      exists (rows :: rowss). split; [|by constructor].
      simpl. rewrite Er. simpl. rewrite collate_rows, E. done. }
  destruct E as (rowss & -> & HF). exists rowss, g'. split; [done|].
  assert (Hj : Forall2 (λ i r, train B s !! i = Some r) order (mjoin rowss)).
  { rewrite <- (chunks_upto_join (length order) batch_size order) at 1;
      [|unfold batch_size; lia|done].
    by apply Forall2_concat. }
  split; [|split].
  - rewrite (rows_of_order _ _ _ Hj), Hp.
    assert (E := rows_in_order [] (train B s)). simpl in E. fold n in E.
    by rewrite E.
  - rewrite <- (Forall2_length _ _ _ HF). unfold chunks.
    rewrite chunks_upto_length by (unfold batch_size; lia). by rewrite Hl.
  - intros i rows Hi.
    destruct (Forall2_lookup_r _ _ _ _ _ HF Hi) as (c & Ec & Hc).
    rewrite <- (Forall2_length _ _ _ Hc).
    apply chunks_upto_take in Ec as ->.
    rewrite length_take, length_drop, Hl. unfold batch_size. lia.
Qed.

End WithBackend.

Lemma epoch_reads_every_row_once_witness :
  let n := length (train toy_backend toy_state) in
  ∃ (rowss : list matrix) g',
    dataloader_iter toy_backend toy_state =
      Ok ((λ rows, (from_numpy toy_backend rows, from_numpy toy_backend rows)) <$> rowss)
         (set_env toy_backend
            (set_torch_rng toy_backend g' (env toy_backend toy_state)) toy_state) ∧
    mjoin rowss ≡ₚ train toy_backend toy_state ∧
    length rowss = (n + 63) / 64 ∧
    ∀ i rows, rowss !! i = Some rows -> length rows = 64 `min` (n - 64 * i).
Proof. exact (epoch_reads_every_row_once toy_backend toy_state toy_backend_shuffles). Defined.

End LoaderFacts.

(* ===================================================================== *)
(** * The reports: how many losses are recorded *)
(* ===================================================================== *)

Module ReportFacts.
Import Torch Trainer TorchFacts TrainerFacts LoopFacts LoaderFacts.

(** *** Counting the batches that report *)

Lemma sum_list_append (l k : list nat) : sum_list (l ++ k) = sum_list l + sum_list k.
Proof. induction l as [|y l IH]; simpl; lia. Qed.

Lemma div_step (m p : nat) :
  0 < p -> 0 < m ->
  m / p = (m - 1) / p + (if decide (m `mod` p = 0) then 1 else 0).
Proof.
  intros Hp Hm.
  assert (H1 := Nat.div_mod (m - 1) p ltac:(lia)).
  assert (H2 := Nat.mod_upper_bound (m - 1) p ltac:(lia)).
  set (q := (m - 1) / p) in *. set (r := (m - 1) `mod` p) in *.
  destruct (decide (r + 1 = p)) as [E|E].
  - rewrite decide_True by (symmetry; apply (Nat.mod_unique m p (q + 1) 0); lia).
    symmetry. apply (Nat.div_unique m p (q + 1) 0); lia.
  - assert (Em : m `mod` p = r + 1)
      by (symmetry; apply (Nat.mod_unique m p q (r + 1)); lia).
    rewrite decide_False by lia.
    rewrite Nat.add_0_r. symmetry. apply (Nat.div_unique m p q (r + 1)); lia.
Qed.

Lemma report_due_mod (i : nat) (p : Z) :
  (0 < p)%Z -> 0 < i ->
  report_due i p = bool_decide (i `mod` Z.to_nat p = 0).
Proof.
  intros Hp Hi. unfold report_due.
  destruct (Nat.eqb_spec i 0) as [?|_]; [lia|]. rewrite andb_true_r.
  assert (E : (Z.of_nat i `mod` p)%Z = Z.of_nat (i `mod` Z.to_nat p)).
  { rewrite Nat2Z.inj_mod, Z2Nat.id by lia. done. }
  rewrite E. case_bool_decide as H.
  - rewrite H. done.
  - apply Z.eqb_neq. lia.
Qed.

(** Of the batches [0 .. m-1], the [floor ((m - 1) / p)] batches whose
    number is a multiple of [p], 0 excepted, report. *)
Lemma report_count (m : nat) (p : Z) :
  (0 < p)%Z ->
  sum_list ((λ i, if report_due i p then 1 else 0) <$> seq 0 m)
  = (m - 1) / Z.to_nat p.
Proof.
  intros Hp. induction m as [|m IH].
  { simpl. by rewrite Nat.Div0.div_0_l. }
  rewrite seq_S, fmap_app, sum_list_append, IH. simpl. rewrite Nat.add_0_r.
  destruct m as [|m].
  { assert (report_due 0 p = false) as -> by apply andb_false_r.
    simpl. by rewrite Nat.Div0.div_0_l. }
  rewrite report_due_mod by lia.
  replace (S m - 0) with (S m) by lia.
  rewrite (div_step (S m) (Z.to_nat p)) by lia.
  by case_bool_decide; [rewrite decide_True|rewrite decide_False].
Qed.

Section WithBackend.

Variable B : Backend.

(** The loss histories and the training rows. *)
Local Abbreviation view :=
  (λ s : state B, (train_losses B s, val_losses B s, train B s)).

Lemma keeps_pred {A X} (f : state B -> X) (m : M B A) (P : X -> Prop) :
  keeps B f m -> hoare B (λ s, P (f s)) m (λ _ s, P (f s)) (λ _, True).
Proof.
  intros Hk s Hs. specialize (Hk (f s) s eq_refl).
  destruct (m s) as [a s'|e s']; [by rewrite Hk|done].
Qed.

Section Growth.

Variables (tl0 vl0 : list scalar) (tr0 : matrix).

(** Both histories have grown by [k] entries and the training rows are
    in place. *)
Local Abbreviation grown k :=
  (λ v : list scalar * list scalar * matrix,
     ∃ tl vl, v = (tl0 ++ tl, vl0 ++ vl, tr0) ∧ length tl = k ∧ length vl = k).

Lemma batch_step_grows (p : Z) (i : nat) (b : array B * array B) (k : nat) :
  hoare B (λ s, grown k (view s)) (batch_step B p i b)
    (λ _ s, grown (k + (if report_due i p then 1 else 0)) (view s)) (λ _, True).
Proof.
  unfold batch_step.
  eapply hoare_bind; [apply (keeps_pred view _ (grown k)), frame_reset; done|].
  intros ?.
  eapply hoare_bind; [apply (keeps_pred view _ (grown k)), frame_train_step; done|].
  intros loss.
  destruct (p =? 0)%Z; [by intros s Hs|].
  destruct (report_due i p).
  - eapply hoare_bind; [apply (keeps_pred view _ (grown k)), keeps_gets|]. intros v.
    eapply hoare_bind;
      [apply (keeps_pred view _ (grown k)), frame_get_val_loss; done|].
    intros val_loss.
    eapply hoare_bind; [apply (keeps_pred view _ (grown k)), frame_print; done|].
    intros ? s (tl & vl & E & Hl & Hv). simpl. injection E as E1 E2 E3.
    exists (tl ++ [loss]), (vl ++ [val_loss]).
    rewrite E1, E2, E3, !length_app, <- !app_assoc. simpl. split; [done|lia].
  - apply hoare_ret. intros s Hs. by rewrite Nat.add_0_r.
Qed.

Lemma batches_grow (p : Z) (l : list (nat * (array B * array B))) (k : nat) :
  hoare B (λ s, grown k (view s))
    (for_each B l (λ ib, batch_step B p ib.1 ib.2))
    (λ _ s, grown (k + sum_list ((λ ib, if report_due ib.1 p then 1 else 0) <$> l))
                  (view s))
    (λ _, True).
Proof.
  revert k. induction l as [|[i b] l IH]; intros k; simpl.
  - apply hoare_ret. intros s Hs. by rewrite Nat.add_0_r.
  - eapply hoare_bind; [apply batch_step_grows|]. intros ?. simpl.
    eapply hoare_weaken;
      [apply (IH (k + (if report_due i p then 1 else 0)))|by intros s Hs| |done].
    intros ? s Hs. by rewrite Nat.add_assoc.
Qed.

(** An epoch appends one entry to each history for each batch that
    reports. *)
Lemma epoch_grows (p epochs : Z) (epoch k : nat) :
  shuffles B -> (0 < p)%Z ->
  hoare B (λ s, grown k (view s))
    (print B (EpochLine (Z.of_nat epoch + 1) epochs);;
     batches ← dataloader_iter B;
     for_each B (imap pair batches) (λ ib, batch_step B p ib.1 ib.2))
    (λ _ s, grown (k + ((length tr0 + 63) / 64 - 1) / Z.to_nat p) (view s))
    (λ _, True).
Proof.
  intros Hsh Hp s Hs. rewrite run_bind. simpl. rewrite run_bind.
  match goal with |- context [dataloader_iter B ?s1] =>
    destruct (dataloader_iter_batches B s1 Hsh) as (bs & -> & HF);
    assert (H := batches_grow p (imap pair bs) k
                   (set_env B (set_torch_rng B
                      (sampler B (torch_rng B (env B s1)) (length (train B s1))).2
                      (env B s1)) s1) Hs)
  end.
  destruct (for_each B _ _ _) as [[] s3|]; [|done].
  assert (Et : train B s = tr0) by (by destruct Hs as (? & ? & [= _ _ ->] & _)).
  assert (El : length bs = (length tr0 + 63) / 64).
  { rewrite <- (Forall2_length _ _ _ HF). unfold chunks. simpl.
    rewrite chunks_upto_length by (unfold batch_size; lia).
    by rewrite (Hsh _ _), length_seq, Et. }
  assert (Es : (λ ib : nat * (array B * array B), if report_due ib.1 p then 1 else 0)
               <$> imap pair bs
               = (λ i, if report_due i p then 1 else 0) <$> seq 0 (length bs)).
  { rewrite fmap_imap.
    apply (imap_seq_0 bs (λ i, if report_due i p then 1 else 0)). }
  by rewrite Es, report_count, El in H.
Qed.

Lemma epochs_grow {A} (l : list A) (body : A -> M B unit) (r k : nat) :
  (∀ a k, hoare B (λ s, grown k (view s)) (body a)
            (λ _ s, grown (k + r) (view s)) (λ _, True)) ->
  hoare B (λ s, grown k (view s)) (for_each B l body)
    (λ _ s, grown (k + length l * r) (view s)) (λ _, True).
Proof.
  intros Hb. revert k. induction l as [|a l IH]; intros k; simpl.
  - apply hoare_ret. intros s Hs. by rewrite Nat.add_0_r.
  - eapply hoare_bind; [apply Hb|]. intros ?.
    eapply hoare_weaken; [apply (IH (k + r))|by intros s Hs| |done].
    intros ? s Hs. by rewrite Nat.add_assoc.
Qed.

End Growth.

(** X14: a [train_loop] that returns has appended, to each of the two
    histories, one entry for each batch that reports and has kept what
    was recorded before: with [n] training rows an epoch has
    [m = ceil (n / 64)] batches, of which the [floor ((m - 1) / p)] whose
    number is a multiple of the period, batch 0 excepted, report. *)
Theorem train_loop_report_count (epochs p : Z) (s s' : state B) :
  shuffles B -> (0 < p)%Z ->
  train_loop B epochs p s = Ok tt s' ->
  let m := (length (train B s) + 63) / 64 in
  ∃ tl vl,
    train_losses B s' = train_losses B s ++ tl ∧
    val_losses B s' = val_losses B s ++ vl ∧
    length tl = Z.to_nat epochs * ((m - 1) / Z.to_nat p) ∧
    length vl = Z.to_nat epochs * ((m - 1) / Z.to_nat p).
Proof.
  intros Hsh Hp E m.
  assert (H := epochs_grow (train_losses B s) (val_losses B s) (train B s)
                 (seq 0 (Z.to_nat epochs))
                 (λ epoch, print B (EpochLine (Z.of_nat epoch + 1) epochs);;
                    batches ← dataloader_iter B;
                    for_each B (imap pair batches) (λ ib, batch_step B p ib.1 ib.2))
                 ((m - 1) / Z.to_nat p) 0).
  unfold train_loop in E. specialize (H ltac:(intros; by apply epoch_grows) s).
  rewrite E in H. destruct H as (tl & vl & [= -> -> _] & Hl & Hv).
  { exists [], []. by rewrite !app_nil_r. }
  rewrite length_seq in Hl, Hv. by exists tl, vl.
Qed.

End WithBackend.

Lemma train_loop_report_count_witness :
  let s' := final toy_backend (train_loop toy_backend 1 1 toy_state) in
  let m := (length (train toy_backend toy_state) + 63) / 64 in
  ∃ tl vl,
    train_losses toy_backend s' = train_losses toy_backend toy_state ++ tl ∧
    val_losses toy_backend s' = val_losses toy_backend toy_state ++ vl ∧
    length tl = Z.to_nat 1 * ((m - 1) / Z.to_nat 1) ∧
    length vl = Z.to_nat 1 * ((m - 1) / Z.to_nat 1).
Proof.
  apply (train_loop_report_count toy_backend 1 1 toy_state _ toy_backend_shuffles).
  - lia.
  - vm_compute. reflexivity.
Defined.

End ReportFacts.

(* ===================================================================== *)
(** * Checkpoints: saving and loading a network *)
(* ===================================================================== *)

Module CheckpointFacts.
Import Torch Trainer TorchFacts TrainerFacts.

(** *** The keys of a parameter map name one tensor each *)

(** A string without a dot: it cannot be cut at one. *)
Local Abbreviation dotless d := (∀ a b : string, d ≠ a +:+ String "." b).

Lemma dotless_nil : dotless "".
Proof. intros [|c a] b; discriminate. Qed.

Lemma dotless_cons (c : ascii) (d : string) :
  c ≠ "."%char -> dotless d -> dotless (String c d).
Proof.
  intros Hc Hd [|c' a] b; simpl; intros [= -> E]; [done|]. by eapply Hd.
Qed.

Lemma dotless_app (d1 d2 : string) : dotless d1 -> dotless d2 -> dotless (d1 +:+ d2).
Proof.
  revert d2. induction d1 as [|c d1 IH]; intros d2 H1 H2; [done|]. simpl.
  apply dotless_cons.
  - intros ->. by apply (H1 "" d1).
  - apply IH; [|done]. intros a b ->. by apply (H1 (String c a) b).
Qed.

Lemma string_app_cons (d : string) (c : ascii) (s : string) :
  d +:+ String c s = (d +:+ String c "") +:+ s.
Proof.
  induction d as [|c' d IH]; [done|].
  change (String c' (d +:+ String c s) = String c' ((d +:+ String c "") +:+ s)).
  by rewrite <- IH.
Qed.

Lemma pretty_N_char_no_dot (x : N) : pretty_N_char x ≠ "."%char.
Proof. unfold pretty_N_char. by repeat case_match. Qed.

Lemma pretty_N_go_dotless (x : N) (s : string) :
  ∃ d, pretty_N_go x s = d +:+ s ∧ dotless d.
Proof.
  revert s. induction (N.lt_wf_0 x) as [x _ IH]; intros s.
  assert (x = 0 ∨ 0 < x)%N as [->|Hx] by lia.
  - exists "". split; [done|apply dotless_nil].
  - rewrite pretty_N_go_step by done.
    destruct (IH (x `div` 10)%N (N.div_lt x 10 Hx eq_refl)
                 (String (pretty_N_char (x `mod` 10)) s)) as (d & -> & Hd).
    exists (d +:+ String (pretty_N_char (x `mod` 10)) ""). split.
    + apply string_app_cons.
    + apply dotless_app; [done|].
      apply dotless_cons; [apply pretty_N_char_no_dot|apply dotless_nil].
Qed.

Lemma pretty_nat_dotless (i : nat) : dotless (pretty i).
Proof.
  unfold pretty, pretty_nat, pretty, pretty_N.
  case_decide.
  - apply dotless_cons; [done|apply dotless_nil].
  - destruct (pretty_N_go_dotless (N.of_nat i) "") as (d & -> & Hd).
    apply dotless_app; [done|apply dotless_nil].
Qed.

Lemma cut_at_dot (d1 d2 r1 r2 : string) :
  dotless d1 -> dotless d2 ->
  d1 +:+ String "." r1 = d2 +:+ String "." r2 -> d1 = d2 ∧ r1 = r2.
Proof.
  revert d2. induction d1 as [|c d1 IH]; intros [|c' d2] H1 H2; simpl.
  - by intros [= ->].
  - intros [= <- E]. by destruct (H2 "" d2).
  - intros [= -> E]. by destruct (H1 "" d1).
  - intros [= -> E]. destruct (IH d2) as [-> ->]; [| |done|done].
    + intros a b ->. by apply (H1 (String c' a) b).
    + intros a b ->. by apply (H2 (String c' a) b).
Qed.

Lemma app_cancel (p a b : string) : p +:+ a = p +:+ b -> a = b.
Proof. induction p as [|c p IH]; simpl; [done|]. intros [= E]. by apply IH. Qed.

Lemma key_inj (prefix : string) (i j : nat) (name name' : string) :
  key prefix i name = key prefix j name' -> i = j ∧ name = name'.
Proof.
  unfold key. intros E%app_cancel. simpl in E. injection E as E.
  apply cut_at_dot in E as [Ei ->]; [|apply pretty_nat_dotless..].
  split; [|done]. by apply (inj pretty).
Qed.

Lemma elem_of_entries (prefix : string) (ls : list layer) (k : string) (v : tval) :
  (k, v) ∈ entries prefix ls ↔
  ∃ i l name, ls !! i = Some l ∧ (name, v) ∈ layer_entries l ∧ k = key prefix i name.
Proof.
  unfold entries. rewrite list_elem_of_join. split.
  - intros (es & Hin & Hes). apply elem_of_lookup_imap in Hes as (i & l & -> & Hl).
    apply list_elem_of_fmap in Hin as ([name t] & [= -> ->] & Hin).
    by exists i, l, name.
  - intros (i & l & name & Hl & Hin & ->).
    exists ((λ e : string * tval, (key prefix i e.1, e.2)) <$> layer_entries l). split.
    + apply list_elem_of_fmap. exists (name, v). by split.
    + apply elem_of_lookup_imap. by exists i, l.
Qed.

(** The names of the tensors of one layer are distinct. *)
Lemma layer_entries_functional (l : layer) (name : string) (v v' : tval) :
  (name, v) ∈ layer_entries l -> (name, v') ∈ layer_entries l -> v = v'.
Proof.
  destruct l; simpl; intros H H';
    repeat (apply elem_of_cons in H as [H|H]);
    repeat (apply elem_of_cons in H' as [H'|H']);
    try (by apply elem_of_nil in H); try (by apply elem_of_nil in H');
    congruence.
Qed.

(** Looking a tensor up in a saved parameter map gives the tensor of
    that name in the layer at that position. *)
Lemma state_dict_lookup (prefix : string) (ls : list layer) (i : nat) (l : layer)
    (name : string) (v : tval) :
  ls !! i = Some l -> (name, v) ∈ layer_entries l ->
  state_dict prefix ls !! key prefix i name = Some v.
Proof.
  intros Hl Hin. unfold state_dict. apply elem_of_list_to_map_1'.
  - intros y Hy. apply elem_of_entries in Hy as (j & l' & name' & Hl' & Hin' & E).
    apply key_inj in E as [<- <-]. assert (l' = l) as -> by congruence.
    by eapply layer_entries_functional.
  - apply elem_of_entries. by exists i, l, name.
Qed.

Lemma same_architecture_shape (w w' : matrix) :
  length <$> w = length <$> w' -> shape (T2 w) = shape (T2 w').
Proof.
  intros E. simpl. f_equal.
  - by rewrite <- (length_fmap length w), E, length_fmap.
  - f_equal. destruct w, w'; try done. by injection E.
Qed.

Lemma load_layer_saved (prefix : string) (saved : list layer) (i : nat)
    (old cur : layer) :
  saved !! i = Some old -> same_architecture old cur ->
  load_layer (state_dict prefix saved) prefix i cur = (old, true).
Proof.
  intros Hi Ha.
  assert (Hlook : ∀ name v, (name, v) ∈ layer_entries old ->
            state_dict prefix saved !! key prefix i name = Some v).
  { intros name v. by apply state_dict_lookup. }
  destruct old as [inf w b|w b m v nbt| |p|], cur as [inf' w' b'|w' b' m' v' nbt'| |p'|];
    simpl in Ha; try done.
  - destruct Ha as (-> & Hw & Hb). simpl. unfold load_tensor.
    rewrite (Hlook "weight" (T2 w)) by (simpl; set_solver).
    rewrite (Hlook "bias" (T1 b)) by (simpl; set_solver).
    rewrite decide_True by (by apply same_architecture_shape).
    rewrite decide_True by (simpl; congruence). done.
  - destruct Ha as (Hw & Hb & Hm & Hv). simpl. unfold load_tensor.
    rewrite (Hlook "weight" (T1 w)) by (simpl; set_solver).
    rewrite (Hlook "bias" (T1 b)) by (simpl; set_solver).
    rewrite (Hlook "running_mean" (T1 m)) by (simpl; set_solver).
    rewrite (Hlook "running_var" (T1 v)) by (simpl; set_solver).
    rewrite (Hlook "num_batches_tracked" (T0 nbt)) by (simpl; set_solver).
    rewrite !decide_True by (simpl; congruence). done.
  - by subst.
Qed.

(** Loading what a network of the same architecture saved replaces every
    tensor: the layers become the saved ones. *)
Lemma load_state_dict_saved (prefix : string) (saved cur : list layer) :
  Forall2 same_architecture saved cur ->
  load_state_dict prefix cur (state_dict prefix saved) = (saved, true).
Proof.
  intros Ha. unfold load_state_dict.
  assert (E : imap (load_layer (state_dict prefix saved) prefix) cur
              = (λ l, (l, true)) <$> saved).
  { apply list_eq. intros i. rewrite list_lookup_imap, list_lookup_fmap.
    destruct (cur !! i) as [c|] eqn:Ec; simpl.
    - destruct (Forall2_lookup_r _ _ _ _ _ Ha Ec) as (o & Eo & Hoc).
      rewrite Eo. simpl. f_equal. by apply load_layer_saved.
    - apply lookup_ge_None in Ec. rewrite <- (Forall2_length _ _ _ Ha) in Ec.
      by rewrite lookup_ge_None_2. }
  rewrite E. f_equal.
  - rewrite <- list_fmap_compose. apply list_fmap_id.
  - apply forallb_forall. intros [l b] Hin.
    apply in_map_iff in Hin as (? & [= <- <-] & _). done.
Qed.

Section WithBackend.

Variable B : Backend.

(** X15: [save_encoder] followed by [load_encoder] restores the encoder:
    whatever happened to the weights and the running statistics in
    between, as long as the file is still there and the encoder still
    has the architecture it was saved with, [load_encoder] returns and
    the layers of the encoder are the saved ones again; the mode flag,
    the gradients, the optimizer, the decoder and the files do not
    change. *)
Theorem save_then_load_encoder (s s1 s2 : state B) :
  save_encoder B s = Ok tt s1 ->
  files B (env B s2) !! encoder_checkpoint = files B (env B s1) !! encoder_checkpoint ->
  Forall2 same_architecture (layers (net B (encoder B s)))
                            (layers (net B (encoder B s2))) ->
  ∃ s3, load_encoder B s2 = Ok tt s3 ∧
        layers (net B (encoder B s3)) = layers (net B (encoder B s)) ∧
        training (net B (encoder B s3)) = training (net B (encoder B s2)) ∧
        grad B (encoder B s3) = grad B (encoder B s2) ∧
        optimizer B (encoder B s3) = optimizer B (encoder B s2) ∧
        decoder B s3 = decoder B s2 ∧ env B s3 = env B s2.
Proof.
  intros Hsave Hfile Ha.
  assert (Hf : files B (env B s1) !! encoder_checkpoint =
               Some (state_dict "encoder" (layers (net B (encoder B s))))).
  { unfold save_encoder, save_network in Hsave.
    destruct (checkpoint_dir B (env B s)); [|done].
    injection Hsave as <-. simpl. by rewrite lookup_insert_eq. }
  unfold load_encoder, load_network. rewrite Hfile, Hf.
  change (attribute Enc) with "encoder".
  change (get_network B Enc s2) with (encoder B s2).
  rewrite (load_state_dict_saved "encoder" _ _ Ha).
  eexists. split; [reflexivity|]. by split_and!.
Qed.

End WithBackend.

Lemma save_then_load_encoder_witness :
  let newer := encoder_layers 1 1 1 false ([[2%R]], [3%R]) ([[4%R]], [5%R]) in
  let s1 := final toy_backend (save_encoder toy_backend toy_state) in
  let s2 := set_network toy_backend Enc (toy_network newer) s1 in
  ∃ s3, load_encoder toy_backend s2 = Ok tt s3 ∧
        layers (net toy_backend (encoder toy_backend s3)) =
          layers (net toy_backend (encoder toy_backend toy_state)) ∧
        training (net toy_backend (encoder toy_backend s3)) =
          training (net toy_backend (encoder toy_backend s2)) ∧
        grad toy_backend (encoder toy_backend s3) = grad toy_backend (encoder toy_backend s2) ∧
        optimizer toy_backend (encoder toy_backend s3) =
          optimizer toy_backend (encoder toy_backend s2) ∧
        decoder toy_backend s3 = decoder toy_backend s2 ∧
        env toy_backend s3 = env toy_backend s2.
Proof.
  apply (save_then_load_encoder toy_backend toy_state
           (final toy_backend (save_encoder toy_backend toy_state))
           (set_network toy_backend Enc
              (toy_network (encoder_layers 1 1 1 false ([[2%R]], [3%R]) ([[4%R]], [5%R])))
              (final toy_backend (save_encoder toy_backend toy_state))));
    [reflexivity | reflexivity |].
  simpl. repeat constructor.
Defined.

End CheckpointFacts.

(* ===================================================================== *)
(** * The constructor *)
(* ===================================================================== *)

Module ConstructorFacts.
Import Numpy Torch Trainer SplitterFacts SplitterEdges TorchFacts TrainerFacts.

(** *** The split of the constructor *)

Lemma elem_of_select {A} (mask : list bool) (o : list A) (a : A) :
  a ∈ select mask o -> a ∈ o.
Proof.
  revert o. induction mask as [|m mask IH]; intros [|x o]; simpl;
    try (by intros H%elem_of_nil).
  destruct m.
  - intros [->|H]%elem_of_cons; [by left|right; by apply IH].
  - intros H. right. by apply IH.
Qed.

(** For a fraction in [0, 1) the indices of [get_cv_idxs] are entries of
    the permutation, so the split that follows finds them in range, and
    they are fewer than the rows: some row is left for training. *)
Lemma init_split_returns (G : Splitter.Generator) {A} (data : list A)
    (validation_perc : Q) (g : Splitter.rng G) :
  Splitter.permutes G ->
  0 < length data -> (0 <= validation_perc)%Q -> (validation_perc < 1)%Q ->
  ∃ val_idxs mask g',
    Splitter.init_split G data validation_perc g =
      Some (val_idxs, select mask data, select (invert mask) data, g') ∧
    length mask = length data ∧
    length (select mask data) < length data.
Proof.
  intros HG Hn H0 H1. unfold Splitter.init_split, Splitter.get_cv_idxs.
  change (Splitter.valid_seed 0) with true. cbv iota.
  destruct (n_val_bounds validation_perc (length data) H0 H1) as [Hq Hb].
  assert (Hlt : (Qfloor (validation_perc * inject_Z (Z.of_nat (length data)))
                 < Z.of_nat (length data))%Z).
  { rewrite Zlt_Qlt. eapply Qle_lt_trans; [apply Qfloor_le|].
    rewrite <- (Qmult_1_l (inject_Z (Z.of_nat (length data)))) at 2.
    apply Qmult_lt_compat_r; [|done]. rewrite <- (Zlt_Qlt 0). lia. }
  assert (Hp := HG (Splitter.np_random_seed G 0) (length data)).
  destruct (Splitter.np_random_permutation G _ _) as [perm g2]. simpl in Hp.
  assert (Hlen : length perm = length data).
  { by rewrite Hp, length_fmap, length_seq. }
  rewrite py_int_floor by done. rewrite Z.mul_0_l.
  rewrite slice_prefix by (rewrite Hlen; lia).
  set (idxs := take _ perm). simpl.
  assert (Hli : length idxs < length data).
  { unfold idxs. rewrite length_take. lia. }
  rewrite split_by_idx_single.
  destruct (mask_set_in_range idxs (replicate (length data) false))
    as (mask & -> & Hl & Hm).
  { intros i Hi. rewrite length_replicate. unfold idxs in Hi.
    apply elem_of_take in Hi as (j & Hj & _). apply list_elem_of_lookup_2 in Hj.
    rewrite Hp in Hj. apply list_elem_of_fmap in Hj as (k & -> & Hk).
    apply elem_of_seq in Hk. lia. }
  rewrite length_replicate in Hl. simpl.
  exists idxs, mask, g2. split; [done|]. split; [done|].
  rewrite (length_select data mask 0) by done.
  eapply Nat.le_lt_trans; [|exact Hli].
  rewrite <- (length_fmap Z.to_nat idxs). apply submseteq_length.
  apply NoDup_submseteq; [apply NoDup_true_positions|].
  intros j Hj. apply elem_of_true_positions in Hj as [_ Hj].
  rewrite Nat.sub_0_r in Hj. apply Hm in Hj as [Hj|[_ Hj]].
  - apply lookup_replicate in Hj as [? _]. done.
  - apply list_elem_of_fmap. exists (Z.of_nat j). split; [lia|done].
Qed.

(** A fraction that selects less than one row selects none: the mask
    stays clear and every row goes to the training part. *)
Lemma init_split_no_validation (G : Splitter.Generator) {A} (data : list A)
    (validation_perc : Q) (g : Splitter.rng G) :
  (0 <= validation_perc)%Q ->
  (validation_perc * inject_Z (Z.of_nat (length data)) < 1)%Q ->
  Splitter.init_split G data validation_perc g =
    Some ([], [], data,
          (Splitter.np_random_permutation G (Splitter.np_random_seed G 0)
             (length data)).2).
Proof.
  intros H0 H1. unfold Splitter.init_split, Splitter.get_cv_idxs.
  change (Splitter.valid_seed 0) with true. cbv iota.
  destruct (Splitter.np_random_permutation G _ _) as [perm g2].
  assert (Hv : py_int (validation_perc * inject_Z (Z.of_nat (length data))) = 0%Z).
  { assert (Hq : (0 <= validation_perc * inject_Z (Z.of_nat (length data)))%Q).
    { apply Qmult_le_0_compat; [done|]. rewrite <- (Zle_Qle 0). lia. }
    rewrite py_int_floor by done.
    assert (Hlo := Qfloor_resp_le _ _ Hq).
    assert (Hhi : (Qfloor (validation_perc * inject_Z (Z.of_nat (length data))) < 1)%Z).
    { rewrite Zlt_Qlt. eapply Qle_lt_trans; [apply Qfloor_le|done]. }
    change (Qfloor 0) with 0%Z in Hlo. lia. }
  rewrite Hv. simpl.
  change (0 * 0)%Z with 0%Z. change (0 + 0)%Z with 0%Z.
  assert (Es : py_slice perm 0 0 = []) by (unfold py_slice; by rewrite Nat.sub_diag).
  rewrite Es, split_by_idx_single. simpl.
  by destruct (select_all_false data) as [-> ->].
Qed.

Lemma batch_norm_fresh (c : nat) : batch_norm_shape c (batch_norm c) = true.
Proof. simpl. by rewrite !length_replicate, Nat.eqb_refl. Qed.

Section WithBackend.

Variable B : Backend.

Lemma linear_fresh (g : trng B) (i o : nat) :
  initialises_linear B ->
  linear_shape i o (Linear i (init_linear B g i o).1.1 (init_linear B g i o).1.2) = true.
Proof.
  intros Hi. destruct (Hi g i o) as [Hw Hb]. simpl.
  by rewrite Nat.eqb_refl, Hw, Hb, Nat.eqb_refl.
Qed.

(** X16: for a matrix with at least one row and a fraction in [0, 1) the
    constructor returns, and the object it builds is consistent: the
    validation and the training part are rows of the data and together
    have as many rows as the data, and the training part is not empty;
    the encoder and the decoder have the topologies of [Encoder.__init__]
    and [Decoder.__init__] for the width of the data, the intermediate
    size and the encoding size, the output of the one fitting the input
    of the other; both start in training mode and no loss is recorded. *)
Theorem init_builds_matching_networks (G : Splitter.Generator) (g : Splitter.rng G)
    (w : world B) (data : matrix) (validation_perc : Q) (lr : R)
    (intermediate_size encoded_size : nat) (is_enable_bath_norm : bool) :
  Splitter.permutes G -> initialises_linear B ->
  0 < length data -> (0 <= validation_perc)%Q -> (validation_perc < 1)%Q ->
  ∃ s0 g',
    init B G g w data validation_perc lr intermediate_size encoded_size
         is_enable_bath_norm = Some (s0, g') ∧
    Trainer.data B s0 = data ∧
    length (val B s0) + length (train B s0) = length data ∧
    0 < length (train B s0) ∧
    (∀ r, r ∈ val B s0 ∨ r ∈ train B s0 -> r ∈ data) ∧
    encoder_shape (length (hd [] data)) intermediate_size encoded_size
      is_enable_bath_norm (layers (net B (encoder B s0))) = true ∧
    decoder_shape (length (hd [] data)) intermediate_size encoded_size
      is_enable_bath_norm (layers (net B (decoder B s0))) = true ∧
    training (net B (encoder B s0)) = true ∧
    training (net B (decoder B s0)) = true ∧
    train_losses B s0 = [] ∧ val_losses B s0 = [].
Proof.
  intros HG Hi Hn Hv0 Hv1. unfold init.
  destruct (init_split_returns G data validation_perc g HG Hn Hv0 Hv1)
    as (val_idxs & mask & g' & -> & Hl & Hlt).
  simpl.
  set (f := length (hd [] data)).
  assert (H1 := linear_fresh (manual_seed B 0) f intermediate_size Hi).
  destruct (init_linear B (manual_seed B 0) f intermediate_size) as [e1 t1].
  assert (H2 := linear_fresh t1 intermediate_size encoded_size Hi).
  destruct (init_linear B t1 intermediate_size encoded_size) as [e2 t2].
  assert (H3 := linear_fresh t2 encoded_size intermediate_size Hi).
  destruct (init_linear B t2 encoded_size intermediate_size) as [d1 t3].
  assert (H4 := linear_fresh t3 intermediate_size f Hi).
  destruct (init_linear B t3 intermediate_size f) as [d2 t4].
  assert (Hs := length_select_invert data mask (eq_sym Hl)).
  eexists _, _. split; [reflexivity|]. simpl. split; [done|].
  split; [done|]. split; [lia|].
  split; [intros r [Hr|Hr]; by eapply elem_of_select|].
  unfold encoder_layers, decoder_layers.
  destruct is_enable_bath_norm; simpl in *;
    rewrite ?H1, ?H2, ?H3, ?H4, ?length_replicate, ?Nat.eqb_refl; done.
Qed.

(** A pass in evaluate mode over a batch without rows gives a batch
    without rows. *)
Lemma sequential_no_rows (masks : nat -> nat -> nat -> bool) (k : nat)
    (ls : list layer) :
  (sequential false masks k ls []).1 = inr [].
Proof.
  revert k. induction ls as [|l ls IH]; intros k; simpl; [done|].
  assert (E : forward_layer false (masks k) l [] = (inr [], l)) by (by destruct l).
  rewrite E. specialize (IH (S k)).
  destruct (sequential false masks (S k) ls []) as [r ls']. simpl in *. by subst.
Qed.

Lemma call_module_no_rows (n : net_id) (t : Tensor B) (s : state B) :
  values B t = [] -> training (net B (get_network B n s)) = false ->
  ∃ t' s', call_module B n (TensorOf t) s = Ok (TensorOf t') s' ∧
           values B t' = [] ∧
           (∀ n', training (net B (get_network B n' s')) =
                  training (net B (get_network B n' s))).
Proof.
  intros Hv Ht. rewrite run_call_module. cbv zeta.
  rewrite module_forward_eval' by done. simpl. rewrite Hv, sequential_no_rows.
  eexists _, _. split; [reflexivity|]. split; [done|].
  intros n'. by destruct n, n'.
Qed.


End WithBackend.

Lemma toy_backend_initialises_linear : initialises_linear toy_backend.
Proof.
  intros g i o. simpl. split; [|by rewrite length_replicate].
  apply has_shape_spec. split; [by rewrite length_replicate|].
  apply Forall_replicate. by rewrite length_replicate.
Qed.

Lemma init_builds_matching_networks_witness :
  ∃ s0 g',
    init toy_backend Splitter.lcg 5%Z (empty_world toy_backend)
         [[1]; [2]; [3]; [4]; [5]]%R (2 # 10) 1 3 2 true = Some (s0, g') ∧
    Trainer.data toy_backend s0 = [[1]; [2]; [3]; [4]; [5]]%R ∧
    length (val toy_backend s0) + length (train toy_backend s0) = 5 ∧
    0 < length (train toy_backend s0) ∧
    (∀ r, r ∈ val toy_backend s0 ∨ r ∈ train toy_backend s0 ->
          r ∈ [[1]; [2]; [3]; [4]; [5]]%R) ∧
    encoder_shape 1 3 2 true (layers (net toy_backend (encoder toy_backend s0))) = true ∧
    decoder_shape 1 3 2 true (layers (net toy_backend (decoder toy_backend s0))) = true ∧
    training (net toy_backend (encoder toy_backend s0)) = true ∧
    training (net toy_backend (decoder toy_backend s0)) = true ∧
    train_losses toy_backend s0 = [] ∧ val_losses toy_backend s0 = [].
Proof.
  apply (init_builds_matching_networks toy_backend Splitter.lcg 5%Z
           (empty_world toy_backend) [[1]; [2]; [3]; [4]; [5]]%R (2 # 10) 1 3 2 true
           lcg_permutes toy_backend_initialises_linear);
    [simpl; lia | discriminate | reflexivity].
Defined.


End ConstructorFacts.

(* ===================================================================== *)
(** * Runs of the trainer: what returns and what stops *)
(* ===================================================================== *)

Module TrainingRuns.
Import Torch Trainer TorchFacts TrainerFacts LoopFacts.

(** *** The criterion on two batches of one shape *)

Lemma same_shape_has_shape (n f : nat) (a b : matrix) :
  has_shape n f a = true -> has_shape n f b = true -> same_shape a b = true.
Proof.
  intros [Ha Hfa]%has_shape_spec [Hb Hfb]%has_shape_spec. unfold same_shape.
  apply andb_true_iff. split; [apply Nat.eqb_eq; congruence|].
  apply forallb_forall. intros [p q] Hin%list_elem_of_In. simpl.
  rewrite Forall_forall in Hfa, Hfb. apply Nat.eqb_eq.
  rewrite (Hfa p) by (by eapply elem_of_zip_l).
  by rewrite (Hfb q) by (by eapply elem_of_zip_r).
Qed.

Lemma numel_rows (f : nat) (m : matrix) :
  Forall (λ r, length r = f) m -> numel m = length m * f.
Proof.
  unfold numel. induction 1 as [|r m Hr _ IH]; [done|].
  rewrite fmap_cons. simpl. rewrite IH, Hr. lia.
Qed.

Lemma sum_R_nonneg (v : vector) : Forall (λ x, (0 <= x)%R) v -> (0 <= sum_R v)%R.
Proof. induction 1 as [|x v Hx _ IH]; simpl; lra. Qed.

Lemma zip_with_nonneg {X Y} (g : X -> Y -> R) (a : list X) (b : list Y) :
  (∀ x y, (0 <= g x y)%R) -> Forall (λ x, (0 <= x)%R) (zip_with g a b).
Proof.
  intros Hg. revert b. induction a as [|x a IH]; intros [|y b]; simpl;
    constructor; auto.
Qed.

Lemma squared_error_nonneg (a b : matrix) : (0 <= squared_error a b)%R.
Proof.
  unfold squared_error. apply sum_R_nonneg, zip_with_nonneg. intros r t.
  apply sum_R_nonneg, zip_with_nonneg. intros p q. simpl.
  apply (Rle_0_sqr (p - q)).
Qed.

(** *** A forward pass keeps the architecture *)

Lemma same_architecture_refl (l : layer) : same_architecture l l.
Proof. by destruct l. Qed.

Lemma same_architecture_all_refl (ls : list layer) : Forall2 same_architecture ls ls.
Proof. induction ls; constructor; [apply same_architecture_refl|done]. Qed.

(** A layer whose tensors fit keeps their shapes through a pass, whatever
    the batch is and whether the pass returns or raises. *)
Lemma forward_layer_architecture (tr : bool) (keep : nat -> nat -> bool)
    (l : layer) (i o : nat) (x : matrix) :
  layer_width l i = Some o -> same_architecture l (forward_layer tr keep l x).2.
Proof.
  intros Hw. destruct l as [inf w b|w b m v nbt| |p|]; simpl.
  - by destruct (forallb _ x).
  - simpl in Hw.
    destruct (length w =? i) eqn:E1; [|done].
    destruct (length b =? i) eqn:E2; [|done].
    destruct (length m =? i) eqn:E3; [|done].
    destruct (length v =? i) eqn:E4; [|done].
    apply Nat.eqb_eq in E1, E2, E3, E4.
    destruct (negb _); [done|]. destruct tr; [|done].
    destruct (length x =? 1); [done|]. simpl.
    unfold running_update, batch_mean, batch_var.
    rewrite !length_zip_with, !length_fmap, length_seq. split_and!; try done; lia.
  - done.
  - by destruct tr.
  - done.
Qed.

Lemma sequential_architecture (tr : bool) (masks : nat -> nat -> nat -> bool)
    (k : nat) (ls : list layer) (i o : nat) (x : matrix) :
  chain_width ls i = Some o ->
  Forall2 same_architecture ls (sequential tr masks k ls x).2.
Proof.
  revert k i x. induction ls as [|l ls IH]; intros k i x Hw; simpl; [constructor|].
  simpl in Hw. destruct (layer_width l i) as [m|] eqn:El; [|done]. simpl in Hw.
  assert (Ha := forward_layer_architecture tr (masks k) l i m x El).
  destruct (forward_layer tr (masks k) l x) as [[e|y] l']; simpl in *.
  - constructor; [done|apply same_architecture_all_refl].
  - specialize (IH (S k) m y Hw).
    destruct (sequential tr masks (S k) ls y) as [r ls'']. by constructor.
Qed.

(** *** The topologies depend on the architecture only *)

Lemma has_shape_lengths (n f : nat) (w w' : matrix) :
  length <$> w = length <$> w' -> has_shape n f w = has_shape n f w'.
Proof.
  intros E. unfold has_shape. f_equal.
  - by rewrite <- (length_fmap length w), E, length_fmap.
  - revert w' E. induction w as [|r w IH]; intros [|r' w']; try done.
    intros [= Er E]. simpl. rewrite Er. f_equal. by apply IH.
Qed.

Lemma same_architecture_tests (a b : layer) :
  same_architecture a b ->
  (∀ i o, linear_shape i o a = linear_shape i o b) ∧
  (∀ c, batch_norm_shape c a = batch_norm_shape c b) ∧
  is_relu a = is_relu b ∧ is_dropout a = is_dropout b ∧
  is_sigmoid a = is_sigmoid b ∧ is_batch_norm a = is_batch_norm b.
Proof.
  destruct a, b; simpl; try done.
  - intros (-> & Hw & Hb). split_and!; try done. intros i o.
    by rewrite (has_shape_lengths o i _ _ Hw), Hb.
  - intros (-> & -> & -> & ->). by split_and!.
Qed.

Ltac invert_Forall2 :=
  repeat match goal with
         | H : Forall2 _ (_ :: _) _ |- _ =>
             apply Forall2_cons_inv_l in H as (? & ? & ? & H & ->)
         | H : Forall2 _ [] _ |- _ => apply Forall2_nil_inv_l in H as ->
         end.

Ltac transfer_tests :=
  repeat match goal with
         | H : same_architecture _ _ |- _ =>
             apply same_architecture_tests in H as (? & ? & ? & ? & ? & ?)
         end.

Lemma encoder_shape_architecture (f h e : nat) (bn : bool) (ls ls' : list layer) :
  Forall2 same_architecture ls ls' ->
  encoder_shape f h e bn ls = true -> encoder_shape f h e bn ls' = true.
Proof.
  intros HF Hs. unfold encoder_shape in *. destruct bn.
  - destruct ls as [|l1 [|l2 [|l3 [|l4 [|l5 [|l6 [|l7 [|l8 [|]]]]]]]]]; try done.
    invert_Forall2. transfer_tests. rewrite <- Hs. congruence.
  - destruct ls as [|l1 [|l2 [|l3 [|l4 [|]]]]]; try done.
    invert_Forall2. transfer_tests. rewrite <- Hs. congruence.
Qed.

Lemma decoder_shape_architecture (f h e : nat) (bn : bool) (ls ls' : list layer) :
  Forall2 same_architecture ls ls' ->
  decoder_shape f h e bn ls = true -> decoder_shape f h e bn ls' = true.
Proof.
  intros HF Hs. unfold decoder_shape in *. destruct bn.
  - destruct ls as [|l1 [|l2 [|l3 [|l4 [|l5 [|l6 [|l7 [|]]]]]]]]; try done.
    invert_Forall2. transfer_tests. rewrite <- Hs. congruence.
  - destruct ls as [|l1 [|l2 [|l3 [|l4 [|]]]]]; try done.
    invert_Forall2. transfer_tests. rewrite <- Hs. congruence.
Qed.

Section WithBackend.

Variable B : Backend.

(** *** One call of a network *)

(** A pass over a batch of the input width returns a batch of the output
    width, but for a single row in training mode with normalisation; it
    keeps the architecture and the mode of the network and leaves the
    other network and the data alone. *)
Lemma call_module_shape (n : net_id) (t : Tensor B) (s : state B)
    (i o rows : nat) :
  chain_width (layers (net B (get_network B n s))) i = Some o ->
  has_shape rows i (values B t) = true ->
  training (net B (get_network B n s)) = false ∨ rows ≠ 1 ∨
    existsb is_batch_norm (layers (net B (get_network B n s))) = false ->
  ∃ t' s', call_module B n (TensorOf t) s = Ok (TensorOf t') s' ∧
           has_shape rows o (values B t') = true ∧
           (∀ n', n' ≠ n -> get_network B n' s' = get_network B n' s) ∧
           Forall2 same_architecture (layers (net B (get_network B n s)))
                   (layers (net B (get_network B n s'))) ∧
           training (net B (get_network B n s')) =
             training (net B (get_network B n s)) ∧
           train B s' = train B s ∧ val B s' = val B s.
Proof.
  intros Hc Hx Hg. rewrite run_call_module. cbv zeta. unfold module_forward.
  destruct (if training (net B (get_network B n s)) then _ else _) as [masks g'].
  assert (Ha := sequential_architecture (training (net B (get_network B n s)))
                  masks 0 _ i o (values B t) Hc).
  destruct (sequential_shape (training (net B (get_network B n s))) masks _ 0
              rows i o _ Hc Hx Hg) as (y & ls' & E & Hy & _).
  rewrite E in *. simpl. eexists _, _. split; [reflexivity|]. simpl.
  split; [done|]. split; [intros n' Hne; by destruct n, n'|].
  destruct n; by split_and!.
Qed.

Lemma criterion_returns (a b : Tensor B) (s : state B) (rows w : nat) :
  has_shape rows w (values B a) = true -> has_shape rows w (values B b) = true ->
  ∃ l, criterion B (TensorOf a) (TensorOf b) s = Ok l (final B (log B Criterion s)) ∧
       item B l = if rows * w =? 0 then NaN
                  else Num (squared_error (values B a) (values B b) / INR (rows * w)).
Proof.
  intros Ha Hb. unfold criterion. rewrite run_bind.
  change (log B Criterion s) with (Ok tt (final B (log B Criterion s))).
  unfold mse_loss. rewrite (same_shape_has_shape _ _ _ _ Ha Hb).
  apply has_shape_spec in Ha as [Hl Hf]. rewrite (numel_rows w) by done. rewrite Hl.
  destruct (rows * w =? 0); eexists; split; reflexivity.
Qed.

(** *** Loops that return, loops that stop *)

Lemma for_each_returns {A} (I : state B -> Prop) (l : list A)
    (body : A -> M B unit) :
  (∀ a, a ∈ l -> ∀ s, I s -> ∃ s', body a s = Ok tt s' ∧ I s') ->
  ∀ s, I s -> ∃ s', for_each B l body s = Ok tt s' ∧ I s'.
Proof.
  induction l as [|a l IH]; intros Hb s Hs; simpl.
  - by exists s.
  - rewrite run_bind. destruct (Hb a ltac:(left) s Hs) as (s1 & -> & H1).
    apply IH; [|done]. intros a' Ha'. apply Hb. by right.
Qed.

Lemma for_each_raises_at {A} (I : state B -> Prop) (l1 l2 : list A) (a : A)
    (body : A -> M B unit) (e : exn) :
  (∀ x, x ∈ l1 -> ∀ s, I s -> ∃ s', body x s = Ok tt s' ∧ I s') ->
  (∀ s, I s -> ∃ s', body a s = Raise e s') ->
  ∀ s, I s -> ∃ s', for_each B (l1 ++ a :: l2) body s = Raise e s'.
Proof.
  intros H1 Ha. induction l1 as [|x l1 IH]; intros s Hs; simpl.
  - rewrite run_bind. destruct (Ha s Hs) as (s' & ->). eauto.
  - rewrite run_bind. destruct (H1 x ltac:(left) s Hs) as (s1 & -> & Hs1).
    apply IH; [|done]. intros y Hy. apply H1. by right.
Qed.

Section Fitting.

Variables (f h e : nat) (bn : bool) (tr0 v0 : matrix).
Hypothesis HK : keeps_architecture B.

(** The object is well formed: the networks have the topologies of the
    constructor for these sizes, and the data are in place. *)
Local Abbreviation fitting := (λ s : state B,
  encoder_shape f h e bn (layers (net B (encoder B s))) = true ∧
  decoder_shape f h e bn (layers (net B (decoder B s))) = true ∧
  train B s = tr0 ∧ val B s = v0).

Local Abbreviation modes := (λ s : state B,
  (training (net B (encoder B s)), training (net B (decoder B s)))).

(** The backward pass and the two optimizer steps return and keep the
    object well formed. *)
Lemma training_tail_returns (l : loss_tensor B) (s : state B) :
  fitting s ->
  ∃ s', (backward B l;; optimizer_step B Enc;; optimizer_step B Dec;;
         mret (item B l)) s = Ok (item B l) s' ∧
        fitting s' ∧ modes s' = modes s.
Proof.
  intros (He & Hd & Ht & Hv). eexists. split; [reflexivity|]. simpl.
  split; [|done]. split_and!; try done.
  - eapply encoder_shape_architecture; [apply HK|done].
  - eapply decoder_shape_architecture; [apply HK|done].
Qed.

(** A training step on a batch of the width of the data returns, but for
    a single row with normalisation in training mode. *)
Lemma train_step_returns (x t : Tensor B) (s : state B) (rows : nat) :
  fitting s ->
  has_shape rows f (values B x) = true -> has_shape rows f (values B t) = true ->
  bn = false ∨ rows ≠ 1 ∨ modes s = (false, false) ->
  ∃ loss s', train_step B (TensorOf x) (TensorOf t) s = Ok loss s' ∧
             fitting s' ∧ modes s' = modes s.
Proof.
  intros (He & Hd & Ht & Hv) Hx Htt Hg.
  destruct (encoder_chain _ _ _ _ _ He) as [Hce Hbe].
  destruct (decoder_chain _ _ _ _ _ Hd) as (Hcd & _ & Hbd).
  unfold train_step.
  rewrite run_bind, run_zero_grad. set (s1 := final B (zero_grad B Enc s)).
  rewrite run_bind, run_zero_grad. set (s2 := final B (zero_grad B Dec s1)).
  destruct (call_module_shape Enc x s2 f e rows)
    as (te & s3 & E1 & Hs1 & Hk1 & Ha1 & Hm1 & Ht1 & Hv1); [exact Hce|exact Hx| |].
  { destruct Hg as [->|[?|Hm]];
      [right; right; by apply Hbe|by right; left|left; by injection Hm]. }
  rewrite run_bind, E1.
  destruct (call_module_shape Dec te s3 e f rows)
    as (td & s4 & E2 & Hs2 & Hk2 & Ha2 & Hm2 & Ht2 & Hv2).
  { rewrite (Hk1 Dec) by done. exact Hcd. }
  { exact Hs1. }
  { rewrite (Hk1 Dec) by done.
    destruct Hg as [->|[?|Hm]];
      [right; right; by apply Hbd|by right; left|left; by injection Hm]. }
  rewrite run_bind, E2.
  destruct (criterion_returns td t s4 rows f Hs2 Htt) as (l & El & _).
  rewrite run_bind, El.
  destruct (training_tail_returns l (final B (log B Criterion s4)))
    as (s5 & E5 & H5 & Hm5).
  { simpl. split_and!.
    - eapply encoder_shape_architecture; [|exact He].
      assert (E : get_network B Enc s4 = get_network B Enc s3) by (by apply Hk2).
      simpl in E. rewrite E. exact Ha1.
    - eapply decoder_shape_architecture; [|exact Hd].
      assert (E : get_network B Dec s3 = get_network B Dec s2) by (by apply Hk1).
      simpl in E, Ha2. rewrite E in Ha2. exact Ha2.
    - by rewrite Ht2, Ht1.
    - by rewrite Hv2, Hv1. }
  exists (item B l), s5. split; [exact E5|]. split; [done|].
  rewrite Hm5. simpl.
  assert (Ee : get_network B Enc s4 = get_network B Enc s3) by (by apply Hk2).
  assert (Ed : get_network B Dec s3 = get_network B Dec s2) by (by apply Hk1).
  simpl in Ee, Ed, Hm1, Hm2. by rewrite Ee, Hm1, Hm2, Ed.
Qed.

(** The evaluation of a batch of the width of the data returns, whatever
    the modes were and however many rows there are. *)
Lemma get_val_loss_returns (v : matrix) (s : state B) :
  fitting s -> Forall (λ r, length r = f) v ->
  ∃ x s', get_val_loss B (from_numpy B v) (from_numpy B v) s = Ok x s' ∧
          fitting s' ∧
          ((x = NaN ∧ length v * f = 0) ∨
           (∃ r, x = Num r ∧ (0 <= r)%R ∧ length v * f ≠ 0)).
Proof.
  intros (He & Hd & Ht & Hv) Hw.
  destruct (encoder_chain _ _ _ _ _ He) as [Hce _].
  destruct (decoder_chain _ _ _ _ _ Hd) as (Hcd & _).
  assert (Hx : has_shape (length v) f v = true) by (by apply has_shape_spec).
  unfold get_val_loss.
  rewrite (run_bind B (reset B false)), run_reset.
  set (s1 := final B (reset B false s)).
  destruct (call_module_shape Enc {| values := v; grad_fn := Leaf v |} s1
              f e (length v) Hce Hx (or_introl eq_refl))
    as (te & s2 & E1 & Hs1 & Hk1 & Ha1 & Hm1 & Ht1 & Hv1).
  rewrite run_bind. unfold from_numpy at 1. rewrite E1.
  destruct (call_module_shape Dec te s2 e f (length v))
    as (td & s3 & E2 & Hs2 & Hk2 & Ha2 & Hm2 & Ht2 & Hv2);
    [by rewrite Hk1|done|left; by rewrite Hk1|].
  rewrite run_bind, E2.
  destruct (criterion_returns td {| values := v; grad_fn := Leaf v |} s3
              (length v) f Hs2 Hx) as (l & El & Hl).
  rewrite run_bind. unfold from_numpy. rewrite El.
  exists (item B l), (final B (log B Criterion s3)). split; [reflexivity|]. split.
  - simpl. split_and!.
    + eapply encoder_shape_architecture; [|exact He].
      assert (E : get_network B Enc s3 = get_network B Enc s2) by (by apply Hk2).
      simpl in E. rewrite E. exact Ha1.
    + eapply decoder_shape_architecture; [|exact Hd].
      assert (E : get_network B Dec s2 = get_network B Dec s1) by (by apply Hk1).
      simpl in E, Ha2. rewrite E in Ha2. exact Ha2.
    + by rewrite Ht2, Ht1.
    + by rewrite Hv2, Hv1.
  - rewrite Hl. destruct (Nat.eqb_spec (length v * f) 0) as [E0|E0]; [by left|].
    right. eexists. split; [reflexivity|]. split; [|done].
    apply Rmult_le_pos; [apply squared_error_nonneg|].
    apply Rlt_le, Rinv_0_lt_compat, lt_0_INR. lia.
Qed.

(** The body of the batch loop returns on a batch of rows of the data,
    but for a single row with normalisation. *)
Lemma batch_step_returns (p : Z) (i : nat) (rows : matrix) (s : state B) :
  p ≠ 0%Z -> fitting s ->
  Forall (λ r, length r = f) rows -> Forall (λ r, length r = f) v0 ->
  bn = false ∨ length rows ≠ 1 ->
  ∃ s', batch_step B p i (from_numpy B rows, from_numpy B rows) s = Ok tt s' ∧
        fitting s'.
Proof.
  intros Hp Hs Hr Hv Hg. unfold batch_step.
  rewrite run_bind, run_reset. set (s1 := final B (reset B true s)).
  assert (Hx : has_shape (length rows) f rows = true) by (by apply has_shape_spec).
  destruct (train_step_returns {| values := rows; grad_fn := Leaf rows |}
              {| values := rows; grad_fn := Leaf rows |} s1 (length rows))
    as (loss & s2 & E & H2 & _); [exact Hs|done|done| |].
  { destruct Hg as [?|?]; [by left|by right; left]. }
  rewrite run_bind. simpl fst. simpl snd. unfold from_numpy at 1 2. rewrite E.
  destruct (Z.eqb_spec p 0) as [?|_]; [done|].
  destruct (report_due i p); [|by exists s2].
  rewrite run_bind. simpl gets.
  change (gets B (val B) s2) with (Ok (val B s2) s2). cbv iota beta.
  destruct (get_val_loss_returns (val B s2) s2 H2) as (x & s3 & E3 & H3 & _).
  { destruct H2 as (_ & _ & _ & ->). done. }
  rewrite run_bind, E3. eexists. split; [reflexivity|]. exact H3.
Qed.

(** With normalisation, the body of the batch loop stops at a batch of
    one row: the first normalisation layer of the encoder refuses it. *)
Lemma batch_step_single_row (p : Z) (i : nat) (row : vector) (s : state B) :
  bn = true -> fitting s -> length row = f ->
  ∃ s', batch_step B p i (from_numpy B [row], from_numpy B [row]) s =
        Raise ValueError s'.
Proof.
  intros -> (He & _) Hr. unfold batch_step.
  rewrite run_bind, run_reset. set (s1 := final B (reset B true s)).
  rewrite run_bind. unfold train_step.
  rewrite run_bind, run_zero_grad. set (s2 := final B (zero_grad B Enc s1)).
  rewrite run_bind, run_zero_grad. set (s3 := final B (zero_grad B Dec s2)).
  rewrite run_bind. simpl fst. unfold from_numpy at 1. rewrite run_call_module.
  cbv zeta. unfold module_forward.
  change (training (net B (get_network B Enc s3))) with true. cbv iota.
  change (layers (net B (get_network B Enc s3))) with (layers (net B (encoder B s))).
  destruct (dropout_masks B _) as [masks g'].
  unfold encoder_shape in He.
  destruct (layers (net B (encoder B s)))
    as [|l1 [|l2 [|l3 [|l4 [|l5 [|l6 [|l7 [|l8 [|]]]]]]]]]; try done.
  split_shape He.
  apply linear_width in He as (E1 & B1 & _).
  destruct (forward_layer_shape true (masks 0) l1 1 f h [row] E1) as (y & l1' & F1 & Hy & _).
  { apply has_shape_spec. split; [done|]. by constructor. }
  { by right; right. }
  simpl sequential. rewrite F1.
  rewrite (forward_batch_norm_single (masks 1) l2 h y Hs5 Hy). simpl. eauto.
Qed.

End Fitting.


(** X19: on a well-formed object, with a report period that is not 0,
    [train_loop] returns for every number of epochs when normalisation is
    off, or when the number of training rows does not leave the remainder
    1 modulo the batch size 64: no batch is a single row then. *)
Theorem train_loop_returns (epochs p : Z) (s : state B) (f h e : nat) (bn : bool) :
  shuffles B -> keeps_architecture B -> p ≠ 0%Z ->
  encoder_shape f h e bn (layers (net B (encoder B s))) = true ->
  decoder_shape f h e bn (layers (net B (decoder B s))) = true ->
  Forall (λ r, length r = f) (train B s) ->
  Forall (λ r, length r = f) (val B s) ->
  bn = false ∨ length (train B s) `mod` 64 ≠ 1 ->
  ∃ s', train_loop B epochs p s = Ok tt s'.
Proof.
  intros Hsh HK Hp He Hd Ht Hv Hg.
  set (I := λ s' : state B,
    encoder_shape f h e bn (layers (net B (encoder B s'))) = true ∧
    decoder_shape f h e bn (layers (net B (decoder B s'))) = true ∧
    train B s' = train B s ∧ val B s' = val B s).
  destruct (for_each_returns I (seq 0 (Z.to_nat epochs))
              (λ epoch, print B (EpochLine (Z.of_nat epoch + 1) epochs);;
                 batches ← dataloader_iter B;
                 for_each B (imap pair batches) (λ ib, batch_step B p ib.1 ib.2)))
    with (s := s) as (s' & E & _); [|by split_and!|by exists s'].
  intros epoch _ s0 H0. rewrite run_bind. simpl. rewrite run_bind.
  match goal with |- context [dataloader_iter B ?s1] =>
    destruct (dataloader_iter_batches B s1 Hsh) as (bs & -> & HF);
    set (s2 := s1) in * end.
  assert (Et : train B s0 = train B s) by (destruct H0 as (_ & _ & H0 & _); exact H0).
  simpl in HF. rewrite Et in HF.
  match type of HF with Forall2 _ (chunks _ ?o) _ => set (order := o) in * end.
  assert (Hl : length order = length (train B s)).
  { unfold order. by rewrite (Hsh _ _), length_seq. }
  assert (Hc : bn = false ∨ Forall (λ c : list nat, length c ≠ 1) (chunks batch_size order)).
  { destruct Hg as [?|Hm]; [by left|right].
    apply (chunks_upto_lengths (length order) batch_size order); unfold batch_size;
      [lia|done|by rewrite Hl]. }
  apply (for_each_returns I); [|exact H0].
  intros [i b] Hib s3 H3. apply elem_of_lookup_imap in Hib as (i' & b' & [= <- <-] & Hb).
  destruct (Forall2_lookup_r _ _ _ _ _ HF Hb) as (c & Ec & rows & -> & Hn & Hrows).
  simpl. apply (batch_step_returns f h e bn (train B s) (val B s) HK); try done.
  - apply Forall_forall. intros r Hr. rewrite Forall_forall in Hrows, Ht.
    by apply Ht, Hrows.
  - destruct Hc as [?|Hc]; [by left|right]. rewrite Hn.
    rewrite Forall_forall in Hc. apply Hc. by eapply list_elem_of_lookup_2.
Qed.

(** X20: with normalisation on, a report period that is not 0 and one
    epoch or more, [train_loop] on a well-formed object whose number of
    training rows leaves the remainder 1 modulo 64 never returns: the
    batches of 64 rows of the first epoch are trained on, and the last
    batch, a single row, raises the ValueError of the normalisation
    layer. *)
Theorem train_loop_single_row_batch_raises (epochs p : Z) (s : state B)
    (f h e : nat) :
  shuffles B -> keeps_architecture B -> (0 < epochs)%Z -> p ≠ 0%Z ->
  encoder_shape f h e true (layers (net B (encoder B s))) = true ->
  decoder_shape f h e true (layers (net B (decoder B s))) = true ->
  Forall (λ r, length r = f) (train B s) ->
  Forall (λ r, length r = f) (val B s) ->
  length (train B s) `mod` 64 = 1 ->
  ∃ s', train_loop B epochs p s = Raise ValueError s'.
Proof.
  intros Hsh HK Hep Hp He Hd Ht Hv Hm.
  set (I := λ s' : state B,
    encoder_shape f h e true (layers (net B (encoder B s'))) = true ∧
    decoder_shape f h e true (layers (net B (decoder B s'))) = true ∧
    train B s' = train B s ∧ val B s' = val B s).
  unfold train_loop.
  destruct (Z.to_nat epochs) as [|k] eqn:Ek; [lia|].
  change (seq 0 (S k)) with ([] ++ 0 :: seq 1 k).
  apply (for_each_raises_at I); [by intros ? ?%elem_of_nil| |by split_and!].
  intros s0 H0. rewrite run_bind. simpl. rewrite run_bind.
  match goal with |- context [dataloader_iter B ?s1] =>
    destruct (dataloader_iter_batches B s1 Hsh) as (bs & -> & HF);
    set (s2 := s1) in * end.
  assert (Et : train B s0 = train B s) by (destruct H0 as (_ & _ & H0 & _); exact H0).
  simpl in HF. rewrite Et in HF.
  match type of HF with Forall2 _ (chunks _ ?o) _ => set (order := o) in * end.
  assert (Hl : length order = length (train B s)).
  { unfold order. by rewrite (Hsh _ _), length_seq. }
  destruct (chunks_upto_lengths (length order) batch_size order) as [_ Hc];
    [unfold batch_size; lia|done|].
  destruct Hc as (cs & c & Ec & Hcs); [unfold batch_size; by rewrite Hl|].
  unfold chunks in HF. rewrite Ec in HF.
  apply Forall2_app_inv_l in HF as (bs1 & bs2 & HF1 & HF2 & ->).
  apply Forall2_cons_inv_l in HF2 as (b & bs3 & (rows & -> & Hn & Hrows) & HF3 & ->).
  apply Forall2_nil_inv_l in HF3 as ->.
  destruct rows as [|row [|]]; try done.
  rewrite imap_app. simpl.
  apply (for_each_raises_at I); [| |exact H0].
  - intros [i b] Hib s3 H3.
    apply elem_of_lookup_imap in Hib as (i' & b' & [= <- <-] & Hb).
    destruct (Forall2_lookup_r _ _ _ _ _ HF1 Hb) as (c' & Ec' & rows & -> & Hn' & Hrows').
    simpl. apply (batch_step_returns f h e true (train B s) (val B s) HK); try done.
    + apply Forall_forall. intros r Hr. rewrite Forall_forall in Hrows', Ht.
      by apply Ht, Hrows'.
    + right. rewrite Hn'. rewrite Forall_forall in Hcs.
      rewrite (Hcs c') by (by eapply list_elem_of_lookup_2). done.
  - intros s3 H3. simpl.
    apply (batch_step_single_row f h e true (train B s) (val B s)); [done|done|].
    apply Forall_cons in Hrows as [Hr _]. rewrite Forall_forall in Ht. by apply Ht.
Qed.

End WithBackend.

Lemma toy_backend_keeps_architecture : keeps_architecture toy_backend.
Proof. intros o ls g. apply same_architecture_all_refl. Qed.


Lemma train_loop_returns_witness :
  ∃ s', train_loop toy_backend 3 1 toy_state = Ok tt s'.
Proof.
  apply (train_loop_returns toy_backend 3 1 toy_state 1 1 1 false
           toy_backend_shuffles toy_backend_keeps_architecture).
  - discriminate.
  - reflexivity.
  - reflexivity.
  - apply Forall_replicate. reflexivity.
  - repeat constructor.
  - left. reflexivity.
Defined.

Lemma train_loop_single_row_batch_raises_witness :
  let s0 := (default (toy_state, 0%Z)
               (init toy_backend Splitter.lcg 5%Z (empty_world toy_backend)
                  [[1]]%R 0 1 3 2 true)).1 in
  ∃ s', train_loop toy_backend 1 100 s0 = Raise ValueError s'.
Proof.
  apply (train_loop_single_row_batch_raises toy_backend 1 100 _ 1 3 2
           toy_backend_shuffles toy_backend_keeps_architecture).
  - lia.
  - discriminate.
  - reflexivity.
  - reflexivity.
  - repeat constructor.
  - constructor.
  - reflexivity.
Defined.

End TrainingRuns.

(* ===================================================================== *)
(** * More on the text-embedding helper *)
(* ===================================================================== *)

Module BagOfWords.
Import Torch Embedding EmbeddingFacts.

(** *** Looking a key up in the dictionary *)

Lemma index_of_None (keys : list string) (k : string) :
  index_of keys k = None ↔ k ∉ keys.
Proof.
  unfold index_of. rewrite fmap_None, list_find_None, Forall_forall.
  split; [intros H Hin; by apply (H k)|intros H x Hx ->; done].
Qed.

Lemma index_of_Some (keys : list string) (k : string) (i : nat) :
  index_of keys k = Some i -> keys !! i = Some k.
Proof.
  unfold index_of. intros H. apply fmap_Some in H as ([j x] & Hf & ->).
  apply list_find_Some in Hf as (Hl & -> & _). done.
Qed.

Lemma index_of_NoDup (keys : list string) (k : string) (i : nat) :
  NoDup keys -> keys !! i = Some k -> index_of keys k = Some i.
Proof.
  intros Hnd Hi. destruct (index_of keys k) as [j|] eqn:E.
  - apply index_of_Some in E. f_equal. by eapply NoDup_lookup.
  - apply index_of_None in E. destruct E. by eapply list_elem_of_lookup_2.
Qed.

Section WithTools.

Variable T : TextTools.

(** *** The two loops of [get_bow_embedding] *)

Lemma mark_tokens_app (keys : list string) (m : matrix) (a b : list string) :
  mark_tokens T keys m (a ++ b) =
  match mark_tokens T keys m a with
  | inl e => inl e
  | inr m' => mark_tokens T keys m' b
  end.
Proof.
  revert m. induction a as [|t a IH]; intros m; simpl; [done|].
  destruct (index_of keys (token_key T t)); [apply IH|done].
Qed.

(** The two loops are one loop over the tokens of all the words. *)
Lemma mark_words_tokens (keys : list string) (m : matrix) (words : list string) :
  mark_words T keys m words = mark_tokens T keys m (words ≫= word_tokens T).
Proof.
  revert m. induction words as [|w ws IH]; intros m; simpl; [done|].
  rewrite mark_tokens_app. fold (word_tokens T w).
  destruct (mark_tokens T keys m (word_tokens T w)); [done|apply IH].
Qed.

(** The loop raises at the first token whose key the dictionary lacks;
    otherwise it sets the rows of the keys it found and no other. *)
Lemma mark_tokens_spec (keys : list string) (m : matrix) (tokens : list string) :
  match mark_tokens T keys m tokens with
  | inr m' =>
      Forall (λ t, token_key T t ∈ keys) tokens ∧ length m' = length m ∧
      ∀ k, (k < length m ->
            (∃ t, t ∈ tokens ∧ index_of keys (token_key T t) = Some k) ->
            m' !! k = Some [1%R]) ∧
           (¬ (∃ t, t ∈ tokens ∧ index_of keys (token_key T t) = Some k) ->
            m' !! k = m !! k)
  | inl e => e = ValueError ∧ Exists (λ t, token_key T t ∉ keys) tokens
  end.
Proof.
  revert m. induction tokens as [|t tokens IH]; intros m; simpl.
  - split; [constructor|]. split; [done|]. intros k. split; [|done].
    intros _ (t & Ht%elem_of_nil & _). done.
  - destruct (index_of keys (token_key T t)) as [i|] eqn:Ei.
    + specialize (IH (<[i := [1%R]]> m)). rewrite length_insert in IH.
      destruct (mark_tokens T keys (<[i:=[1%R]]> m) tokens) as [e|m'].
      * destruct IH as [-> IH]. split; [done|]. by apply Exists_cons_tl.
      * destruct IH as (Hf & Hl & Hk). split.
        { constructor; [|done]. eapply list_elem_of_lookup_2, index_of_Some, Ei. }
        split; [done|]. intros k. destruct (Hk k) as [Hk1 Hk2]. split.
        -- intros Hlt (t' & Ht' & Et').
           destruct (decide (Exists (λ t'', index_of keys (token_key T t'') = Some k)
                               tokens)) as [Hex|Hno'].
           { apply Hk1; [done|]. by apply Exists_exists in Hex. }
           assert (Hno : ¬ ∃ t'', t'' ∈ tokens ∧
                             index_of keys (token_key T t'') = Some k).
           { intros Hex. apply Hno'. by apply Exists_exists. }
           rewrite Hk2 by done.
           apply elem_of_cons in Ht' as [->|Ht']; [|destruct Hno; eauto].
           assert (i = k) as -> by congruence.
           by apply list_lookup_insert_eq.
        -- intros Hno. rewrite Hk2.
           ++ apply list_lookup_insert_ne. intros ->. apply Hno.
              exists t. split; [by left|done].
           ++ intros (t' & Ht' & Et'). apply Hno. exists t'. split; [by right|done].
    + split; [done|]. apply Exists_cons_hd. by apply index_of_None.
Qed.



(** X23: [embedding_helper.get_embedding] returns an array for the
    selectors [bert] and [bow] only; any selector other than [bert],
    [bow] and [tf-idf] (the class default [word2vec] is one) falls
    through every test and returns None without an error. *)
Theorem get_embedding_selectors (self : embedding_helper) :
  (∀ m, get_embedding T self = inr (PyArray m) ->
        model self = "bert" ∨ model self = "bow") ∧
  (model self ≠ "bert" -> model self ≠ "bow" -> model self ≠ "tf-idf" ->
   get_embedding T self = inr PyNone).
Proof.
  unfold get_embedding. split.
  - intros m. repeat case_decide; auto.
    + unfold get_tf_idf_embedding. by destruct (tfidf_fit_transform T _).
    + done.
  - intros. by rewrite !decide_False.
Qed.


End WithTools.


End BagOfWords.
